(** * chex: the version-checking engine (internal/checker/checker.go)

    A shallow embedding of the checker package and the properties of its
    specification.  Go strings are byte strings ([string], a list of 8-bit
    [ascii]); [len] is [String.length].  Everything the package obtains from
    outside this repository (process spawning, the search path, the regexp
    and semver libraries, the Unicode case tables, the iteration order of a
    Go map) is gathered in one interface, [Platform].

    The second part embeds what is around the checker: the report
    (internal/output), the configuration loaders (internal/config) and the
    check command ([runCheck] of cmd/chex/main.go), with the files and the
    TOML library behind a second interface, [FileSystem].  Where a
    property is about characters rather than bytes, texts are read as
    UTF-8 the way Go's [unicode/utf8] does ([Utf8]). *)

From Stdlib Require Import Ascii String Arith NArith Lia DecimalString.
From stdpp Require Import base option list gmap strings.

Local Open Scope string_scope.
Local Open Scope list_scope.

(** Let [simpl] unfold the append of a string that starts with a byte. *)
Local Arguments String.append !_ _ /.

(** ** Go's [strings] package, on byte strings *)

Module GoStrings.

Definition byte_of (c : ascii) : nat := nat_of_ascii c.

Definition newline : ascii := ascii_of_nat 10.

(** [strings.Split(s, "\n")]: never empty; the empty string gives [[""]]. *)
Fixpoint Split_lines (s : string) : list string :=
  match s with
  | EmptyString => [EmptyString]
  | String c s' =>
      if Ascii.eqb c newline then EmptyString :: Split_lines s'
      else match Split_lines s' with
           | l :: ls => String c l :: ls
           | [] => [String c EmptyString]
           end
  end.

(** [strings.HasPrefix(s, p)] *)
Fixpoint HasPrefix (s p : string) : bool :=
  match p, s with
  | EmptyString, _ => true
  | String _ _, EmptyString => false
  | String a p', String b s' => Ascii.eqb a b && HasPrefix s' p'
  end.

(** [strings.Contains(s, substr)] *)
Fixpoint Contains (s substr : string) : bool :=
  HasPrefix s substr ||
  match s with
  | EmptyString => false
  | String _ s' => Contains s' substr
  end.

(** The UTF-8 encodings of the runes for which [unicode.IsSpace] holds:
    the six ASCII ones, U+0085, U+00A0, U+1680, U+2000..U+200A, U+2028,
    U+2029, U+202F, U+205F and U+3000. *)
Definition bytes (l : list nat) : string :=
  string_of_list_ascii (map ascii_of_nat l).

Definition spaceRunes : list string :=
  map bytes
    ([ [9]; [10]; [11]; [12]; [13]; [32];
       [194; 133]; [194; 160]; [225; 154; 128] ] ++
     map (fun k => [226; 128; 128 + k]) (seq 0 11) ++
     [ [226; 128; 168]; [226; 128; 169]; [226; 128; 175];
       [226; 129; 159]; [227; 128; 128] ]).

Fixpoint drop (n : nat) (s : string) : string :=
  match n, s with
  | S n', String _ s' => drop n' s'
  | _, _ => s
  end.

(** Width of the white-space rune at the head of [s]; 0 when there is none. *)
Definition leadingSpace (runes : list string) (s : string) : nat :=
  match filter (fun r => Is_true (HasPrefix s r)) runes with
  | r :: _ => String.length r
  | [] => 0
  end.

(** [strings.TrimLeftFunc(s, unicode.IsSpace)]; [fuel] bounds the number of
    runes removed and [String.length s] always suffices. *)
Fixpoint trimLeftSpaces (runes : list string) (fuel : nat) (s : string)
    : string :=
  match fuel with
  | 0 => s
  | S fuel' =>
      match leadingSpace runes s with
      | 0 => s
      | n => trimLeftSpaces runes fuel' (drop n s)
      end
  end.

Definition TrimLeftSpace (s : string) : string :=
  trimLeftSpaces spaceRunes (String.length s) s.

(** [strings.TrimRightFunc(s, unicode.IsSpace)]: the same scan from the end,
    on the reversed string with the reversed encodings. *)
Definition TrimRightSpace (s : string) : string :=
  String.rev
    (trimLeftSpaces (map String.rev spaceRunes) (String.length s)
       (String.rev s)).

(** [strings.TrimSpace(s)] *)
Definition TrimSpace (s : string) : string :=
  TrimRightSpace (TrimLeftSpace s).

(** [strings.Fields(s)]: the maximal runs of non-space bytes. *)
Fixpoint fields_go (fuel : nat) (cur : string) (s : string) : list string :=
  let flush := match cur with EmptyString => [] | _ => [String.rev cur] end in
  match fuel with
  | 0 => flush
  | S fuel' =>
      match s with
      | EmptyString => flush
      | String c s' =>
          match leadingSpace spaceRunes s with
          | 0 => fields_go fuel' (String c cur) s'
          | n => flush ++ fields_go fuel' EmptyString (drop n s)
          end
      end
  end.

Definition Fields (s : string) : list string :=
  fields_go (S (String.length s)) EmptyString s.

Definition isUpperASCII (c : ascii) : bool :=
  ((65 <=? byte_of c) && (byte_of c <=? 90))%nat.

Definition lowerASCII (c : ascii) : ascii :=
  if isUpperASCII c then ascii_of_nat (byte_of c + 32) else c.

Fixpoint mapBytes (f : ascii -> ascii) (s : string) : string :=
  match s with
  | EmptyString => EmptyString
  | String c s' => String (f c) (mapBytes f s')
  end.

Fixpoint allBytes (f : ascii -> bool) (s : string) : bool :=
  match s with
  | EmptyString => true
  | String c s' => f c && allBytes f s'
  end.

Fixpoint anyByte (f : ascii -> bool) (s : string) : bool :=
  match s with
  | EmptyString => false
  | String c s' => f c || anyByte f s'
  end.

(** [c < utf8.RuneSelf] *)
Definition isASCII (c : ascii) : bool := (byte_of c <? 128)%nat.

(** [strings.ToLower(s)]: the ASCII fast path of the library, and
    [strings.Map(unicode.ToLower, s)], whose tables are the platform's,
    for a string with a byte at or above [utf8.RuneSelf]. *)
Definition ToLower (unicodeLower : string -> string) (s : string) : string :=
  if allBytes isASCII s then mapBytes lowerASCII s else unicodeLower s.

End GoStrings.

(** ** The regular expression of the default extraction

    [regexp.MustCompile(`\d+\.\d+(\.\d+)?`)] and its [FindString]: the
    fragment of the syntax that the pattern uses, matched by a backtracking
    search, which is the match Go's leftmost-first semantics selects. *)

Module Regex.

Inductive re : Type :=
  | Lit (c : ascii)                   (* \. *)
  | PlusClass (f : ascii -> bool)     (* \d+ *)
  | Seq (r1 r2 : re)
  | Opt (r : re).                     (* ( ... )? *)

(** [\d]: an ASCII digit. *)
Definition digit (c : ascii) : bool :=
  ((48 <=? nat_of_ascii c) && (nat_of_ascii c <=? 57))%nat.

(** Greedy repetition of a class: consume as long as possible, give bytes
    back one at a time when the continuation [k] fails. *)
Fixpoint star (f : ascii -> bool) (s : string)
    (k : string -> option string) : option string :=
  match s with
  | String a s' =>
      if f a then
        match star f s' k with
        | Some r => Some r
        | None => k s
        end
      else k s
  | EmptyString => k s
  end.

(** [matchK r s k]: match [r] at the head of [s], then [k] on what is left;
    the result is the text left after the whole match. *)
Fixpoint matchK (r : re) (s : string)
    (k : string -> option string) : option string :=
  match r with
  | Lit c =>
      match s with
      | String a s' => if Ascii.eqb a c then k s' else None
      | EmptyString => None
      end
  | PlusClass f =>
      match s with
      | String a s' => if f a then star f s' k else None
      | EmptyString => None
      end
  | Seq r1 r2 => matchK r1 s (fun s' => matchK r2 s' k)
  | Opt r1 =>
      match matchK r1 s k with
      | Some r => Some r
      | None => k s
      end
  end.

Fixpoint take (n : nat) (s : string) : string :=
  match n, s with
  | S n', String a s' => String a (take n' s')
  | _, _ => EmptyString
  end.

(** The match anchored at the head of [s], when there is one. *)
Definition matchAt (r : re) (s : string) : option string :=
  match matchK r s Some with
  | Some rest => Some (take (String.length s - String.length rest) s)
  | None => None
  end.

(** The leftmost match. *)
Fixpoint find (r : re) (s : string) : option string :=
  match matchAt r s with
  | Some m => Some m
  | None =>
      match s with
      | String _ s' => find r s'
      | EmptyString => None
      end
  end.

(** [Regexp.FindString]: the empty string when nothing matches. *)
Definition FindString (r : re) (s : string) : string :=
  match find r s with
  | Some m => m
  | None => EmptyString
  end.

Definition dot : ascii := ascii_of_nat 46.

(** [\d+\.\d+(\.\d+)?] *)
Definition versionRe : re :=
  Seq (PlusClass digit)
    (Seq (Lit dot)
       (Seq (PlusClass digit)
          (Opt (Seq (Lit dot) (PlusClass digit))))).

End Regex.

(** ** The data model (internal/config/types.go, checker.go) *)

(** [config.Tool] *)
Record Tool := {
  Name : string;
  CLI : string;
  Version : string;
  VersionArg : string;
  VersionPattern : string;
  Optional : bool;
  Message : string;
  Source : string
}.

(** A Go [error]: [None] is [nil], [Some msg] an error whose [Error()] is
    [msg]. *)
Definition error : Type := option string.

(** [type Status string] and its three constants. *)
Definition Status : Type := string.
Definition StatusPass : Status := "pass".
Definition StatusFail : Status := "fail".
Definition StatusOptionalMissing : Status := "optional_missing".

(** [checker.Result]; [ResultTool] is the descriptor the [Tool] pointer
    refers to. *)
Record Result := {
  ResultTool : Tool;
  ResultStatus : Status;
  InstalledVersion : string;
  Path : string;
  Output : string;
  Error : error
}.

(** [&Result{Tool: tool}]: every other field has its zero value. *)
Definition newResult (tool : Tool) : Result :=
  {| ResultTool := tool; ResultStatus := ""; InstalledVersion := "";
     Path := ""; Output := ""; Error := None |}.

Definition setStatus (s : Status) (r : Result) : Result :=
  {| ResultTool := ResultTool r; ResultStatus := s;
     InstalledVersion := InstalledVersion r; Path := Path r;
     Output := Output r; Error := Error r |}.

Definition setInstalledVersion (v : string) (r : Result) : Result :=
  {| ResultTool := ResultTool r; ResultStatus := ResultStatus r;
     InstalledVersion := v; Path := Path r;
     Output := Output r; Error := Error r |}.

Definition setPath (p : string) (r : Result) : Result :=
  {| ResultTool := ResultTool r; ResultStatus := ResultStatus r;
     InstalledVersion := InstalledVersion r; Path := p;
     Output := Output r; Error := Error r |}.

Definition setOutput (o : string) (r : Result) : Result :=
  {| ResultTool := ResultTool r; ResultStatus := ResultStatus r;
     InstalledVersion := InstalledVersion r; Path := Path r;
     Output := o; Error := Error r |}.

Definition setError (e : error) (r : Result) : Result :=
  {| ResultTool := ResultTool r; ResultStatus := ResultStatus r;
     InstalledVersion := InstalledVersion r; Path := Path r;
     Output := Output r; Error := e |}.

(** ** The platform

    What the package calls outside this repository.  A [World] is the state
    of the machine a check runs on (search path, installed programs, clock);
    [Run] is [exec.CommandContext(ctx, name, args...)] followed by
    [cmd.Run()] with both output streams in one buffer: it gives the buffer,
    the error of [Run] and the world afterwards.  Durations are in
    milliseconds. *)
Record Platform := {
  World : Type;
  Context_ : Type;
  Regexp : Type;
  Constraints : Type;
  SemVersion : Type;
  (** [context.WithTimeout(context.Background(), d)] *)
  WithTimeout : nat -> World -> Context_;
  (** [exec.LookPath]: the resolved path, or [None] for its error *)
  LookPath : string -> World -> option string;
  Run : Context_ -> string -> list string -> World ->
        (string * error) * World;
  (** [regexp.Compile]: the compiled expression or the error's text *)
  regexp_Compile : string -> Regexp + string;
  (** [Regexp.FindStringSubmatch] *)
  FindStringSubmatch : Regexp -> string -> list string;
  (** [semver.NewConstraint], [semver.NewVersion], [Constraints.Check] *)
  NewConstraint : string -> Constraints + string;
  NewVersion : string -> SemVersion + string;
  ConstraintsCheck : Constraints -> SemVersion -> bool;
  (** [strings.Map(unicode.ToLower, s)] *)
  unicodeLower : string -> string;
  (** the order in which [range] visits the entries of a map *)
  rangeOrder : gmap string Tool -> list (string * Tool);
  rangeOrder_perm : forall m, rangeOrder m ≡ₚ map_to_list m
}.

(** ** The checker (internal/checker/checker.go) *)

Import GoStrings.

Section Checker.

Context (P : Platform).

(** An [*exec.Cmd] as [exec.CommandContext] builds it. *)
Record Cmd := {
  cmdCtx : Context_ P;
  cmdName : string;
  cmdArgs : list string
}.

Definition CommandContext (ctx : Context_ P) (name : string)
    (args : list string) : Cmd :=
  {| cmdCtx := ctx; cmdName := name; cmdArgs := args |}.

(** The state a check runs in: the world, and the commands run so far (a
    record kept by the model; the code never reads it). *)
Record State := {
  world : World P;
  spawned : list Cmd
}.

Definition M (A : Type) : Type := State -> A * State.

Definition ret {A : Type} (a : A) : M A := fun st => (a, st).

Definition bind {A B : Type} (c : M A) (k : A -> M B) : M B :=
  fun st => let (a, st') := c st in k a st'.

Notation "'do' x <- c ; k" := (bind c (fun x => k))
  (at level 10, x name, c at level 100, k at level 200).
Notation "'do' ' pat <- c ; k" := (bind c (fun x => let 'pat := x in k))
  (at level 10, pat pattern, c at level 100, k at level 200).

(** [context.WithTimeout(context.Background(), d)] reads the clock. *)
Definition withTimeout (d : nat) : M (Context_ P) :=
  fun st => (WithTimeout P d (world st), st).

(** [cmd.Run()] with [cmd.Stdout] and [cmd.Stderr] set to one buffer,
    then [out.String()]. *)
Definition cmdRun (cmd : Cmd) : M (string * error) :=
  fun st =>
    let (r, w) := Run P (cmdCtx cmd) (cmdName cmd) (cmdArgs cmd) (world st) in
    (r, {| world := w; spawned := spawned st ++ [cmd] |}).

(** [runCommand] *)
Definition runCommand (cmd : Cmd) : M (string * error) :=
  do '(output, err) <- cmdRun cmd;
  match err with
  | Some e =>
      if negb (output =? "")%string then ret (output, Some e)
      else ret ("", Some e)
  | None => ret (output, None)
  end.

Definition rejectPatterns : list string :=
  [ "usage:"; "error:"; "flag provided"; "unknown flag"; "unknown command";
    "help"; "failed validation" ].

(** [looksLikeVersionOutput]; the loop over the runes of [firstLine] looks
    for one between '0' and '9', which is a byte of that value. *)
Definition looksLikeVersionOutput (output : string) : bool :=
  let lines := Split_lines output in
  match lines with
  | [] => false
  | line0 :: _ =>
      let firstLine := TrimSpace line0 in
      let lowerFirstLine := ToLower (unicodeLower P) firstLine in
      if (200 <? String.length firstLine)%nat then false
      else if existsb (fun pattern => Contains lowerFirstLine pattern)
                rejectPatterns then false
      else
        let hasDigit := anyByte Regex.digit firstLine in
        let hasVersionPattern := Contains firstLine "." && hasDigit in
        hasVersionPattern
  end.

(** The six argument lists of the smart guess, in the order of the source. *)
Definition commonVersionArgs : list (list string) :=
  [ ["--version"]; ["version"]; ["-v"]; ["-V"]; ["--version-short"];
    ["-version"] ].

(** The [for _, args := range commonVersionArgs] loop; [None] when it runs
    to its end. *)
Fixpoint smartGuess (ctx : Context_ P) (cli : string)
    (argSets : list (list string)) : M (option string) :=
  match argSets with
  | [] => ret None
  | args :: rest =>
      let cmd := CommandContext ctx cli args in
      do '(output, err) <- runCommand cmd;
      if negb (output =? "")%string && looksLikeVersionOutput output
      then ret (Some output)
      else smartGuess ctx cli rest
  end.

(** [executeVersionCommand] *)
Definition executeVersionCommand (tool : Tool) : M (string * error) :=
  do ctx <- withTimeout 5000;
  if negb (VersionArg tool =? "")%string then
    let args := Fields (VersionArg tool) in
    let cmd := CommandContext ctx (CLI tool) args in
    do '(output, err) <- runCommand cmd;
    match err with
    | Some e => ret ("", Some (CLI tool +:+ ": " +:+ e))
    | None => ret (output, None)
    end
  else
    do found <- smartGuess ctx (CLI tool) commonVersionArgs;
    match found with
    | Some output => ret (output, None)
    | None => ret ("", Some (CLI tool +:+ ": failed to get version"))
    end.

(** The default scan of [extractVersion]: the first line, trimmed and not
    empty, on which the version pattern matches. *)
Fixpoint scanLines (lines : list string) : string * error :=
  match lines with
  | [] => ("", Some "no version found in output")
  | line :: rest =>
      let line := TrimSpace line in
      if (line =? "")%string then scanLines rest
      else
        let match_ := Regex.FindString Regex.versionRe line in
        if negb (match_ =? "")%string then (match_, None)
        else scanLines rest
  end.

(** [extractVersion] *)
Definition extractVersion (output pattern : string) : string * error :=
  if negb (pattern =? "")%string then
    match regexp_Compile P pattern with
    | inr err => ("", Some ("invalid version pattern: " +:+ err))
    | inl re =>
        let matches := FindStringSubmatch P re output in
        if (1 <? length matches)%nat then (nth 1 matches "", None)
        else if (0 <? length matches)%nat then (nth 0 matches "", None)
        else ("", Some "pattern did not match")
    end
  else scanLines (Split_lines output).

(** [checkExistence] *)
Definition checkExistence (tool : Tool) (result : Result) : M Result :=
  fun st =>
    match LookPath P (CLI tool) (world st) with
    | None =>
        let result := setStatus StatusFail result in
        let result :=
          if Optional tool then setStatus StatusOptionalMissing result
          else result in
        let result :=
          setError (Some (CLI tool +:+ ": command not found")) result in
        (result, st)
    | Some path =>
        let result := setStatus StatusPass result in
        let result := setPath path result in
        (result, st)
    end.

(** [checkVersion] *)
Definition checkVersion (tool : Tool) (result : Result) : M Result :=
  do '(versionOutput, err) <- executeVersionCommand tool;
  match err with
  | Some e =>
      let result := setStatus StatusFail result in
      let result :=
        if Optional tool then setStatus StatusOptionalMissing result
        else result in
      ret (setError (Some e) result)
  | None =>
      let result := setOutput versionOutput result in
      match extractVersion versionOutput (VersionPattern tool) with
      | (_, Some e) =>
          let result := setStatus StatusFail result in
          ret (setError (Some ("failed to extract version: " +:+ e)) result)
      | (version, None) =>
          let result := setInstalledVersion version result in
          match NewConstraint P (Version tool) with
          | inr e =>
              let result := setStatus StatusFail result in
              ret (setError
                     (Some ("invalid version constraint '" +:+ Version tool
                            +:+ "': " +:+ e)) result)
          | inl constraint =>
              match NewVersion P version with
              | inr e =>
                  let result := setStatus StatusFail result in
                  ret (setError
                         (Some ("failed to parse installed version '"
                                +:+ version +:+ "': " +:+ e)) result)
              | inl installedVer =>
                  if ConstraintsCheck P constraint installedVer
                  then ret (setStatus StatusPass result)
                  else
                    let result := setStatus StatusFail result in
                    ret (if Optional tool
                         then setStatus StatusOptionalMissing result
                         else result)
              end
          end
      end
  end.

(** [Check] *)
Definition Check (tool : Tool) : M Result :=
  let result := newResult tool in
  if (Version tool =? "")%string then checkExistence tool result
  else checkVersion tool result.

(** The outcome [CheckAll] makes up for a requested name that the
    configuration does not have. *)
Definition notInConfiguration (name : string) : Result :=
  {| ResultTool :=
       {| Name := name; CLI := name; Version := ""; VersionArg := "";
          VersionPattern := ""; Optional := false; Message := "";
          Source := "" |};
     ResultStatus := StatusFail;
     InstalledVersion := ""; Path := ""; Output := "";
     Error := Some ("tool '" +:+ name +:+ "' not found in configuration") |}.

(** The loop of [CheckAll] over a non-empty filter. *)
Fixpoint checkFiltered (tools : gmap string Tool) (filter : list string)
    (results : list Result) : M (list Result) :=
  match filter with
  | [] => ret results
  | name :: rest =>
      match tools !! name with
      | None => checkFiltered tools rest (results ++ [notInConfiguration name])
      | Some tool =>
          do r <- Check tool;
          checkFiltered tools rest (results ++ [r])
      end
  end.

(** The loop of [CheckAll] over the whole map, in the order [range] visits
    it. *)
Fixpoint checkEach (entries : list (string * Tool))
    (results : list Result) : M (list Result) :=
  match entries with
  | [] => ret results
  | (_, tool) :: rest =>
      do r <- Check tool;
      checkEach rest (results ++ [r])
  end.

(** [CheckAll] *)
Definition CheckAll (tools : gmap string Tool) (filter : list string)
    : M (list Result) :=
  if (0 <? length filter)%nat then checkFiltered tools filter []
  else checkEach (rangeOrder P tools) [].

End Checker.

Arguments world {P} _.
Arguments spawned {P} _.
Arguments cmdCtx {P} _.
Arguments cmdName {P} _.
Arguments cmdArgs {P} _.
Arguments ret {P A} _ _.

(** ** Reference definitions

    Used in the statements only; nothing of the checker calls them. *)

Section Reference.

Context (P : Platform).

(** The acceptance test of the smart guess on one captured output. *)
Definition qualifies (output : string) : bool :=
  negb (output =? "")%string && looksLikeVersionOutput P output.

(** The commands of the argument sets run one after the other, none
    skipped, each with the text it captures. *)
Fixpoint attempts (ctx : Context_ P) (cli : string)
    (argSets : list (list string)) (w : World P) : list (Cmd P * string) :=
  match argSets with
  | [] => []
  | args :: rest =>
      let '((output, _), w') := Run P ctx cli args w in
      (CommandContext P ctx cli args, output) :: attempts ctx cli rest w'
  end.



(** What [checkVersion] answers, stage by stage. *)
Inductive VersionOutcome (tool : Tool) (st : State P) : Status -> Prop :=
  | ProbeFailed output e :
      (executeVersionCommand P tool st).1 = (output, Some e) ->
      VersionOutcome tool st
        (if Optional tool then StatusOptionalMissing else StatusFail)
  | ExtractionFailed output v e :
      (executeVersionCommand P tool st).1 = (output, None) ->
      extractVersion P output (VersionPattern tool) = (v, Some e) ->
      VersionOutcome tool st StatusFail
  | InvalidConstraint output version e :
      (executeVersionCommand P tool st).1 = (output, None) ->
      extractVersion P output (VersionPattern tool) = (version, None) ->
      NewConstraint P (Version tool) = inr e ->
      VersionOutcome tool st StatusFail
  | InvalidVersion output version constraint e :
      (executeVersionCommand P tool st).1 = (output, None) ->
      extractVersion P output (VersionPattern tool) = (version, None) ->
      NewConstraint P (Version tool) = inl constraint ->
      NewVersion P version = inr e ->
      VersionOutcome tool st StatusFail
  | Satisfied output version constraint installedVer :
      (executeVersionCommand P tool st).1 = (output, None) ->
      extractVersion P output (VersionPattern tool) = (version, None) ->
      NewConstraint P (Version tool) = inl constraint ->
      NewVersion P version = inl installedVer ->
      ConstraintsCheck P constraint installedVer = true ->
      VersionOutcome tool st StatusPass
  | NotSatisfied output version constraint installedVer :
      (executeVersionCommand P tool st).1 = (output, None) ->
      extractVersion P output (VersionPattern tool) = (version, None) ->
      NewConstraint P (Version tool) = inl constraint ->
      NewVersion P version = inl installedVer ->
      ConstraintsCheck P constraint installedVer = false ->
      VersionOutcome tool st
        (if Optional tool then StatusOptionalMissing else StatusFail).

(** The outcome of a single check names its descriptor, has one of the
    three statuses, and is OptionalMissing only for an optional one. *)
Definition wellFormed (r : Result) : Prop :=
  (ResultStatus r = StatusPass \/ ResultStatus r = StatusFail \/
   ResultStatus r = StatusOptionalMissing) /\
  (ResultStatus r = StatusOptionalMissing -> Optional (ResultTool r) = true).

(** What the loop over a filter appends for one requested name. *)
Definition requested (tools : gmap string Tool) (name : string)
    (r : Result) : Prop :=
  match tools !! name with
  | Some tool => exists st', r = (Check P tool st').1
  | None => r = notInConfiguration name
  end.

End Reference.

(** ** Reference definitions on text

    The words of the specification on strings, for the statements. *)

Module Text.

Import GoStrings.

Definition isSubstring (p s : string) : Prop :=
  exists a b, s = a +:+ p +:+ b.

Definition hasByte (c : ascii) (s : string) : Prop :=
  exists a b, s = a +:+ String c b.

(** [line] is the text of [output] before its first line break. *)
Definition isFirstLineOf (line output : string) : Prop :=
  ~ hasByte newline line /\
  (output = line \/ exists rest, output = line +:+ String newline rest).

Definition decimalDigits : list ascii :=
  [ "0"; "1"; "2"; "3"; "4"; "5"; "6"; "7"; "8"; "9" ]%char.

(** Equal up to the case of the ASCII letters. *)
Definition equalIgnoringCase (a b : string) : Prop :=
  mapBytes lowerASCII a = mapBytes lowerASCII b.

(** The lines put back together, a line break between two of them. *)
Fixpoint joinLines (lines : list string) : string :=
  match lines with
  | [] => ""
  | [line] => line
  | line :: rest => line +:+ String newline (joinLines rest)
  end.

Fixpoint takeWhile (f : ascii -> bool) (s : string) : string :=
  match s with
  | String a s' => if f a then String a (takeWhile f s') else ""
  | EmptyString => ""
  end.

Fixpoint dropWhile (f : ascii -> bool) (s : string) : string :=
  match s with
  | String a s' => if f a then dropWhile f s' else s
  | EmptyString => ""
  end.

(** One or more decimal digits. *)
Definition digits (d : string) : Prop :=
  d <> "" /\ allBytes Regex.digit d = true.

(** [X.Y] or [X.Y.Z]. *)
Definition versionShaped (m : string) : Prop :=
  exists x y,
    digits x /\ digits y /\
    (m = x +:+ String Regex.dot y \/
     exists z,
       digits z /\ m = x +:+ String Regex.dot (y +:+ String Regex.dot z)).

(** [m] is the part of [line] that starts at byte [i]. *)
Definition occursAt (i : nat) (m line : string) : Prop :=
  exists pre post, line = pre +:+ m +:+ post /\ String.length pre = i.

Definition hasVersion (line : string) : Prop :=
  exists i m, versionShaped m /\ occursAt i m line.

(** [m] is the first version-shaped part of [line]: none starts further
    left, and none that starts at the same byte is longer. *)
Definition firstVersionIn (line m : string) : Prop :=
  versionShaped m /\
  exists i,
    occursAt i m line /\
    forall j m', versionShaped m' -> occursAt j m' line ->
      i <= j /\ (j = i -> String.length m' <= String.length m).

(** What is left of a text after the version pattern matched at its head,
    computed without search; [Regex.matchK] is proved to agree with it. *)
Definition optionalThird (s3 : string) : string :=
  match s3 with
  | String b u =>
      if Ascii.eqb b Regex.dot then
        match takeWhile Regex.digit u with
        | EmptyString => s3
        | String _ _ => dropWhile Regex.digit u
        end
      else s3
  | EmptyString => s3
  end.

Definition versionRest (s : string) : option string :=
  match takeWhile Regex.digit s, dropWhile Regex.digit s with
  | String _ _, String b s2 =>
      if Ascii.eqb b Regex.dot then
        match takeWhile Regex.digit s2 with
        | EmptyString => None
        | String _ _ =>
            Some (optionalThird (dropWhile Regex.digit s2))
        end
      else None
  | _, _ => None
  end.

(** The raw text of the extraction scenario of the specification. *)
Definition sampleOutput : string :=
  "Tool Name" +:+
  String newline ("Version 1.2.3" +:+ String newline "More info").

End Text.

(** ** A simulated platform

    A test double for the platform, with a clock: every program has a
    running time, a context is its deadline, and a command run under a
    context is killed when the deadline passes, as [exec.CommandContext]
    does.  [Run] copies the output of the process through a pipe and, no
    [WaitDelay] being set, returns when the pipe is closed: a killed
    process whose children keep the pipe open holds [Run] back past the
    deadline.  The regexp and semver stand-ins cover literal patterns and
    single-comparator constraints over dotted numbers. *)

Module Sim.

Record Behaviour := {
  duration : nat;               (* time to exit by itself *)
  printed : string;             (* combined output at exit *)
  exitError : error;            (* nil on exit status 0 *)
  printedWhenKilled : string;   (* combined output if killed before exit *)
  lingers : nat                 (* time the pipe stays open after a kill *)
}.

Record SimWorld := {
  clock : nat;
  searchPath : string -> option string;
  program : string -> list string -> option Behaviour
}.

Definition tick (t : nat) (w : SimWorld) : SimWorld :=
  {| clock := t; searchPath := searchPath w; program := program w |}.

(** A context that is done makes [Run] fail before the process starts; a
    process still running at the deadline is killed there, and [Run]
    returns once the pipe is closed. *)
Definition simRun (deadline : nat) (name : string) (args : list string)
    (w : SimWorld) : (string * error) * SimWorld :=
  match program w name args with
  | None => (("", Some "executable file not found in $PATH"), w)
  | Some b =>
      if (deadline <=? clock w)%nat then
        (("", Some "context deadline exceeded"), w)
      else if (clock w + duration b <=? deadline)%nat then
        ((printed b, exitError b), tick (clock w + duration b) w)
      else
        ((printedWhenKilled b, Some "signal: killed"),
         tick (deadline + lingers b) w)
  end.

(** Dotted decimal numbers: ["1.20.3"] is [[1; 20; 3]]. *)
Fixpoint parseDotted (s : string) (cur : option nat) : option (list nat) :=
  match s with
  | EmptyString =>
      match cur with
      | Some n => Some [n]
      | None => None
      end
  | String c s' =>
      if Regex.digit c then
        parseDotted s'
          (Some (10 * default 0 cur + (nat_of_ascii c - 48)))
      else if Ascii.eqb c Regex.dot then
        match cur, parseDotted s' None with
        | Some n, Some l => Some (n :: l)
        | _, _ => None
        end
      else None
  end.

Definition simVersion : Type := nat * nat * nat.

Definition simNewVersion (v : string) : simVersion + string :=
  match parseDotted v None with
  | Some [a] => inl (a, 0, 0)
  | Some [a; b] => inl (a, b, 0)
  | Some [a; b; c] => inl (a, b, c)
  | _ => inr "Invalid Semantic Version"
  end.

Definition versionLeb (x y : simVersion) : bool :=
  let '(a, b, c) := x in
  let '(a', b', c') := y in
  ((a <? a') || ((a =? a') && ((b <? b') || ((b =? b') && (c <=? c')))))%nat.

Inductive comparator := GreaterEq | Less | Equal.

Definition simConstraints : Type := comparator * simVersion.

Definition simNewConstraint (c : string) : simConstraints + string :=
  let parsed op rest :=
    match simNewVersion rest with
    | inl v => inl (op, v)
    | inr _ => inr "improper constraint"
    end in
  if HasPrefix c ">=" then parsed GreaterEq (drop 2 c)
  else if HasPrefix c "<" then parsed Less (drop 1 c)
  else if HasPrefix c "=" then parsed Equal (drop 1 c)
  else inr "improper constraint".

Definition simCheck (c : simConstraints) (v : simVersion) : bool :=
  match c with
  | (GreaterEq, bound) => versionLeb bound v
  | (Less, bound) => negb (versionLeb bound v)
  | (Equal, bound) => versionLeb bound v && versionLeb v bound
  end.

(** Patterns are literal text; one with an unclosed parenthesis does not
    compile. *)
Definition simCompile (pattern : string) : string + string :=
  if Contains pattern "(" && negb (Contains pattern ")")
  then inr "missing closing )"
  else inl pattern.

Definition simFindStringSubmatch (re : string) (s : string) : list string :=
  if Contains s re then [re] else [].

Definition platform : Platform :=
  {| World := SimWorld;
     Context_ := nat;
     Regexp := string;
     Constraints := simConstraints;
     SemVersion := simVersion;
     WithTimeout := fun d w => clock w + d;
     LookPath := fun name w => searchPath w name;
     Run := simRun;
     regexp_Compile := simCompile;
     FindStringSubmatch := simFindStringSubmatch;
     NewConstraint := simNewConstraint;
     NewVersion := simNewVersion;
     ConstraintsCheck := simCheck;
     unicodeLower := fun s => s;
     rangeOrder := map_to_list;
     rangeOrder_perm := fun m => reflexivity (map_to_list m) |}.

(** A machine with four programs: [go] answers [go version] after 30 ms;
    [kubeconform -v] prints its version and exits with status 1;
    [slowtool --version] takes 9 s to answer, [slowtool version] does after
    100 ms; [wrapper --version] takes 9 s as well and leaves a child that
    keeps the pipe open for 3 s after the kill. *)
Definition answers (out : string) (ms : nat) : Behaviour :=
  {| duration := ms; printed := out; exitError := None;
     printedWhenKilled := ""; lingers := 0 |}.

Definition complains (out : string) : Behaviour :=
  {| duration := 10; printed := out; exitError := Some "exit status 1";
     printedWhenKilled := ""; lingers := 0 |}.

Definition hangs (pipe : nat) : Behaviour :=
  {| duration := 5000 + 4000; printed := ""; exitError := None;
     printedWhenKilled := ""; lingers := pipe |}.

Definition machinePrograms (name : string) (args : list string)
    : option Behaviour :=
  if (name =? "go")%string then
    if bool_decide (args = ["version"])
    then Some (answers "go version go1.20.0 darwin/amd64" 30)
    else Some (complains "flag provided but not defined")
  else if (name =? "kubeconform")%string then
    if bool_decide (args = ["-v"]) then Some (complains "v0.6.1")
    else Some (complains "unknown flag")
  else if (name =? "slowtool")%string then
    if bool_decide (args = ["--version"]) then Some (hangs 0)
    else if bool_decide (args = ["version"])
    then Some (answers "slowtool 1.2.3" 100)
    else Some (complains "unknown command")
  else if (name =? "wrapper")%string then
    if bool_decide (args = ["--version"]) then Some (hangs 3000)
    else Some (answers "wrapper 2.0.1" 50)
  else None.

Definition machinePath (name : string) : option string :=
  if (name =? "go")%string then Some "/usr/local/go/bin/go"
  else if (name =? "kubeconform")%string then Some "/usr/bin/kubeconform"
  else if (name =? "slowtool")%string then Some "/usr/bin/slowtool"
  else if (name =? "wrapper")%string then Some "/usr/bin/wrapper"
  else None.

Definition machine : SimWorld :=
  {| clock := 0; searchPath := machinePath; program := machinePrograms |}.

Definition start : State platform :=
  @Build_State platform machine [].

Definition tool (cli version versionArg : string) (optional : bool) : Tool :=
  {| Name := cli; CLI := cli; Version := version; VersionArg := versionArg;
     VersionPattern := ""; Optional := optional; Message := "";
     Source := "config" |}.

Definition goTool : Tool := tool "go" ">=1.18" "" false.
Definition kubeconformTool : Tool := tool "kubeconform" ">=0.1" "-v" false.
Definition slowTool : Tool := tool "slowtool" ">=0.1" "" true.
Definition wrapperTool : Tool := tool "wrapper" ">=2.0" "" false.
Definition absentTool : Tool := tool "nope" "" "" true.

End Sim.

(** ** Reference definitions on outcomes

    Used in the statements only. *)

Section OutcomeReference.

Context (P : Platform).

(** A passing outcome carries no failure reason. *)
Definition passHasNoError (r : Result) : Prop :=
  ResultStatus r = StatusPass -> Error r = None.

(** [cmd] runs the program of a configured descriptor that has a version
    constraint and that the filter lets through. *)
Definition configuredCommand (tools : gmap string Tool)
    (filter : list string) (cmd : Cmd P) : Prop :=
  exists key tool,
    tools !! key = Some tool /\
    (filter = [] \/ In key filter) /\
    Version tool <> "" /\
    cmdName cmd = CLI tool.

(** The status lets the run end with exit status 0. *)
Definition harmless (r : Result) : Prop :=
  ResultStatus r = StatusPass \/
  (ResultStatus r = StatusOptionalMissing /\ Optional (ResultTool r) = true).

End OutcomeReference.

(** ** The report (internal/output) *)

(** [type Format string] and its three constants. *)
Definition Format : Type := string.
Definition FormatPretty : Format := "pretty".
Definition FormatQuiet : Format := "quiet".
Definition FormatJSON : Format := "json".

(** The four [color.New(...).SprintFunc()] of the package; what they add
    to a text depends on the terminal. *)
Record Palette := {
  green : string -> string;
  red : string -> string;
  yellow : string -> string;
  cyan : string -> string
}.

(** The marks of the three statuses, in UTF-8: U+2705, U+274C, and U+26A0
    U+FE0F followed by a space. *)
Definition markPass : string := bytes [226; 156; 133].
Definition markFail : string := bytes [226; 157; 140].
Definition markOptional : string := bytes [226; 154; 160; 239; 184; 143; 32].

(** [strconv.Itoa] of a count. *)
Definition Itoa (n : nat) : string := NilZero.string_of_uint (Nat.to_uint n).

(** The three counters of [printPretty] and of [printJSON]. *)
Record Counters := {
  passed : nat;
  failed : nat;
  optionalMissing : nat
}.

(** The [switch result.Status] that counts, the same in both functions. *)
Definition countStatus (status : Status) (c : Counters) : Counters :=
  if (status =? StatusPass)%string then
    {| passed := S (passed c); failed := failed c;
       optionalMissing := optionalMissing c |}
  else if (status =? StatusFail)%string then
    {| passed := passed c; failed := S (failed c);
       optionalMissing := optionalMissing c |}
  else if (status =? StatusOptionalMissing)%string then
    {| passed := passed c; failed := failed c;
       optionalMissing := S (optionalMissing c) |}
  else c.

(** The counters after the loop of either function over [results]. *)
Definition countAll (results : list Result) (c : Counters) : Counters :=
  fold_left (fun c r => countStatus (ResultStatus r) c) results c.

(** The lines [printPretty] writes for one outcome; every [Printf] of the
    loop body ends its line. *)
Definition prettyResult (pal : Palette) (result : Result) : list string :=
  let tool := ResultTool result in
  (if (ResultStatus result =? StatusPass)%string
   then [green pal markPass +:+ " " +:+ Name tool]
   else if (ResultStatus result =? StatusFail)%string
   then [red pal markFail +:+ " " +:+ Name tool]
   else if (ResultStatus result =? StatusOptionalMissing)%string
   then [yellow pal markOptional +:+ " " +:+ Name tool +:+ " (optional)"]
   else []) ++
  (if negb (Version tool =? "")%string then
     (if negb (Output result =? "")%string then
        let versionArg :=
          if (VersionArg tool =? "")%string then "version"
          else VersionArg tool in
        let firstLine := nth 0 (Split_lines (Output result)) "" in
        [ "   $ " +:+ CLI tool +:+ " " +:+ versionArg;
          "   " +:+ firstLine ]
      else []) ++
     match Error result with
     | Some e => [ "   " +:+ red pal "Error:" +:+ " " +:+ e ]
     | None => []
     end ++
     (if negb (Version tool =? "")%string
      then [ "   Required: " +:+ Version tool ] else []) ++
     (if negb (InstalledVersion result =? "")%string then
        if (ResultStatus result =? StatusPass)%string
        then [ "   Installed: " +:+ green pal (InstalledVersion result) ]
        else [ "   Installed: " +:+ red pal (InstalledVersion result) ]
      else [])
   else
     if negb (Path result =? "")%string
     then [ "   Found at: " +:+ cyan pal (Path result) ]
     else match Error result with
          | Some e => [ "   " +:+ red pal "Error:" +:+ " " +:+ e ]
          | None => []
          end) ++
  (if negb (Message tool =? "")%string &&
      negb (ResultStatus result =? StatusPass)%string
   then [ "   " +:+ cyan pal "Message:" +:+ " " +:+ Message tool ]
   else []) ++
  [ "" ].

(** The loop of [printPretty]: the counters and the lines written. *)
Fixpoint prettyLoop (pal : Palette) (results : list Result) (c : Counters)
    (lines : list string) : Counters * list string :=
  match results with
  | [] => (c, lines)
  | result :: rest =>
      prettyLoop pal rest (countStatus (ResultStatus result) c)
        (lines ++ prettyResult pal result)
  end.

(** The summary line of [printPretty]. *)
Definition prettySummary (pal : Palette) (c : Counters) : string :=
  "Summary: " +:+ green pal (Itoa (passed c)) +:+ " passed, " +:+
  red pal (Itoa (failed c)) +:+ " failed" +:+
  (if (0 <? optionalMissing c)%nat
   then ", " +:+ yellow pal (Itoa (optionalMissing c)) +:+ " optional missing"
   else "").

(** [printPretty]: the lines written to the standard output. *)
Definition printPretty (pal : Palette) (results : list Result)
    : list string :=
  let '(c, lines) :=
    prettyLoop pal results
      {| passed := 0; failed := 0; optionalMissing := 0 |}
      [ "Checking CLI Tools..."; "" ] in
  lines ++ [ prettySummary pal c ].

(** The lines [printQuiet] writes for one outcome. *)
Definition quietResult (pal : Palette) (result : Result) : list string :=
  if (ResultStatus result =? StatusPass)%string then []
  else
    let tool := ResultTool result in
    (if (ResultStatus result =? StatusFail)%string
     then [red pal markFail +:+ " " +:+ Name tool]
     else if (ResultStatus result =? StatusOptionalMissing)%string
     then [yellow pal markOptional +:+ " " +:+ Name tool +:+ " (optional)"]
     else []) ++
    match Error result with
    | Some e => [ "   " +:+ red pal "Error:" +:+ " " +:+ e ]
    | None => []
    end ++
    (if negb (Version tool =? "")%string
     then [ "   Required: " +:+ Version tool ] else []) ++
    [ "" ].

(** [printQuiet] *)
Fixpoint printQuiet (pal : Palette) (results : list Result) : list string :=
  match results with
  | [] => []
  | result :: rest => quietResult pal result ++ printQuiet pal rest
  end.

(** The [JSONTool] of [printJSON]. *)
Record JSONTool := {
  jsonName : string;
  jsonCLI : string;
  jsonRequired : bool;
  jsonStatus : string;
  jsonVersionRequired : string;
  jsonVersionInstalled : string;
  jsonCommand : string;
  jsonOutput : string;
  jsonPath : string;
  jsonError : string;
  jsonMessage : string
}.

Record JSONSummary := {
  Total : nat;
  Passed : nat;
  Failed : nat;
  OptionalMissing : nat
}.

Record JSONOutput := {
  JSONTools : list JSONTool;
  Summary : JSONSummary
}.

(** The entry [printJSON] builds for one outcome. *)
Definition jsonTool (result : Result) : JSONTool :=
  let tool := ResultTool result in
  let withCommand :=
    negb (Output result =? "")%string && negb (VersionArg tool =? "")%string in
  {| jsonName := Name tool;
     jsonCLI := CLI tool;
     jsonRequired := negb (Optional tool);
     jsonStatus := ResultStatus result;
     jsonVersionRequired := Version tool;
     jsonVersionInstalled := InstalledVersion result;
     jsonCommand :=
       if withCommand then CLI tool +:+ " " +:+ VersionArg tool else "";
     jsonOutput := if withCommand then Output result else "";
     jsonPath := Path result;
     jsonError := match Error result with Some e => e | None => "" end;
     jsonMessage := Message tool |}.

(** The loop of [printJSON]. *)
Fixpoint jsonLoop (results : list Result) (c : Counters)
    (tools : list JSONTool) : Counters * list JSONTool :=
  match results with
  | [] => (c, tools)
  | result :: rest =>
      jsonLoop rest (countStatus (ResultStatus result) c)
        (tools ++ [jsonTool result])
  end.

(** [printJSON]: the value handed to the encoder. *)
Definition printJSON (results : list Result) : JSONOutput :=
  let '(c, tools) :=
    jsonLoop results {| passed := 0; failed := 0; optionalMissing := 0 |} []
  in
  {| JSONTools := tools;
     Summary := {| Total := length results; Passed := passed c;
                   Failed := failed c;
                   OptionalMissing := optionalMissing c |} |}.

(** What a report writes: lines of text, or one JSON value. *)
Inductive Report :=
  | TextReport (lines : list string)
  | JSONReport (value : JSONOutput).

(** [Print] *)
Definition Print (pal : Palette) (results : list Result) (format : Format)
    : Report :=
  if (format =? FormatJSON)%string then JSONReport (printJSON results)
  else if (format =? FormatQuiet)%string
  then TextReport (printQuiet pal results)
  else if (format =? FormatPretty)%string
  then TextReport (printPretty pal results)
  else TextReport (printPretty pal results).

(** [ShouldExitWithError] *)
Fixpoint ShouldExitWithError (results : list Result) : bool :=
  match results with
  | [] => false
  | result :: rest =>
      if (ResultStatus result =? StatusFail)%string then true
      else ShouldExitWithError rest
  end.

(** ** The known tools (internal/config/tool_mappings.go) *)

Record ToolMapping := {
  MappingCLI : string;
  MappingVersionArg : string
}.

Definition mapping (cli versionArg : string) : ToolMapping :=
  {| MappingCLI := cli; MappingVersionArg := versionArg |}.

Definition knownToolList : list (string * ToolMapping) :=
  [ ("nodejs", mapping "node" "--version");
    ("golang", mapping "go" "version");
    ("awscli", mapping "aws" "--version");
    ("golangci-lint", mapping "golangci-lint" "version");
    ("just", mapping "just" "--version");
    ("pnpm", mapping "pnpm" "--version");
    ("tilt", mapping "tilt" "version");
    ("python", mapping "python" "--version");
    ("poetry", mapping "poetry" "--version");
    ("helm", mapping "helm" "version");
    ("kustomize", mapping "kustomize" "version");
    ("mockery", mapping "mockery" "version");
    ("kubeconform", mapping "kubeconform" "version") ].

Definition knownToolMappings : gmap string ToolMapping :=
  list_to_map knownToolList.

(** [resolveToolMapping] *)
Definition resolveToolMapping (name : string) : string * string * bool :=
  match knownToolMappings !! name with
  | Some m => (MappingCLI m, MappingVersionArg m, true)
  | None => (name, "", false)
  end.

(** [formatUnknownToolWarning] *)
Definition formatUnknownToolWarning (name source : string) : string :=
  "Warning: Unknown tool '" +:+ name +:+ "' from " +:+ source +:+
  ". Using '" +:+ name +:+ "' as CLI command. " +:+
  "If this is incorrect, define it explicitly in .chex.toml".

(** ** The configuration (internal/config/types.go, parser.go) *)

(** [config.Source] *)
Record ConfigSource := {
  SourcePath : string;
  SourceType : string
}.

(** [config.ChexConfig] *)
Record ChexConfig := {
  Sources : list ConfigSource;
  FailOnUnknownTools : bool;
  SkipUnknownTools : bool;
  WarnOnUnknownTools : bool
}.

(** [config.ToolConfig] *)
Record ToolConfig := {
  cfgName : string;
  cfgCLI : string;
  cfgVersion : string;
  cfgVersionArg : string;
  cfgVersionPattern : string;
  cfgOptional : bool;
  cfgMessage : string
}.

(** [config.Config]; [Chex] is [None] for the nil pointer. *)
Record Config := {
  Chex : option ChexConfig;
  ConfigTools : gmap string ToolConfig
}.

(** [config.LoadResult] *)
Record LoadResult := {
  LoadedTools : gmap string Tool;
  Warnings : list string
}.

(** A decoded TOML value, as far as the package looks into one: a string,
    a table ([map[string]any]) or anything else. *)
#[warnings="-register-all"] Inductive TomlValue :=
  | TomlString (s : string)
  | TomlTable (fields : string -> option TomlValue)
  | TomlOther.

(** What the package reads from outside: files, the TOML library, path
    handling and the order of [range] over its maps.  A function that can
    fail gives the error's text on the right. *)
Record FileSystem := {
  (** [os.ReadFile] *)
  ReadFile : string -> string + string;
  (** [toml.Unmarshal(data, &raw)] into a [map[string]any] *)
  UnmarshalRaw : string -> gmap string TomlValue + string;
  (** [decodeInto(value, &chexCfg)] and [decodeInto(value, &toolCfg)] *)
  decodeChex : TomlValue -> ChexConfig + string;
  decodeTool : TomlValue -> ToolConfig + string;
  (** [toml.Unmarshal(data, &miseCfg)]: the [tools] table *)
  UnmarshalMise : string -> gmap string TomlValue + string;
  (** [os.Open] then a [bufio.Scanner] run to its end: the texts of
      [scanner.Text()] and [scanner.Err()]; [None] when [os.Open] fails *)
  ScanFile : string -> option (list string * error);
  (** [os.Stat] gives no error *)
  Stat : string -> bool;
  IsAbs : string -> bool;
  Join : string -> string -> string;
  rangeRaw : gmap string TomlValue -> list (string * TomlValue);
  rangeRaw_perm : forall m, rangeRaw m ≡ₚ map_to_list m;
  rangeConfigs : gmap string ToolConfig -> list (string * ToolConfig);
  rangeConfigs_perm : forall m, rangeConfigs m ≡ₚ map_to_list m
}.

(** [configToTool] *)
Definition configToTool (name : string) (cfg : ToolConfig) (source : string)
    : Tool :=
  let displayName :=
    if negb (cfgName cfg =? "")%string then cfgName cfg else name in
  let versionArg := cfgVersionArg cfg in
  {| Name := displayName;
     CLI := cfgCLI cfg;
     Version := cfgVersion cfg;
     VersionArg := versionArg;
     VersionPattern := cfgVersionPattern cfg;
     Optional := cfgOptional cfg;
     Message := cfgMessage cfg;
     Source := source |}.

(** [extractMiseVersion] *)
Definition extractMiseVersion (value : TomlValue) : string :=
  match value with
  | TomlString v => v
  | TomlTable v =>
      match v "version" with
      | Some (TomlString ver) => ver
      | _ => ""
      end
  | TomlOther => ""
  end.

(** The tool the loaders of [mise.toml] and [.tool-versions] build. *)
Definition externalTool (name cli version versionArg source : string)
    : Tool :=
  {| Name := name; CLI := cli; Version := version; VersionArg := versionArg;
     VersionPattern := ""; Optional := false; Message := "";
     Source := source |}.

(** What the two loaders do with a name and a version they have read: the
    same statements in both, up to the file name [label] in the messages
    and the [source] of the tool. *)
Definition mergeExternal (label source : string)
    (failOnUnknown skipUnknown warnOnUnknown : bool)
    (name version : string)
    (acc : gmap string Tool * list string)
    : gmap string Tool * list string :=
  let '(tools, warnings) := acc in
  match tools !! name with
  | Some _ => acc
  | None =>
      let '(cli, versionArg, known) := resolveToolMapping name in
      let tool := externalTool name cli version versionArg source in
      if negb known then
        if skipUnknown then acc
        else if failOnUnknown then
          (tools,
           warnings ++
           [ "Error: Unknown tool '" +:+ name +:+ "' in " +:+ label ])
        else if warnOnUnknown then
          (<[name := tool]> tools,
           warnings ++ [ formatUnknownToolWarning name label ])
        else (<[name := tool]> tools, warnings)
      else (<[name := tool]> tools, warnings)
  end.

Section ConfigLoader.

Context (F : FileSystem).

(** The loop of [Load] over the sections of the file. *)
Fixpoint loadSections (sections : list (string * TomlValue)) (cfg : Config)
    : Config + string :=
  match sections with
  | [] => inl cfg
  | (name, value) :: rest =>
      if (name =? "chex")%string then
        match decodeChex F value with
        | inr e => inr ("failed to parse [chex] section: " +:+ e)
        | inl chexCfg =>
            loadSections rest
              {| Chex := Some chexCfg; ConfigTools := ConfigTools cfg |}
        end
      else
        match decodeTool F value with
        | inr e =>
            inr ("failed to parse [" +:+ name +:+ "] section: " +:+ e)
        | inl toolCfg =>
            loadSections rest
              {| Chex := Chex cfg;
                 ConfigTools := <[name := toolCfg]> (ConfigTools cfg) |}
        end
  end.

(** [Load] *)
Definition Load (path : string) : Config + string :=
  let path := if (path =? "")%string then ".chex.toml" else path in
  match ReadFile F path with
  | inr e => inr ("failed to read config file: " +:+ e)
  | inl data =>
      match UnmarshalRaw F data with
      | inr e => inr ("failed to parse config file: " +:+ e)
      | inl raw =>
          loadSections (rangeRaw F raw) {| Chex := None; ConfigTools := ∅ |}
      end
  end.

(** The loop of [loadChexSource]. *)
Fixpoint chexEntries (path : string) (entries : list (string * ToolConfig))
    (tools : gmap string Tool) : gmap string Tool :=
  match entries with
  | [] => tools
  | (name, toolCfg) :: rest =>
      match tools !! name with
      | Some _ => chexEntries path rest tools
      | None =>
          chexEntries path rest
            (<[name := configToTool name toolCfg ("chex:" +:+ path)]> tools)
      end
  end.

(** [loadChexSource]: the map afterwards and the error returned. *)
Definition loadChexSource (path : string) (tools : gmap string Tool)
    : gmap string Tool * error :=
  match Load path with
  | inr e => (tools, Some e)
  | inl cfg => (chexEntries path (rangeConfigs F (ConfigTools cfg)) tools, None)
  end.

(** The loop of [loadMiseSource]. *)
Fixpoint miseEntries (path : string)
    (failOnUnknown skipUnknown warnOnUnknown : bool)
    (entries : list (string * TomlValue))
    (acc : gmap string Tool * list string)
    : gmap string Tool * list string :=
  match entries with
  | [] => acc
  | (name, value) :: rest =>
      miseEntries path failOnUnknown skipUnknown warnOnUnknown rest
        (mergeExternal "mise.toml" ("mise:" +:+ path)
           failOnUnknown skipUnknown warnOnUnknown
           name (extractMiseVersion value) acc)
  end.

(** [loadMiseSource]: the map afterwards and the warnings returned. *)
Definition loadMiseSource (path : string) (tools : gmap string Tool)
    (failOnUnknown skipUnknown warnOnUnknown : bool)
    : gmap string Tool * list string :=
  match ReadFile F path with
  | inr _ => (tools, [])
  | inl data =>
      match UnmarshalMise F data with
      | inr e => (tools, [ "Error parsing mise.toml: " +:+ e ])
      | inl miseTools =>
          miseEntries path failOnUnknown skipUnknown warnOnUnknown
            (rangeRaw F miseTools) (tools, [])
      end
  end.

(** The body of the scanner loop of [loadToolVersionsSource] for one text
    of the scanner. *)
Definition toolVersionsLine (path : string)
    (failOnUnknown skipUnknown warnOnUnknown : bool)
    (text : string) (acc : gmap string Tool * list string)
    : gmap string Tool * list string :=
  let line := TrimSpace text in
  if (line =? "")%string || HasPrefix line "#" then acc
  else
    let parts := Fields line in
    if (length parts <? 2)%nat then acc
    else
      let name := nth 0 parts "" in
      let version := nth 1 parts "" in
      mergeExternal ".tool-versions" ("tool-versions:" +:+ path)
        failOnUnknown skipUnknown warnOnUnknown name version acc.

Fixpoint toolVersionsLines (path : string)
    (failOnUnknown skipUnknown warnOnUnknown : bool)
    (texts : list string) (acc : gmap string Tool * list string)
    : gmap string Tool * list string :=
  match texts with
  | [] => acc
  | text :: rest =>
      toolVersionsLines path failOnUnknown skipUnknown warnOnUnknown rest
        (toolVersionsLine path failOnUnknown skipUnknown warnOnUnknown
           text acc)
  end.

(** [loadToolVersionsSource] *)
Definition loadToolVersionsSource (path : string) (tools : gmap string Tool)
    (failOnUnknown skipUnknown warnOnUnknown : bool)
    : gmap string Tool * list string :=
  match ScanFile F path with
  | None => (tools, [])
  | Some (texts, err) =>
      let '(tools, warnings) :=
        toolVersionsLines path failOnUnknown skipUnknown warnOnUnknown
          texts (tools, []) in
      match err with
      | Some e =>
          (tools, warnings ++ [ "Error reading .tool-versions: " +:+ e ])
      | None => (tools, warnings)
      end
  end.

(** [loadSource] *)
Definition loadSource (path sourceType : string) (tools : gmap string Tool)
    (failOnUnknown skipUnknown warnOnUnknown : bool)
    : gmap string Tool * list string :=
  if (sourceType =? "chex")%string then ((loadChexSource path tools).1, [])
  else if (sourceType =? "mise")%string then
    loadMiseSource path tools failOnUnknown skipUnknown warnOnUnknown
  else if (sourceType =? "tool-versions")%string then
    loadToolVersionsSource path tools failOnUnknown skipUnknown warnOnUnknown
  else (tools, [ "Error: unknown source type: " +:+ sourceType ]).

(** The first loop of [LoadAndMerge], over the tools of the main file. *)
Fixpoint convertTools (entries : list (string * ToolConfig))
    (tools : gmap string Tool) : gmap string Tool :=
  match entries with
  | [] => tools
  | (name, toolCfg) :: rest =>
      convertTools rest (<[name := configToTool name toolCfg "config"]> tools)
  end.

(** The loop of [LoadAndMerge] over the explicit sources. *)
Fixpoint explicitSources (rootDir : string)
    (failOnUnknown skipUnknown warnOnUnknown : bool)
    (sources : list ConfigSource) (result : LoadResult) : LoadResult :=
  match sources with
  | [] => result
  | source :: rest =>
      let sourcePath :=
        if negb (IsAbs F (SourcePath source))
        then Join F rootDir (SourcePath source)
        else SourcePath source in
      let '(tools, warnings) :=
        loadSource sourcePath (SourceType source) (LoadedTools result)
          failOnUnknown skipUnknown warnOnUnknown in
      explicitSources rootDir failOnUnknown skipUnknown warnOnUnknown rest
        {| LoadedTools := tools; Warnings := Warnings result ++ warnings |}
  end.

(** The other branch: [mise.toml] and [.tool-versions] under [rootDir],
    when they exist. *)
Definition detectedSources (rootDir : string)
    (failOnUnknown skipUnknown warnOnUnknown : bool)
    (result : LoadResult) : LoadResult :=
  let misePath := Join F rootDir "mise.toml" in
  let result :=
    if Stat F misePath then
      let '(tools, warnings) :=
        loadSource misePath "mise" (LoadedTools result)
          failOnUnknown skipUnknown warnOnUnknown in
      {| LoadedTools := tools; Warnings := Warnings result ++ warnings |}
    else result in
  let toolVersionsPath := Join F rootDir ".tool-versions" in
  if Stat F toolVersionsPath then
    let '(tools, warnings) :=
      loadSource toolVersionsPath "tool-versions" (LoadedTools result)
        failOnUnknown skipUnknown warnOnUnknown in
    {| LoadedTools := tools; Warnings := Warnings result ++ warnings |}
  else result.

(** [LoadAndMerge] *)
Definition LoadAndMerge (path rootDir : string) : LoadResult + string :=
  let path := if (path =? "")%string then ".chex.toml" else path in
  let rootDir := if (rootDir =? "")%string then "." else rootDir in
  let configPath :=
    if negb (IsAbs F path) then Join F rootDir path else path in
  match Load configPath with
  | inr e => inr e
  | inl cfg =>
      let result :=
        {| LoadedTools := convertTools (rangeConfigs F (ConfigTools cfg)) ∅;
           Warnings := [] |} in
      let failOnUnknown :=
        match Chex cfg with Some c => FailOnUnknownTools c | None => false end
      in
      let skipUnknown :=
        match Chex cfg with Some c => SkipUnknownTools c | None => false end
      in
      let warnOnUnknown :=
        match Chex cfg with Some c => WarnOnUnknownTools c | None => true end
      in
      match Chex cfg with
      | Some c =>
          if (0 <? length (Sources c))%nat then
            inl (explicitSources rootDir failOnUnknown skipUnknown
                   warnOnUnknown (Sources c) result)
          else
            inl (detectedSources rootDir failOnUnknown skipUnknown
                   warnOnUnknown result)
      | None =>
          inl (detectedSources rootDir failOnUnknown skipUnknown
                 warnOnUnknown result)
      end
  end.

End ConfigLoader.

(** ** Reference definitions on the configuration

    Used in the statements only; the loaders do not call them. *)

(** The loaders add an unread name when it is known, or when the file
    asks neither to skip nor to fail on unknown tools. *)
Definition admits (failOnUnknown skipUnknown : bool) (name : string) : bool :=
  (resolveToolMapping name).2 || negb skipUnknown && negb failOnUnknown.

(** The tools made from the names and versions [read] in a source. *)
Definition externalTools (source : string) (failOnUnknown skipUnknown : bool)
    (read : gmap string string) : gmap string Tool :=
  map_imap
    (fun name version =>
       if admits failOnUnknown skipUnknown name
       then Some (externalTool name (resolveToolMapping name).1.1 version
                    (resolveToolMapping name).1.2 source)
       else None)
    read.

(** The name and the version a text of [.tool-versions] gives, if any. *)
Definition toolVersionsEntry (text : string) : option (string * string) :=
  let line := TrimSpace text in
  if (line =? "")%string || HasPrefix line "#" then None
  else
    let parts := Fields line in
    if (length parts <? 2)%nat then None
    else Some (nth 0 parts "", nth 1 parts "").

(** The loop of either loader, over the names and versions read. *)
Definition mergeAll (label source : string)
    (failOnUnknown skipUnknown warnOnUnknown : bool)
    (entries : list (string * string))
    (acc : gmap string Tool * list string)
    : gmap string Tool * list string :=
  fold_left
    (fun acc entry =>
       mergeExternal label source failOnUnknown skipUnknown warnOnUnknown
         entry.1 entry.2 acc)
    entries acc.

(** A message about the unknown tool [name] of a source, with what the
    flags and the tools afterwards must be for it. *)
Definition unknownToolMessage (label : string)
    (failOnUnknown skipUnknown warnOnUnknown : bool)
    (before after : gmap string Tool) (message : string) : Prop :=
  exists name,
    (resolveToolMapping name).2 = false /\
    before !! name = None /\
    skipUnknown = false /\
    ((message = "Error: Unknown tool '" +:+ name +:+ "' in " +:+ label /\
      failOnUnknown = true /\ after !! name = None) \/
     (message = formatUnknownToolWarning name label /\
      failOnUnknown = false /\ warnOnUnknown = true /\
      exists tool,
        after !! name = Some tool /\ CLI tool = name /\
        VersionArg tool = "")).

Section ConfigReference.

Context (F : FileSystem).

(** The sections of a file that decode. *)
Definition decodedTool (value : TomlValue) : option ToolConfig :=
  match decodeTool F value with inl cfg => Some cfg | inr _ => None end.

Definition decodedChex (value : TomlValue) : option ChexConfig :=
  match decodeChex F value with inl cfg => Some cfg | inr _ => None end.

(** The tools made from the sections of a chex file. *)
Definition configTools (source : string) (sections : gmap string ToolConfig)
    : gmap string Tool :=
  map_imap (fun name cfg => Some (configToTool name cfg source)) sections.

(** The tools an external source has to offer under the flags, whatever
    the tools already loaded. *)
Definition sourceTools (path sourceType : string)
    (failOnUnknown skipUnknown : bool) : gmap string Tool :=
  if (sourceType =? "chex")%string then
    match Load F path with
    | inl cfg => configTools ("chex:" +:+ path) (ConfigTools cfg)
    | inr _ => ∅
    end
  else if (sourceType =? "mise")%string then
    match ReadFile F path with
    | inl data =>
        match UnmarshalMise F data with
        | inl miseTools =>
            externalTools ("mise:" +:+ path) failOnUnknown skipUnknown
              (extractMiseVersion <$> miseTools)
        | inr _ => ∅
        end
    | inr _ => ∅
    end
  else if (sourceType =? "tool-versions")%string then
    match ScanFile F path with
    | Some (texts, _) =>
        externalTools ("tool-versions:" +:+ path) failOnUnknown skipUnknown
          (list_to_map (omap toolVersionsEntry texts))
    | None => ∅
    end
  else ∅.

(** The path [LoadAndMerge] reads the main file from. *)
Definition mainPath (path rootDir : string) : string :=
  let path := if (path =? "")%string then ".chex.toml" else path in
  let rootDir := if (rootDir =? "")%string then "." else rootDir in
  if negb (IsAbs F path) then Join F rootDir path else path.

(** The sources [LoadAndMerge] loads after the main file, path and type,
    in order: the explicit ones, or else the two it detects. *)
Definition sourcesOf (rootDir : string) (cfg : Config)
    : list (string * string) :=
  let detected :=
    (if Stat F (Join F rootDir "mise.toml")
     then [ (Join F rootDir "mise.toml", "mise") ] else []) ++
    (if Stat F (Join F rootDir ".tool-versions")
     then [ (Join F rootDir ".tool-versions", "tool-versions") ] else []) in
  match Chex cfg with
  | Some c =>
      if (0 <? length (Sources c))%nat then
        map (fun source =>
               (if negb (IsAbs F (SourcePath source))
                then Join F rootDir (SourcePath source)
                else SourcePath source,
                SourceType source))
          (Sources c)
      else detected
  | None => detected
  end.

(** The tools of the main file and then of [sources], every source
    adding only the names that are not there yet. *)
Definition mergedTools (failOnUnknown skipUnknown : bool)
    (sources : list (string * string)) (main : gmap string Tool)
    : gmap string Tool :=
  fold_left
    (fun tools source =>
       tools ∪ sourceTools source.1 source.2 failOnUnknown skipUnknown)
    sources main.

End ConfigReference.

(** Every section of the main file is among [tools], converted, and no
    other tool of [tools] has the source [config]. *)
Definition mainFirst (sections : gmap string ToolConfig)
    (tools : gmap string Tool) : Prop :=
  forall name,
    match sections !! name with
    | Some cfg => tools !! name = Some (configToTool name cfg "config")
    | None => forall tool, tools !! name = Some tool -> Source tool <> "config"
    end.

(** ** The check command: [runCheck] (cmd/chex/main.go)

    [runCheck] is what cobra calls for [chex] with flags and tool names;
    [chex init], [--help] and [--version] are served elsewhere and are not
    embedded. *)

(** How [runCheck] ends: it returns an error or nil, or it calls
    [os.Exit]. *)
Inductive Finish :=
  | Returned (err : error)
  | Exited (code : nat).

(** What a call of [runCheck] shows: the lines on the standard error, the
    report if one is printed, and how it ends. *)
Record Ran := {
  errLines : list string;
  report : option Report;
  finish : Finish
}.

(** The exit status of the process after a call of [runCheck]: [main]
    exits with 1 on a returned error. *)
Definition exitCode (r : Ran) : nat :=
  match finish r with
  | Returned (Some _) => 1
  | Returned None => 0
  | Exited code => code
  end.

(** The loop of [runCheck] that looks for a requested name that is not in
    the configuration: the name of the first outcome whose reason is the
    text made from its own name. *)
Fixpoint findUnknown (results : list Result) : option string :=
  match results with
  | [] => None
  | result :: rest =>
      match Error result with
      | Some e =>
          if (e =? "tool '" +:+ Name (ResultTool result) +:+
                   "' not found in configuration")%string
          then Some (Name (ResultTool result))
          else findUnknown rest
      | None => findUnknown rest
      end
  end.

(** The choice of the format from the two flags. *)
Definition chooseFormat (quiet : bool) (outputFormat : string) : Format :=
  if quiet then FormatQuiet
  else if (outputFormat =? "json")%string then FormatJSON
  else if (outputFormat =? "quiet")%string then FormatQuiet
  else if (outputFormat =? "pretty")%string then FormatPretty
  else FormatPretty.

Section Command.

Context (P : Platform) (F : FileSystem) (pal : Palette).

(** [runCheck], with the flags [--config], [--root], [--quiet] and
    [--output] and the positional arguments. *)
Definition runCheck (configFile rootDir : string) (quiet : bool)
    (outputFormat : string) (args : list string) : M P Ran :=
  match LoadAndMerge F configFile rootDir with
  | inr e =>
      ret {| errLines := []; report := None;
             finish := Returned (Some ("failed to load configuration: "
                                       +:+ e)) |}
  | inl loadResult =>
      let warned :=
        Warnings loadResult ++
        (if (0 <? length (Warnings loadResult))%nat then [ "" ] else []) in
      if (size (LoadedTools loadResult) =? 0)%nat then
        ret {| errLines := warned; report := None;
               finish := Returned (Some "no tools defined in configuration")
            |}
      else
        bind P (CheckAll P (LoadedTools loadResult) args) (fun results =>
        match (if (0 <? length args)%nat then findUnknown results
               else None) with
        | Some name =>
            ret {| errLines :=
                     warned ++
                     [ "Error: tool '" +:+ name +:+
                       "' not found in configuration"; "";
                       "Available tools:" ] ++
                     map (fun entry => "  - " +:+ entry.1)
                       (rangeOrder P (LoadedTools loadResult));
                   report := None;
                   finish := Returned (Some "invalid tool name") |}
        | None =>
            let outFormat := chooseFormat quiet outputFormat in
            ret {| errLines := warned;
                   report := Some (Print pal results outFormat);
                   finish :=
                     if ShouldExitWithError results then Exited 1
                     else Returned None |}
        end)
  end.

End Command.

(** ** A simulated file system

    Files are texts by path.  The TOML stand-in reads one section or one
    tool per line, [name cli version] for a section and [name version]
    for a tool of [mise.toml]; the scanner stand-in gives the lines of a
    file. *)

Module SimFiles.

Definition files (path : string) : string + string :=
  if (path =? "./.chex.toml")%string then
    inl ("go go >=1.18" +:+ String newline "make make")
  else if (path =? "/ok/.chex.toml")%string then inl "go go >=1.18"
  else if (path =? "./mise.toml")%string then
    inl ("golang 1.20" +:+ String newline "shfmt 3.7")
  else if (path =? "./.tool-versions")%string then
    inl ("# tools" +:+ String newline
         ("kubeconform 0.6.1" +:+ String newline
          ("go 1.19" +:+ String newline "  shellcheck   0.9.0  ")))
  else inr ("open " +:+ path +:+ ": no such file or directory").

Definition field (i : nat) (line : string) : string := nth i (Fields line) "".

Definition section (line : string) : TomlValue :=
  TomlTable (fun key =>
    if (key =? "cli")%string then Some (TomlString (field 1 line))
    else if (key =? "version")%string then Some (TomlString (field 2 line))
    else None).

Definition textOf (key : string) (value : TomlValue) : string :=
  match value with
  | TomlTable fields =>
      match fields key with Some (TomlString s) => s | _ => "" end
  | _ => ""
  end.

Definition simDecodeTool (value : TomlValue) : ToolConfig + string :=
  match value with
  | TomlTable _ =>
      inl {| cfgName := ""; cfgCLI := textOf "cli" value;
             cfgVersion := textOf "version" value; cfgVersionArg := "";
             cfgVersionPattern := ""; cfgOptional := false;
             cfgMessage := "" |}
  | _ => inr "not a table"
  end.

Definition simDecodeChex (value : TomlValue) : ChexConfig + string :=
  inr "not supported".

Definition nonEmpty (lines : list string) : list string :=
  filter (fun line => Is_true (negb (TrimSpace line =? "")%string)) lines.

Definition simUnmarshalRaw (data : string) : gmap string TomlValue + string :=
  inl (list_to_map
         (map (fun line => (field 0 line, section line))
            (nonEmpty (Split_lines data)))).

Definition simUnmarshalMise (data : string)
    : gmap string TomlValue + string :=
  inl (list_to_map
         (map (fun line => (field 0 line, TomlString (field 1 line)))
            (nonEmpty (Split_lines data)))).

Definition simScanFile (path : string) : option (list string * error) :=
  match files path with
  | inl data => Some (Split_lines data, None)
  | inr _ => None
  end.

Definition simStat (path : string) : bool :=
  match files path with inl _ => true | inr _ => false end.

Definition simIsAbs (path : string) : bool := HasPrefix path "/".

Definition simJoin (dir path : string) : string := dir +:+ "/" +:+ path.

Definition fileSystem : FileSystem :=
  {| ReadFile := files;
     UnmarshalRaw := simUnmarshalRaw;
     decodeChex := simDecodeChex;
     decodeTool := simDecodeTool;
     UnmarshalMise := simUnmarshalMise;
     ScanFile := simScanFile;
     Stat := simStat;
     IsAbs := simIsAbs;
     Join := simJoin;
     rangeRaw := map_to_list;
     rangeRaw_perm := fun m => reflexivity (map_to_list m);
     rangeConfigs := map_to_list;
     rangeConfigs_perm := fun m => reflexivity (map_to_list m) |}.

(** The tools of [/ok/.chex.toml]. *)
Definition okLoaded : LoadResult :=
  {| LoadedTools :=
       {[ "go" := {| Name := "go"; CLI := "go"; Version := ">=1.18";
                     VersionArg := ""; VersionPattern := "";
                     Optional := false; Message := "";
                     Source := "config" |} ]};
     Warnings := [] |}.

(** Colours off: every [SprintFunc] gives its text back. *)
Definition plain : Palette :=
  {| green := fun s => s; red := fun s => s; yellow := fun s => s;
     cyan := fun s => s |}.

End SimFiles.

(** ** Go's [unicode/utf8], [strings.Map] and [unicode.ToLower]

    Runes are code points, in [N].  The Unicode case tables, which are
    data of the library, stay a parameter [table]. *)

Module Utf8.

Local Open Scope N_scope.

Definition RuneError : N := 65533.
Definition MaxRune : N := 1114111.

Definition bytesN (l : list N) : string :=
  string_of_list_ascii (map ascii_of_N l).

(** [lo <= c && c <= hi] on a byte. *)
Definition between (lo hi : N) (c : ascii) : bool :=
  (lo <=? N_of_ascii c) && (N_of_ascii c <=? hi).

(** [utf8.DecodeRuneInString] on a text whose first byte is [c]: the rune
    and its width.  A byte that starts no well-formed encoding (a
    continuation or an over-long form, a surrogate, a value above
    [MaxRune], a sequence cut short) gives [RuneError] and width 1.  The
    masks and shifts of the library are written as differences and
    products: [s0 & 0x1F] is [s0 - 192] for a first byte of two, and so
    on. *)
Definition DecodeRune (c : ascii) (rest : string) : N * nat :=
  let s0 := N_of_ascii c in
  let invalid := (RuneError, 1%nat) in
  if s0 <? 128 then (s0, 1%nat)
  else if (s0 <? 194) || (244 <? s0) then invalid
  else
    let lo := if s0 =? 224 then 160 else if s0 =? 240 then 144 else 128 in
    let hi := if s0 =? 237 then 159 else if s0 =? 244 then 143 else 191 in
    match rest with
    | String c1 rest1 =>
        let s1 := N_of_ascii c1 in
        if negb (between lo hi c1) then invalid
        else if s0 <? 224 then ((s0 - 192) * 64 + (s1 - 128), 2%nat)
        else
          match rest1 with
          | String c2 rest2 =>
              let s2 := N_of_ascii c2 in
              if negb (between 128 191 c2) then invalid
              else if s0 <? 240 then
                ((s0 - 224) * 4096 + (s1 - 128) * 64 + (s2 - 128), 3%nat)
              else
                match rest2 with
                | String c3 _ =>
                    let s3 := N_of_ascii c3 in
                    if negb (between 128 191 c3) then invalid
                    else
                      ((s0 - 240) * 262144 + (s1 - 128) * 4096 +
                       (s2 - 128) * 64 + (s3 - 128), 4%nat)
                | EmptyString => invalid
                end
          | EmptyString => invalid
          end
    | EmptyString => invalid
    end.

(** The runes [for _, c := range s] visits; [skip] bytes of the rune
    last decoded are still to pass. *)
Fixpoint runesFrom (skip : nat) (s : string) : list N :=
  match s with
  | EmptyString => []
  | String c rest =>
      match skip with
      | S k => runesFrom k rest
      | O =>
          let '(r, width) := DecodeRune c rest in
          r :: runesFrom (width - 1) rest
      end
  end.

Definition Runes (s : string) : list N := runesFrom 0 s.

(** [utf8.RuneCountInString] *)
Definition RuneCountInString (s : string) : nat := length (Runes s).

(** [utf8.AppendRune] to the empty text: a surrogate or a value above
    [MaxRune] is written as [RuneError]. *)
Definition EncodeRune (r : N) : string :=
  if r <=? 127 then bytesN [r]
  else if r <=? 2047 then bytesN [192 + r / 64; 128 + r mod 64]
  else if (MaxRune <? r) || ((55296 <=? r) && (r <=? 57343))
  then bytesN [239; 191; 189]
  else if r <=? 65535
  then bytesN [224 + r / 4096; 128 + (r / 64) mod 64; 128 + r mod 64]
  else bytesN [240 + r / 262144; 128 + (r / 4096) mod 64;
               128 + (r / 64) mod 64; 128 + r mod 64].

Fixpoint EncodeRunes (runes : list N) : string :=
  match runes with
  | [] => EmptyString
  | r :: rest => EncodeRune r +:+ EncodeRunes rest
  end.

(** [strings.Map(mapping, s)] for a mapping that drops no rune: every rune
    of [s] mapped and written again, an ill-formed byte as [RuneError].
    (The library copies the runes before the first one that changes
    instead of writing them again, which gives the same bytes.) *)
Definition Map (mapping : N -> N) (s : string) : string :=
  EncodeRunes (map mapping (Runes s)).

(** [unicode.ToLower]: the letters [A] to [Z] by the ASCII rule, a rune
    above [MaxASCII] by the case table. *)
Definition ToLower (table : N -> N) (r : N) : N :=
  if r <=? 127 then
    if (65 <=? r) && (r <=? 90) then r + 32 else r
  else table r.

End Utf8.

(** ** Reference definitions on case and characters

    Used in the statements only. *)

Module Characters.

Import Text.

(** Every byte is above ASCII. *)
Definition highBytes (s : string) : bool :=
  allBytes (fun c => negb (isASCII c)) s.

(** The runes of a text of ASCII bytes. *)
Definition asRunes (p : string) : list N :=
  map N_of_ascii (list_ascii_of_string p).

(** Some run of characters of [line] is [pattern] once lower-cased. *)
Definition containsIgnoringCase (lowerRune : N -> N) (pattern line : string)
    : Prop :=
  exists before part after,
    Utf8.Runes line = before ++ part ++ after /\
    map lowerRune part = asRunes pattern.

(** The platform lower-cases a text that is not all ASCII as Go does, by
    [strings.Map(unicode.ToLower, s)], with [table] for the case table. *)
Definition goLowerCasing (P : Platform) (table : N -> N) : Prop :=
  forall s,
    allBytes isASCII s = false ->
    unicodeLower P s = Utf8.Map (Utf8.ToLower table) s.

(** The acceptance test as the specification words it, with [count] for
    the length of a line. *)
Definition acceptedAsWorded (count : string -> nat) (output : string)
    : Prop :=
  exists line,
    isFirstLineOf line output /\
    let trimmed := TrimSpace line in
    count trimmed <= 200 /\
    (forall pattern,
        In pattern
          [ "usage:"; "error:"; "flag provided"; "unknown flag";
            "unknown command"; "help"; "failed validation" ] ->
        ~ exists part,
            isSubstring part trimmed /\ equalIgnoringCase part pattern) /\
    (exists c, In c decimalDigits /\ hasByte c trimmed) /\
    hasByte "." trimmed.

(** The euro sign, U+20AC, three bytes in UTF-8. *)
Definition euro : string := bytes [226; 130; 172].

Fixpoint repeated (n : nat) (s : string) : string :=
  match n with
  | O => EmptyString
  | S k => s +:+ repeated k s
  end.

(** A line of 74 characters and 214 bytes. *)
Definition euroLine : string := repeated 70 euro +:+ " 1.0".

(** The simulated platform with Go's lower-casing, its case table
    leaving every rune above ASCII as it is. *)
Definition unicodePlatform : Platform :=
  {| World := World Sim.platform;
     Context_ := Context_ Sim.platform;
     Regexp := Regexp Sim.platform;
     Constraints := Constraints Sim.platform;
     SemVersion := SemVersion Sim.platform;
     WithTimeout := WithTimeout Sim.platform;
     LookPath := LookPath Sim.platform;
     Run := Run Sim.platform;
     regexp_Compile := regexp_Compile Sim.platform;
     FindStringSubmatch := FindStringSubmatch Sim.platform;
     NewConstraint := NewConstraint Sim.platform;
     NewVersion := NewVersion Sim.platform;
     ConstraintsCheck := ConstraintsCheck Sim.platform;
     unicodeLower := Utf8.Map (Utf8.ToLower (fun r => r));
     rangeOrder := rangeOrder Sim.platform;
     rangeOrder_perm := rangeOrder_perm Sim.platform |}.

(** [HELP], an em dash (U+2014) and a version. *)
Definition shoutedHelp : string :=
  "HELP " +:+ bytes [226; 128; 148] +:+ " v1.0".

End Characters.

(** * Properties *)

(** ** Text: substrings, lines and digits *)

Section TextProperties.

Import Text Regex.

Lemma app_assoc_s (a b c : string) : (a +:+ b) +:+ c = a +:+ b +:+ c.
Proof. induction a as [|x a IH]; simpl; [reflexivity | now rewrite IH]. Qed.

Lemma app_nil_r_s (a : string) : a +:+ "" = a.
Proof. induction a as [|x a IH]; simpl; [reflexivity | now rewrite IH]. Qed.

Lemma length_app_s (a b : string) :
  String.length (a +:+ b) = String.length a + String.length b.
Proof. induction a as [|x a IH]; simpl; [reflexivity | now rewrite IH]. Qed.

Lemma HasPrefix_iff p : forall s,
  HasPrefix s p = true <-> exists b, s = p +:+ b.
Proof.
  induction p as [|c p IH]; intros s.
  - split; [intros _; now exists s | intros _; now destruct s].
  - destruct s as [|d s]; simpl.
    + split; [discriminate | intros (b & Hb); discriminate].
    + rewrite andb_true_iff, IH. split.
      * intros (Hc & b & ->). apply Ascii.eqb_eq in Hc as ->. now exists b.
      * intros (b & Hb). injection Hb as -> ->.
        split; [apply Ascii.eqb_refl | now exists b].
Qed.

Lemma Contains_cons c s p :
  Contains (String c s) p = HasPrefix (String c s) p || Contains s p.
Proof. reflexivity. Qed.

Lemma Contains_iff p : forall s,
  Contains s p = true <-> isSubstring p s.
Proof.
  unfold isSubstring. induction s as [|c s IH].
  - change (Contains "" p) with (HasPrefix "" p || false).
    rewrite orb_false_r, HasPrefix_iff. split.
    + intros (b & ->). now exists "", b.
    + intros (a & b & H). destruct a; [now exists b | discriminate].
  - rewrite Contains_cons, orb_true_iff, HasPrefix_iff, IH. split.
    + intros [(b & ->) | (a & b & ->)]; [now exists "", b|].
      now exists (String c a), b.
    + intros (a & b & H). destruct a as [|d a]; [left; now exists b|].
      right. injection H as -> ->. now exists a, b.
Qed.

Lemma anyByte_iff f : forall s,
  anyByte f s = true <-> exists c, f c = true /\ hasByte c s.
Proof.
  unfold hasByte. induction s as [|c s IH]; simpl.
  - split; [discriminate | intros (c & _ & a & b & H)].
    destruct a; discriminate.
  - rewrite orb_true_iff, IH. split.
    + intros [Hc | (d & Hd & a & b & ->)].
      * exists c. split; [exact Hc | now exists "", s].
      * exists d. split; [exact Hd | now exists (String c a), b].
    + intros (d & Hd & a & b & H). destruct a as [|x a].
      * injection H as -> ->. now left.
      * injection H as -> ->. right. exists d. split; [exact Hd|].
        now exists a, b.
Qed.

Lemma digit_iff c : Regex.digit c = true <-> In c decimalDigits.
Proof.
  split.
  - destruct c as [[] [] [] [] [] [] [] []]; intros H;
      try discriminate H; simpl; tauto.
  - intros H. simpl in H.
    repeat (destruct H as [<- | H]; [reflexivity|]). contradiction.
Qed.

Lemma Contains_byte c s : Contains s (String c "") = true <-> hasByte c s.
Proof.
  rewrite Contains_iff. unfold isSubstring, hasByte.
  split; intros (a & b & ->); now exists a, b.
Qed.

Lemma Split_lines_first output :
  exists line rest,
    Split_lines output = line :: rest /\ isFirstLineOf line output.
Proof.
  induction output as [|c s (line & rest & Hs & Hno & Hl)]; simpl.
  - exists "", []. split; [reflexivity|]. split; [|now left].
    intros (a & b & H). destruct a; discriminate.
  - destruct (Ascii.eqb_spec c newline) as [->|Hc].
    + exists "", (Split_lines s). split; [reflexivity|].
      split; [|right; now exists s].
      intros (a & b & H). destruct a; discriminate.
    + rewrite Hs. exists (String c line), rest. split; [reflexivity|]. split.
      * intros (a & b & H). destruct a as [|x a].
        -- injection H as -> ->. contradiction.
        -- injection H as -> ->. apply Hno. now exists a, b.
      * destruct Hl as [-> | (r & ->)]; [now left|].
        right. now exists r.
Qed.

Lemma mapBytes_app f (a b : string) :
  mapBytes f (a +:+ b) = mapBytes f a +:+ mapBytes f b.
Proof. induction a as [|x a IH]; simpl; [reflexivity | now rewrite IH]. Qed.

Lemma mapBytes_split f : forall (a b s : string),
  mapBytes f s = a +:+ b ->
  exists a' b', s = a' +:+ b' /\ mapBytes f a' = a /\ mapBytes f b' = b.
Proof.
  induction a as [|x a IH]; intros b s H.
  - now exists "", s.
  - destruct s as [|y s]; [discriminate|]. simpl in H. injection H as Hx H.
    destruct (IH b s H) as (a' & b' & -> & Ha & Hb).
    exists (String y a'), b'. simpl. now rewrite Hx, Ha.
Qed.

Lemma lower_substring (p s : string) :
  isSubstring p (mapBytes lowerASCII s) <->
  exists part, isSubstring part s /\ mapBytes lowerASCII part = p.
Proof.
  unfold isSubstring. split.
  - intros (a & b & H).
    destruct (mapBytes_split _ _ _ _ H) as (a' & r & -> & _ & Hr).
    destruct (mapBytes_split _ _ _ _ Hr) as (m & b' & -> & Hm & _).
    exists m. split; [now exists a', b' | exact Hm].
  - intros (part & (a & b & ->) & <-).
    exists (mapBytes lowerASCII a), (mapBytes lowerASCII b).
    now rewrite !mapBytes_app.
Qed.

Lemma ToLower_ascii u s :
  allBytes isASCII s = true -> ToLower u s = mapBytes lowerASCII s.
Proof. intros H. unfold ToLower. now rewrite H. Qed.

Lemma rejectPatterns_lower pattern :
  In pattern rejectPatterns -> mapBytes lowerASCII pattern = pattern.
Proof.
  intros H. simpl in H.
  repeat (destruct H as [<- | H]; [reflexivity|]). contradiction.
Qed.

Lemma Split_lines_join s : joinLines (Split_lines s) = s.
Proof.
  induction s as [|c s IH]; [reflexivity|]. simpl.
  destruct (Ascii.eqb_spec c newline) as [->|Hc].
  - destruct (Split_lines_first s) as (l & r & E & _).
    rewrite E in *.
    change (joinLines ("" :: l :: r))
      with ("" +:+ String newline (joinLines (l :: r))).
    now rewrite IH.
  - destruct (Split_lines_first s) as (l & r & E & _).
    rewrite E in *. destruct r as [|l' r].
    + simpl in *. now rewrite IH.
    + change (joinLines (String c l :: l' :: r))
        with (String c (l +:+ String newline (joinLines (l' :: r)))).
      change (joinLines (l :: l' :: r))
        with (l +:+ String newline (joinLines (l' :: r))) in IH.
      now rewrite IH.
Qed.

Lemma Split_lines_no_break s :
  Forall (fun line => ~ hasByte newline line) (Split_lines s).
Proof.
  induction s as [|c s IH]; simpl.
  - constructor; [|constructor]. intros (a & b & H). destruct a; discriminate.
  - destruct (Ascii.eqb_spec c newline) as [->|Hc].
    + constructor; [|exact IH]. intros (a & b & H). destruct a; discriminate.
    + destruct (Split_lines s) as [|l r]; [inversion IH|].
      * constructor; [|constructor]. intros (a & b & H).
        destruct a as [|x a]; injection H as -> H; [contradiction|].
        destruct a; discriminate.
      * inversion IH as [|? ? Hl Hr]; subst. constructor; [|exact Hr].
        intros (a & b & H). destruct a as [|x a]; injection H as -> H.
        -- contradiction.
        -- apply Hl. now exists a, b.
Qed.

Example TrimSpace_ascii :
  TrimSpace (String newline "  go version 1.2 " +:+ String newline "")
  = "go version 1.2".
Proof. reflexivity. Qed.

(** U+2000, [A], a space and U+00A0. *)
Example TrimSpace_unicode :
  TrimSpace (bytes [226; 128; 128; 65; 32; 194; 160]) = "A".
Proof. reflexivity. Qed.

Example Fields_two : Fields " version  --short " = ["version"; "--short"].
Proof. reflexivity. Qed.

Example Split_lines_three :
  Split_lines ("a" +:+ String newline ("b" +:+ String newline ""))
  = ["a"; "b"; ""].
Proof. reflexivity. Qed.

Example FindString_go :
  FindString versionRe "go version go1.20.0 darwin/amd64" = "1.20.0".
Proof. reflexivity. Qed.

Example FindString_leftmost :
  FindString versionRe "a 1. 22.3.x 4.5.6" = "22.3".
Proof. reflexivity. Qed.

Example FindString_three_of_four : FindString versionRe "1.2.3.4" = "1.2.3".
Proof. reflexivity. Qed.

Example FindString_none : FindString versionRe "v1 beta" = "".
Proof. reflexivity. Qed.

End TextProperties.

(** ** The heuristic on version output *)

Section Heuristic.

Import Text.

Context (P : Platform).

(** The heuristic on the first line, the lower-case form of the line
    taken as the platform gives it; on a line of ASCII bytes that form
    contains a pattern exactly when the line has a part equal to it up to
    the case of the letters. *)
Lemma looksLikeVersionOutput_spec (output : string) :
  looksLikeVersionOutput P "" = false /\
  exists line,
    isFirstLineOf line output /\
    let trimmed := TrimSpace line in
    let lower := ToLower (unicodeLower P) trimmed in
    let patterns :=
      [ "usage:"; "error:"; "flag provided"; "unknown flag";
        "unknown command"; "help"; "failed validation" ] in
    (looksLikeVersionOutput P output = true <->
     String.length trimmed <= 200 /\
     (forall pattern, In pattern patterns -> ~ isSubstring pattern lower) /\
     (exists c, In c decimalDigits /\ hasByte c trimmed) /\
     hasByte "." trimmed) /\
    (allBytes isASCII trimmed = true ->
     forall pattern, In pattern patterns ->
       (isSubstring pattern lower <->
        exists part,
          isSubstring part trimmed /\ equalIgnoringCase part pattern)).
Proof.
  split; [reflexivity|].
  destruct (Split_lines_first output) as (line & rest & Hs & Hfirst).
  exists line. split; [exact Hfirst|]. cbv zeta.
  set (trimmed := TrimSpace line).
  set (lower := ToLower (unicodeLower P) trimmed).
  split.
  2:{ intros Hascii pattern Hin. subst lower.
      rewrite (ToLower_ascii _ _ Hascii), lower_substring.
      unfold equalIgnoringCase.
      now rewrite (rejectPatterns_lower pattern Hin). }
  unfold looksLikeVersionOutput. rewrite Hs. fold trimmed. fold lower.
  destruct (200 <? String.length trimmed)%nat eqn:Hlen.
  { apply Nat.ltb_lt in Hlen. split; [discriminate|]. intros (H & _). lia. }
  apply Nat.ltb_ge in Hlen.
  destruct (existsb (fun pattern => Contains lower pattern) rejectPatterns)
    eqn:Hrej.
  { split; [discriminate|]. intros (_ & Hno & _).
    apply existsb_exists in Hrej as (p & Hin & Hc).
    apply Contains_iff in Hc. now destruct (Hno p Hin). }
  rewrite andb_true_iff, Contains_byte, anyByte_iff. split.
  - intros (Hdot & c & Hc & Hb). split; [exact Hlen|]. split.
    + intros p Hin Hsub. apply Contains_iff in Hsub.
      assert (existsb (fun pattern => Contains lower pattern) rejectPatterns
              = true) by (apply existsb_exists; eauto).
      congruence.
    + split; [|exact Hdot]. exists c. split; [now apply digit_iff | exact Hb].
  - intros (_ & _ & (c & Hc & Hb) & Hdot). split; [exact Hdot|].
    exists c. split; [now apply digit_iff | exact Hb].
Qed.

End Heuristic.

(** ** The version pattern *)

Section VersionPattern.

Import Text Regex.

Lemma takeWhile_dropWhile f s : s = takeWhile f s +:+ dropWhile f s.
Proof.
  induction s as [|a s IH]; simpl; [reflexivity|].
  destruct (f a); simpl; [now rewrite <- IH | reflexivity].
Qed.

Lemma takeWhile_all f s : allBytes f (takeWhile f s) = true.
Proof.
  induction s as [|a s IH]; simpl; [reflexivity|].
  destruct (f a) eqn:E; simpl; [now rewrite E | reflexivity].
Qed.

Lemma span_stop f x c t :
  allBytes f x = true -> f c = false ->
  takeWhile f (x +:+ String c t) = x /\
  dropWhile f (x +:+ String c t) = String c t.
Proof.
  intros Hx Hc. induction x as [|a x IH]; simpl in *.
  - now rewrite Hc.
  - apply andb_true_iff in Hx as [Ha Hx]. rewrite Ha.
    destruct (IH Hx) as [-> ->]. now split.
Qed.

Lemma span_longer f x t :
  allBytes f x = true ->
  String.length x <= String.length (takeWhile f (x +:+ t)).
Proof.
  intros Hx. induction x as [|a x IH]; simpl in *; [lia|].
  apply andb_true_iff in Hx as [Ha Hx]. rewrite Ha. simpl.
  specialize (IH Hx). lia.
Qed.

Lemma dot_not_digit : digit dot = false.
Proof. reflexivity. Qed.

(** Giving digits back never helps a continuation that fails where the
    repetition stopped. *)
Lemma star_greedy f k : 
  (forall t, k (dropWhile f t) = None -> k t = None) ->
  forall s, star f s k = k (dropWhile f s).
Proof.
  intros Hk. induction s as [|a s IH]; simpl; [reflexivity|].
  destruct (f a) eqn:Ha; [|reflexivity].
  rewrite IH. destruct (k (dropWhile f s)) eqn:E; [reflexivity|].
  apply Hk. simpl. now rewrite Ha.
Qed.

Lemma plus_greedy f k s :
  (forall t, k (dropWhile f t) = None -> k t = None) ->
  matchK (PlusClass f) s k
  = match takeWhile f s with
    | EmptyString => None
    | String _ _ => k (dropWhile f s)
    end.
Proof.
  intros Hk. destruct s as [|a s]; simpl; [reflexivity|].
  destruct (f a); [|reflexivity]. now apply star_greedy.
Qed.


Lemma matchK_Seq r1 r2 s k :
  matchK (Seq r1 r2) s k = matchK r1 s (fun s' => matchK r2 s' k).
Proof. reflexivity. Qed.

Lemma matchK_Lit c s k :
  matchK (Lit c) s k
  = match s with
    | String a s' => if Ascii.eqb a c then k s' else None
    | EmptyString => None
    end.
Proof. reflexivity. Qed.

Lemma matchK_Opt r s k :
  matchK (Opt r) s k
  = match matchK r s k with
    | Some rest => Some rest
    | None => k s
    end.
Proof. reflexivity. Qed.

Lemma matchK_third s3 :
  matchK (Opt (Seq (Lit dot) (PlusClass digit))) s3 Some
  = Some (optionalThird s3).
Proof.
  rewrite matchK_Opt, matchK_Seq, matchK_Lit. unfold optionalThird.
  destruct s3 as [|b u]; [reflexivity|].
  destruct (Ascii.eqb b dot); [|reflexivity].
  rewrite plus_greedy by (intros t H; discriminate H).
  now destruct (takeWhile digit u).
Qed.

Lemma matchK_versionRe s : matchK versionRe s Some = versionRest s.
Proof.
  unfold versionRe, versionRest. rewrite matchK_Seq, plus_greedy.
  2:{ intros [|a t]; [trivial|]. rewrite matchK_Seq, !matchK_Lit. simpl.
      destruct (digit a) eqn:Ha; [|trivial]. intros _.
      destruct (Ascii.eqb_spec a dot) as [->|]; [|reflexivity].
      discriminate Ha. }
  destruct (takeWhile digit s) as [|x0 x]; [reflexivity|].
  rewrite matchK_Seq, matchK_Lit.
  destruct (dropWhile digit s) as [|b s2]; [reflexivity|].
  destruct (Ascii.eqb b dot); [|reflexivity].
  rewrite matchK_Seq, plus_greedy.
  2:{ intros t. now rewrite !matchK_third. }
  destruct (takeWhile digit s2) as [|y0 y]; [reflexivity|].
  apply matchK_third.
Qed.

Lemma digits_nonempty_length d : digits d -> 1 <= String.length d.
Proof. intros [Hne _]. destruct d; [contradiction | simpl; lia]. Qed.

Lemma takeWhile_digits s :
  takeWhile digit s <> "" -> digits (takeWhile digit s).
Proof. intros H. split; [exact H | apply takeWhile_all]. Qed.

Lemma span_nonempty f d t :
  d <> "" -> allBytes f d = true -> takeWhile f (d +:+ t) <> "".
Proof.
  intros Hne Hd. destruct d as [|a d]; [contradiction|]. simpl in *.
  apply andb_true_iff in Hd as [-> _]. discriminate.
Qed.

(** A version-shaped prefix of [s] starts with the whole first run of
    digits of [s]. *)
Lemma shaped_prefix s m post :
  versionShaped m -> s = m +:+ post ->
  exists y tail,
    digits y /\ takeWhile digit s <> "" /\
    dropWhile digit s = String dot (y +:+ tail) /\
    ((tail = post /\
      String.length m
      = String.length (takeWhile digit s) + 1 + String.length y) \/
     (exists z,
         digits z /\ tail = String dot (z +:+ post) /\
         String.length m
         = String.length (takeWhile digit s) + 1 + String.length y + 1
           + String.length z)).
Proof.
  intros (x & y & [Hx0 Hx] & Hy & Hm) ->.
  destruct Hm as [-> | (z & Hz & ->)].
  - rewrite app_assoc_s. simpl.
    destruct (span_stop digit x dot (y +:+ post) Hx dot_not_digit) as [-> ->].
    exists y, post. repeat split; try assumption; try apply Hy.
    left. split; [reflexivity|]. rewrite length_app_s. simpl. lia.
  - rewrite app_assoc_s. simpl. rewrite app_assoc_s. simpl.
    destruct (span_stop digit x dot (y +:+ String dot (z +:+ post))
                Hx dot_not_digit) as [-> ->].
    exists y, (String dot (z +:+ post)).
    repeat split; try assumption; try apply Hy.
    right. exists z. split; [exact Hz|]. split; [reflexivity|].
    rewrite length_app_s. simpl. rewrite length_app_s. simpl. lia.
Qed.

Lemma optionalThird_cases s3 :
  (exists u,
      s3 = String dot u /\ takeWhile digit u <> "" /\
      optionalThird s3 = dropWhile digit u) \/
  (optionalThird s3 = s3 /\
   forall z post, digits z -> s3 <> String dot (z +:+ post)).
Proof.
  unfold optionalThird. destruct s3 as [|b u].
  { right. split; [reflexivity | discriminate]. }
  destruct (Ascii.eqb_spec b dot) as [->|Hb].
  - destruct (takeWhile digit u) as [|z0 z] eqn:Hz.
    + right. split; [reflexivity|]. intros z' post [Hne Hz'] H.
      injection H as ->. now apply (span_nonempty digit z' post Hne Hz').
    + left. exists u. rewrite Hz. repeat split. discriminate.
  - right. split; [reflexivity|]. intros z post _ H. now injection H.
Qed.

Lemma versionRest_sound s rest :
  versionRest s = Some rest ->
  exists m,
    s = m +:+ rest /\ versionShaped m /\
    forall m' post, versionShaped m' -> s = m' +:+ post ->
      String.length m' <= String.length m.
Proof.
  unfold versionRest. intros H.
  pose proof (takeWhile_dropWhile digit s) as Hs.
  pose proof (takeWhile_all digit s) as Hx.
  destruct (takeWhile digit s) as [|x0 x] eqn:Ex; [discriminate|].
  destruct (dropWhile digit s) as [|b s2] eqn:Es1; [discriminate|].
  destruct (Ascii.eqb_spec b dot) as [->|]; [|discriminate].
  pose proof (takeWhile_dropWhile digit s2) as Hs2.
  pose proof (takeWhile_all digit s2) as Hy.
  destruct (takeWhile digit s2) as [|y0 y] eqn:Ey; [discriminate|].
  injection H as <-.
  remember (String x0 x) as X eqn:EX in *.
  remember (String y0 y) as Y eqn:EY in *.
  assert (HX : digits X) by (split; [now rewrite EX | exact Hx]).
  assert (HY : digits Y) by (split; [now rewrite EY | exact Hy]).
  clear EX EY.
  destruct (optionalThird_cases (dropWhile digit s2))
    as [(u & Hs3 & Hz & ->) | (-> & Hno)].
  - (* three components *)
    pose proof (takeWhile_dropWhile digit u) as Hu.
    remember (takeWhile digit u) as Z eqn:EZ in *.
    exists (X +:+ String dot (Y +:+ String dot Z)). split; [|split].
    + rewrite Hs, Hs2, Hs3, Hu at 1.
      rewrite ?app_assoc_s. simpl. rewrite ?app_assoc_s. simpl.
      reflexivity.
    + exists X, Y. split; [exact HX|]. split; [exact HY|]. right.
      exists Z. split; [|reflexivity]. subst Z. now apply takeWhile_digits.
    + intros m' post Hm' Hpre.
      destruct (shaped_prefix s m' post Hm' Hpre)
        as (y' & tail & Hy' & _ & Hd & Hlen).
      rewrite Es1 in Hd. injection Hd as Hd. rewrite Ex in Hlen.
      rewrite length_app_s. simpl. rewrite length_app_s. simpl.
      pose proof (span_longer digit y' tail (proj2 Hy')) as Hle.
      rewrite <- Hd, Ey in Hle.
      destruct Hlen as [(_ & ->) | (z' & Hz' & -> & ->)]; [lia|].
      destruct (span_stop digit y' dot (z' +:+ post) (proj2 Hy')
                  dot_not_digit) as [Ht Hdr].
      rewrite <- Hd in Hdr. rewrite Hs3 in Hdr. injection Hdr as ->.
      rewrite <- Hd, Ey in Ht. subst y'.
      pose proof (span_longer digit z' post (proj2 Hz')) as Hlz.
      rewrite <- EZ in Hlz. lia.
  - (* two components *)
    exists (X +:+ String dot Y). split; [|split].
    + rewrite Hs, Hs2 at 1. rewrite ?app_assoc_s. simpl.
      rewrite ?app_assoc_s. reflexivity.
    + exists X, Y. split; [exact HX|]. split; [exact HY|]. now left.
    + intros m' post Hm' Hpre.
      destruct (shaped_prefix s m' post Hm' Hpre)
        as (y' & tail & Hy' & _ & Hd & Hlen).
      rewrite Es1 in Hd. injection Hd as Hd. rewrite Ex in Hlen.
      rewrite length_app_s. simpl.
      pose proof (span_longer digit y' tail (proj2 Hy')) as Hle.
      rewrite <- Hd, Ey in Hle.
      destruct Hlen as [(_ & ->) | (z' & Hz' & -> & ->)]; [lia|].
      exfalso.
      destruct (span_stop digit y' dot (z' +:+ post) (proj2 Hy')
                  dot_not_digit) as [_ Hdr].
      rewrite <- Hd in Hdr. now apply (Hno z' post Hz').
Qed.

Lemma versionRest_complete s :
  versionRest s = None ->
  forall m post, versionShaped m -> s <> m +:+ post.
Proof.
  unfold versionRest. intros H m post Hm Hpre.
  destruct (shaped_prefix s m post Hm Hpre)
    as (y & tail & Hy & Hx & Hd & _).
  destruct (takeWhile digit s) as [|x0 x]; [contradiction|].
  rewrite Hd in H. rewrite Ascii.eqb_refl in H.
  pose proof (span_nonempty digit y tail (proj1 Hy) (proj2 Hy)) as Hne.
  now destruct (takeWhile digit (y +:+ tail)).
Qed.

Lemma take_length_app m r : take (String.length m) (m +:+ r) = m.
Proof. induction m as [|a m IH]; simpl; [reflexivity | now f_equal]. Qed.

Lemma take_matched m r :
  take (String.length (m +:+ r) - String.length r) (m +:+ r) = m.
Proof.
  rewrite length_app_s.
  replace (String.length m + String.length r - String.length r)
    with (String.length m) by lia.
  apply take_length_app.
Qed.

Lemma shaped_nonempty m : versionShaped m -> m <> "".
Proof.
  intros (x & y & [Hx _] & _ & [-> | (z & _ & ->)]);
    destruct x; try contradiction; discriminate.
Qed.

Lemma matchAt_Some s m :
  matchAt versionRe s = Some m ->
  versionShaped m /\ (exists post, s = m +:+ post) /\
  forall m' post, versionShaped m' -> s = m' +:+ post ->
    String.length m' <= String.length m.
Proof.
  unfold matchAt. rewrite matchK_versionRe.
  destruct (versionRest s) as [rest|] eqn:Hr; [|discriminate].
  destruct (versionRest_sound s rest Hr) as (m0 & Hs & Hm0 & Hmax).
  intros H. injection H as <-.
  replace (take _ s) with m0 by (rewrite Hs; now rewrite take_matched).
  split; [exact Hm0|]. split; [now exists rest | exact Hmax].
Qed.

Lemma matchAt_None s :
  matchAt versionRe s = None ->
  forall m post, versionShaped m -> s <> m +:+ post.
Proof.
  unfold matchAt. rewrite matchK_versionRe.
  destruct (versionRest s) eqn:Hr; [discriminate|]. intros _.
  now apply versionRest_complete.
Qed.

Lemma occursAt_head m s : occursAt 0 m s <-> exists post, s = m +:+ post.
Proof.
  unfold occursAt. split.
  - intros (pre & post & -> & Hl). destruct pre; [|discriminate].
    now exists post.
  - intros (post & ->). now exists "", post.
Qed.

Lemma occursAt_tail j m c s : occursAt (S j) m (String c s) <-> occursAt j m s.
Proof.
  unfold occursAt. split.
  - intros (pre & post & H & Hl). destruct pre as [|a pre]; [discriminate|].
    simpl in H, Hl. injection H as -> ->. exists pre, post.
    split; [reflexivity | lia].
  - intros (pre & post & -> & Hl). exists (String c pre), post.
    split; [reflexivity | simpl; lia].
Qed.

Lemma no_version_in_empty : ~ hasVersion "".
Proof.
  intros (i & m & Hm & pre & post & H & _).
  apply shaped_nonempty in Hm. destruct pre; [|discriminate].
  destruct m; [contradiction | discriminate].
Qed.

Lemma find_spec : forall s,
  match find versionRe s with
  | Some m => firstVersionIn s m
  | None => ~ hasVersion s
  end.
Proof.
  induction s as [|c s IH].
  - simpl. destruct (matchAt versionRe "") as [m|] eqn:E;
      [|apply no_version_in_empty].
    apply matchAt_Some in E as (Hm & (post & Hp) & _).
    apply shaped_nonempty in Hm. destruct m; [contradiction | discriminate].
  - cbn [find]. destruct (matchAt versionRe (String c s)) as [m|] eqn:E.
    + apply matchAt_Some in E as (Hm & Hp & Hmax).
      split; [exact Hm|]. exists 0. split; [now apply occursAt_head|].
      intros j m' Hm' Hocc. split; [lia|]. intros ->.
      apply occursAt_head in Hocc as (post' & Hp'). eauto.
    + pose proof (matchAt_None _ E) as Hnone.
      destruct (find versionRe s) as [m|].
      * destruct IH as (Hm & i & Hocc & Hfirst).
        split; [exact Hm|]. exists (S i).
        split; [now apply occursAt_tail|].
        intros [|j] m' Hm' Hocc'.
        { apply occursAt_head in Hocc' as (post' & Hp').
          now destruct (Hnone m' post' Hm'). }
        apply occursAt_tail in Hocc'.
        destruct (Hfirst j m' Hm' Hocc') as [Hle Hlen].
        split; [lia|]. intros Hj. apply Hlen. lia.
      * intros ([|j] & m' & Hm' & Hocc').
        { apply occursAt_head in Hocc' as (post' & Hp').
          now destruct (Hnone m' post' Hm'). }
        apply occursAt_tail in Hocc'. apply IH. now exists j, m'.
Qed.

Lemma FindString_spec s :
  (FindString versionRe s <> "" /\
   firstVersionIn s (FindString versionRe s)) \/
  (FindString versionRe s = "" /\ ~ hasVersion s).
Proof.
  unfold FindString. pose proof (find_spec s) as H.
  destruct (find versionRe s) as [m|]; [left | now right].
  split; [|exact H]. apply shaped_nonempty, H.
Qed.

Lemma scanLines_spec : forall lines,
  (exists before line after m,
      map TrimSpace lines = before ++ line :: after /\
      Forall (fun l => ~ hasVersion l) before /\
      firstVersionIn line m /\
      scanLines lines = (m, None)) \/
  (Forall (fun l => ~ hasVersion l) (map TrimSpace lines) /\
   scanLines lines = ("", Some "no version found in output")).
Proof.
  induction lines as [|line rest IH]; cbn [scanLines map].
  { right. split; [constructor | reflexivity]. }
  assert (Hskip : ~ hasVersion (TrimSpace line) ->
    (exists before line0 after m,
        TrimSpace line :: map TrimSpace rest = before ++ line0 :: after /\
        Forall (fun l => ~ hasVersion l) before /\
        firstVersionIn line0 m /\
        scanLines rest = (m, None)) \/
    (Forall (fun l => ~ hasVersion l) (TrimSpace line :: map TrimSpace rest) /\
     scanLines rest = ("", Some "no version found in output"))).
  { intros Hno.
    destruct IH as [(before & l0 & after & m & Hl & Hb & Hf & Hs)
                   | (Hall & Hs)].
    - left. exists (TrimSpace line :: before), l0, after, m.
      split; [now rewrite Hl|]. split; [now constructor|]. now split.
    - right. split; [now constructor | exact Hs]. }
  destruct (String.eqb_spec (TrimSpace line) "") as [He|He].
  { apply Hskip. rewrite He. apply no_version_in_empty. }
  destruct (FindString_spec (TrimSpace line)) as [(Hne & Hfirst) | (He' & Hno)].
  - destruct (String.eqb_spec (FindString versionRe (TrimSpace line)) "");
      [contradiction|]. cbn [negb].
    left. exists [], (TrimSpace line), (map TrimSpace rest),
      (FindString versionRe (TrimSpace line)).
    split; [reflexivity|]. split; [constructor|]. now split.
  - rewrite He'. cbn. now apply Hskip.
Qed.

End VersionPattern.

(** ** The default extraction *)

Section Extraction.

Import Text.

Context (P : Platform).

(** C6. Without a pattern the extraction takes the lines of the raw text
    top to bottom, each trimmed of white space, and returns the first
    part of the form digits [.] digits, with a further [.] digits when
    there is one, of the first line that has such a part; when no line
    has one it fails with [no version found in output].  On
    [Tool Name / Version 1.2.3 / More info] it returns [1.2.3]. *)
Theorem default_extraction (output : string) :
  let rawLines := Split_lines output in
  let lines := map TrimSpace rawLines in
  (joinLines rawLines = output /\
   Forall (fun line => ~ hasByte newline line) rawLines) /\
  ((exists before line after m,
       lines = before ++ line :: after /\
       Forall (fun l => ~ hasVersion l) before /\
       firstVersionIn line m /\
       extractVersion P output "" = (m, None)) \/
   (Forall (fun l => ~ hasVersion l) lines /\
    extractVersion P output "" = ("", Some "no version found in output"))) /\
  extractVersion P sampleOutput "" = ("1.2.3", None).
Proof.
  split; [split; [apply Split_lines_join | apply Split_lines_no_break]|].
  split; [|reflexivity]. apply scanLines_spec.
Qed.

End Extraction.

(** ** The single-tool check *)

Section CheckProperties.

Context (P : Platform).

Implicit Types (tool : Tool) (st : State P) (r : Result).

Lemma statuses_distinct :
  StatusPass <> StatusFail /\ StatusPass <> StatusOptionalMissing /\
  StatusFail <> StatusOptionalMissing.
Proof. repeat split; discriminate. Qed.

(** [runCommand] hands back what the run captured, error or not. *)
Lemma runCommand_cmdRun (cmd : Cmd P) st :
  runCommand P cmd st = cmdRun P cmd st.
Proof.
  unfold runCommand, bind.
  destruct (cmdRun P cmd st) as [[output [e|]] st']; simpl; [|reflexivity].
  destruct (output =? "")%string eqn:E; simpl; [|reflexivity].
  apply String.eqb_eq in E. now subst.
Qed.

Lemma checkExistence_state tool r st :
  (checkExistence P tool r st).2 = st.
Proof. unfold checkExistence. now destruct (LookPath P _ _). Qed.

Lemma checkVersion_outcome tool st :
  VersionOutcome P tool st
    (ResultStatus (checkVersion P tool (newResult tool) st).1).
Proof.
  unfold checkVersion, bind.
  destruct (executeVersionCommand P tool st) as [[output [e|]] st1] eqn:He.
  - replace (ResultStatus _) with
      (if Optional tool then StatusOptionalMissing else StatusFail)
      by (simpl; now destruct (Optional tool)).
    eapply ProbeFailed. now rewrite He.
  - destruct (extractVersion P output (VersionPattern tool))
      as [version [e|]] eqn:Hx.
    { eapply ExtractionFailed; [now rewrite He | eassumption]. }
    destruct (NewConstraint P (Version tool)) as [c|e] eqn:Hc.
    2:{ eapply InvalidConstraint; [now rewrite He | eassumption..]. }
    destruct (NewVersion P version) as [iv|e] eqn:Hv.
    2:{ eapply InvalidVersion; [now rewrite He | eassumption..]. }
    destruct (ConstraintsCheck P c iv) eqn:Hk.
    { eapply Satisfied; [now rewrite He | eassumption..]. }
    replace (ResultStatus _) with
      (if Optional tool then StatusOptionalMissing else StatusFail)
      by (simpl; now destruct (Optional tool)).
    eapply NotSatisfied; [now rewrite He | eassumption..].
Qed.

Lemma Check_version tool st :
  Version tool <> "" ->
  Check P tool st = checkVersion P tool (newResult tool) st.
Proof.
  intros H. unfold Check.
  destruct (Version tool =? "")%string eqn:E; [|reflexivity].
  now apply String.eqb_eq in E.
Qed.

Lemma Check_existence tool st :
  Version tool = "" ->
  Check P tool st = checkExistence P tool (newResult tool) st.
Proof. intros H. unfold Check. now rewrite H. Qed.

Lemma downgraded_not_pass (b : bool) :
  (if b then StatusOptionalMissing else StatusFail) <> StatusPass.
Proof. now destruct b. Qed.

End CheckProperties.

Section Orchestrator.

Context (P : Platform).

Implicit Types (tool : Tool) (st : State P) (r : Result).

(** C1. For a descriptor with a version constraint the status is Pass
    exactly when the probe succeeded, the extraction succeeded, the
    constraint and the extracted version both parse and the version
    satisfies the constraint; in every other case it is Fail or
    OptionalMissing. *)
Theorem pass_iff_version_satisfies tool st :
  Version tool <> "" ->
  let status := ResultStatus (Check P tool st).1 in
  let satisfied :=
    exists output version constraint installedVer,
      (executeVersionCommand P tool st).1 = (output, None) /\
      extractVersion P output (VersionPattern tool) = (version, None) /\
      NewConstraint P (Version tool) = inl constraint /\
      NewVersion P version = inl installedVer /\
      ConstraintsCheck P constraint installedVer = true in
  (status = StatusPass <-> satisfied) /\
  (~ satisfied -> status = StatusFail \/ status = StatusOptionalMissing).
Proof.
  intros Hv status satisfied. subst status satisfied.
  rewrite (Check_version P tool st Hv).
  pose proof (checkVersion_outcome P tool st) as H.
  remember (ResultStatus (checkVersion P tool (newResult tool) st).1) as s.
  clear Heqs.
  assert (Hopt : forall b : bool,
             (if b then StatusOptionalMissing else StatusFail) = StatusFail \/
             (if b then StatusOptionalMissing else StatusFail)
             = StatusOptionalMissing)
    by (intros []; auto).
  destruct H as [o e He | o v e He Hx | o v e He Hx Hc | o v c e He Hx Hc Hn
                | o v c iv He Hx Hc Hn Hk | o v c iv He Hx Hc Hn Hk].
  - split; [split|auto].
    + intros Hs. now apply downgraded_not_pass in Hs.
    + intros (o' & v' & c' & iv' & He' & _). congruence.
  - split; [split|auto].
    + discriminate.
    + intros (o' & v' & c' & iv' & He' & Hx' & _). congruence.
  - split; [split|auto].
    + discriminate.
    + intros (o' & v' & c' & iv' & He' & Hx' & Hc' & _). congruence.
  - split; [split|auto].
    + discriminate.
    + intros (o' & v' & c' & iv' & He' & Hx' & Hc' & Hn' & _). congruence.
  - split; [split|].
    + intros _. now exists o, v, c, iv.
    + reflexivity.
    + intros Hno. exfalso. apply Hno. now exists o, v, c, iv.
  - split; [split|auto].
    + intros Hs. now apply downgraded_not_pass in Hs.
    + intros (o' & v' & c' & iv' & He' & Hx' & Hc' & Hn' & Hk'). congruence.
Qed.

(** C2. An optional descriptor gets OptionalMissing, not Fail, when the
    probe fails, when the constraint is not satisfied and when an
    existence-only check does not find the command; an extraction failure,
    an invalid constraint and an unparseable extracted version give Fail
    whatever the optional flag. *)
Theorem optional_downgrades_absence_only tool st :
  let status := ResultStatus (Check P tool st).1 in
  let downgraded :=
    if Optional tool then StatusOptionalMissing else StatusFail in
  (Version tool = "" ->
   LookPath P (CLI tool) (world st) = None -> status = downgraded) /\
  (Version tool <> "" ->
   (forall output e,
       (executeVersionCommand P tool st).1 = (output, Some e) ->
       status = downgraded) /\
   (forall output version constraint installedVer,
       (executeVersionCommand P tool st).1 = (output, None) ->
       extractVersion P output (VersionPattern tool) = (version, None) ->
       NewConstraint P (Version tool) = inl constraint ->
       NewVersion P version = inl installedVer ->
       ConstraintsCheck P constraint installedVer = false ->
       status = downgraded) /\
   (forall output v e,
       (executeVersionCommand P tool st).1 = (output, None) ->
       extractVersion P output (VersionPattern tool) = (v, Some e) ->
       status = StatusFail) /\
   (forall output version e,
       (executeVersionCommand P tool st).1 = (output, None) ->
       extractVersion P output (VersionPattern tool) = (version, None) ->
       NewConstraint P (Version tool) = inr e ->
       status = StatusFail) /\
   (forall output version e,
       (executeVersionCommand P tool st).1 = (output, None) ->
       extractVersion P output (VersionPattern tool) = (version, None) ->
       NewVersion P version = inr e ->
       status = StatusFail)).
Proof.
  intros status downgraded. subst status downgraded. split.
  { intros Hv Hl. rewrite (Check_existence P tool st Hv).
    unfold checkExistence. rewrite Hl. simpl. now destruct (Optional tool). }
  intros Hv.
  rewrite (Check_version P tool st Hv).
  pose proof (checkVersion_outcome P tool st) as H.
  remember (ResultStatus (checkVersion P tool (newResult tool) st).1) as s.
  clear Heqs.
  destruct H as [o e He | o v e He Hx | o v e He Hx Hc | o v c e He Hx Hc Hn
                | o v c iv He Hx Hc Hn Hk | o v c iv He Hx Hc Hn Hk];
    repeat split; intros; try reflexivity; congruence.
Qed.

Lemma checkExistence_outcome tool st :
  let r := (checkExistence P tool (newResult tool) st).1 in
  InstalledVersion r = "" /\ Output r = "" /\ ResultTool r = tool /\
  match LookPath P (CLI tool) (world st) with
  | Some path =>
      ResultStatus r = StatusPass /\ Path r = path /\ Error r = None
  | None =>
      ResultStatus r
      = (if Optional tool then StatusOptionalMissing else StatusFail) /\
      Error r = Some (CLI tool +:+ ": command not found") /\ Path r = ""
  end.
Proof.
  unfold checkExistence.
  destruct (LookPath P (CLI tool) (world st)) as [path|]; simpl.
  - repeat split.
  - destruct (Optional tool); repeat split.
Qed.

(** C8. Without a version constraint the check is the search-path
    resolution of the command alone: Pass with the resolved path when it
    resolves, otherwise Fail, or OptionalMissing for an optional
    descriptor, with the reason [<command>: command not found]; the
    installed version and the raw output stay empty and no command is
    run. *)
Theorem existence_only_check tool st :
  Version tool = "" ->
  let r := (Check P tool st).1 in
  (Check P tool st).2 = st /\
  InstalledVersion r = "" /\ Output r = "" /\ ResultTool r = tool /\
  match LookPath P (CLI tool) (world st) with
  | Some path =>
      ResultStatus r = StatusPass /\ Path r = path /\ Error r = None
  | None =>
      ResultStatus r
      = (if Optional tool then StatusOptionalMissing else StatusFail) /\
      Error r = Some (CLI tool +:+ ": command not found") /\ Path r = ""
  end.
Proof.
  intros Hv r. subst r. rewrite (Check_existence P tool st Hv).
  split; [apply checkExistence_state | apply checkExistence_outcome].
Qed.

Lemma checkVersion_tool tool st :
  ResultTool (checkVersion P tool (newResult tool) st).1 = tool.
Proof.
  unfold checkVersion, bind.
  destruct (executeVersionCommand P tool st) as [[output [e|]] st1].
  { simpl. now destruct (Optional tool). }
  destruct (extractVersion P output (VersionPattern tool)) as [v [e|]];
    [reflexivity|].
  destruct (NewConstraint P (Version tool)) as [c|e]; [|reflexivity].
  destruct (NewVersion P v) as [iv|e]; [|reflexivity].
  destruct (ConstraintsCheck P c iv); [reflexivity|].
  simpl. now destruct (Optional tool).
Qed.

Lemma Check_tool tool st : ResultTool (Check P tool st).1 = tool.
Proof.
  destruct (String.eqb_spec (Version tool) "") as [Hv|Hv].
  - rewrite (Check_existence P tool st Hv). apply checkExistence_outcome.
  - rewrite (Check_version P tool st Hv). apply checkVersion_tool.
Qed.

Lemma Check_wellFormed tool st : wellFormed (Check P tool st).1.
Proof.
  unfold wellFormed. rewrite Check_tool.
  destruct (String.eqb_spec (Version tool) "") as [Hv|Hv].
  - rewrite (Check_existence P tool st Hv).
    destruct (checkExistence_outcome tool st) as (_ & _ & _ & H).
    destruct (LookPath P (CLI tool) (world st)).
    + destruct H as (-> & _). split; [auto | discriminate].
    + destruct H as (-> & _). destruct (Optional tool); split; auto;
        discriminate.
  - rewrite (Check_version P tool st Hv).
    pose proof (checkVersion_outcome P tool st) as H.
    remember (ResultStatus (checkVersion P tool (newResult tool) st).1) as s.
    clear Heqs.
    destruct H; try (split; [auto | discriminate]);
      destruct (Optional tool); split; auto; discriminate.
Qed.

Lemma notInConfiguration_wellFormed name :
  wellFormed (notInConfiguration name).
Proof. split; [right; left; reflexivity | discriminate]. Qed.

Lemma HasPrefix_refl (p s : string) : HasPrefix (p +:+ s) p = true.
Proof.
  induction p as [|c p IH]; simpl; [now destruct s|].
  now rewrite Ascii.eqb_refl.
Qed.

Lemma Contains_app_r (a b p : string) :
  Contains b p = true -> Contains (a +:+ b) p = true.
Proof.
  intros H. induction a as [|c a IH]; simpl; [exact H|].
  rewrite IH. apply orb_true_r.
Qed.

Lemma notInConfiguration_reason name :
  exists reason,
    Error (notInConfiguration name) = Some reason /\
    reason = "tool '" +:+ name +:+ "' not found in configuration" /\
    Contains reason "not found in configuration" = true.
Proof.
  eexists. split; [reflexivity|]. split; [reflexivity|].
  apply (Contains_app_r "tool '"), Contains_app_r. reflexivity.
Qed.

Lemma checkFiltered_appends tools filter : forall results st,
  exists new,
    (checkFiltered P tools filter results st).1 = results ++ new /\
    Forall2 (requested P tools) filter new.
Proof.
  induction filter as [|name rest IH]; intros results st; simpl.
  { exists []. split; [now rewrite app_nil_r | constructor]. }
  destruct (tools !! name) as [tool|] eqn:Hl.
  - unfold bind. destruct (Check P tool st) as [r st1] eqn:Hc.
    destruct (IH (results ++ [r]) st1) as (new & -> & Hnew).
    exists (r :: new). split; [now rewrite <- app_assoc|].
    constructor; [|exact Hnew].
    unfold requested. rewrite Hl. exists st. now rewrite Hc.
  - destruct (IH (results ++ [notInConfiguration name]) st)
      as (new & -> & Hnew).
    exists (notInConfiguration name :: new).
    split; [now rewrite <- app_assoc|].
    constructor; [|exact Hnew]. unfold requested. now rewrite Hl.
Qed.

Lemma checkEach_appends entries : forall results st,
  exists new,
    (checkEach P entries results st).1 = results ++ new /\
    Forall2 (fun entry r => exists st', r = (Check P entry.2 st').1)
      entries new.
Proof.
  induction entries as [|[key tool] rest IH]; intros results st; simpl.
  { exists []. split; [now rewrite app_nil_r | constructor]. }
  unfold bind. destruct (Check P tool st) as [r st1] eqn:Hc.
  destruct (IH (results ++ [r]) st1) as (new & -> & Hnew).
  exists (r :: new). split; [now rewrite <- app_assoc|].
  constructor; [|exact Hnew]. exists st. simpl. now rewrite Hc.
Qed.

(** C7. With a non-empty list of requested keys the fan-out gives one
    outcome per key, in the order requested: the check of the key's
    descriptor, or, for a key the mapping does not have, a made-up Fail
    outcome whose reason contains [not found in configuration].  With an
    empty list it gives one outcome, the descriptor's check, for every
    entry of the mapping, whatever the statuses of the others. *)
Theorem CheckAll_fan_out (tools : gmap string Tool) (filter : list string) st :
  let results := (CheckAll P tools filter st).1 in
  (filter <> [] ->
   Forall2
     (fun name r =>
        match tools !! name with
        | Some tool =>
            ResultTool r = tool /\ exists st', r = (Check P tool st').1
        | None =>
            r = notInConfiguration name /\
            ResultStatus r = StatusFail /\
            Name (ResultTool r) = name /\
            exists reason,
              Error r = Some reason /\
              Contains reason "not found in configuration" = true
        end)
     filter results) /\
  (filter = [] ->
   exists entries,
     entries ≡ₚ map_to_list tools /\
     Forall2
       (fun entry r =>
          ResultTool r = entry.2 /\ exists st', r = (Check P entry.2 st').1)
       entries results).
Proof.
  intros results. subst results. unfold CheckAll. split.
  - intros Hne. destruct filter as [|name rest]; [contradiction|].
    change (0 <? length (name :: rest))%nat with true. cbv iota.
    destruct (checkFiltered_appends tools (name :: rest) [] st)
      as (new & -> & Hnew).
    rewrite app_nil_l.
    eapply Forall2_impl; [exact Hnew|].
    intros n r Hr. unfold requested in Hr.
    destruct (tools !! n) as [tool|].
    + destruct Hr as (st' & ->). split; [apply Check_tool | now exists st'].
    + subst r. split; [reflexivity|]. split; [reflexivity|].
      split; [reflexivity|].
      destruct (notInConfiguration_reason n) as (reason & He & _ & Hc).
      now exists reason.
  - intros ->. simpl.
    exists (rangeOrder P tools). split; [apply rangeOrder_perm|].
    destruct (checkEach_appends (rangeOrder P tools) [] st)
      as (new & -> & Hnew).
    rewrite app_nil_l.
    eapply Forall2_impl; [exact Hnew|].
    intros e r (st' & ->). split; [apply Check_tool | now exists st'].
Qed.

(** C10. Every outcome of the single-tool check and of the fan-out has one
    of the three statuses, which differ from one another, and an outcome
    is OptionalMissing only when its descriptor is optional; the made-up
    outcome for a key that is not in the configuration is a Fail for a
    descriptor that is not optional. *)
Theorem status_invariant (tools : gmap string Tool) (filter : list string)
    tool st :
  (StatusPass <> StatusFail /\ StatusPass <> StatusOptionalMissing /\
   StatusFail <> StatusOptionalMissing) /\
  wellFormed (Check P tool st).1 /\
  Forall wellFormed (CheckAll P tools filter st).1 /\
  (forall name,
      ResultStatus (notInConfiguration name) = StatusFail /\
      Optional (ResultTool (notInConfiguration name)) = false).
Proof.
  split; [apply statuses_distinct|].
  split; [apply Check_wellFormed|].
  split; [|now intros name].
  unfold CheckAll. destruct (0 <? length filter)%nat.
  - destruct (checkFiltered_appends tools filter [] st) as (new & -> & Hnew).
    rewrite app_nil_l. clear -Hnew.
    induction Hnew as [|name r rest new Hr _ IH]; constructor; [|exact IH].
    unfold requested in Hr. destruct (tools !! name).
    + destruct Hr as (st' & ->). apply Check_wellFormed.
    + subst r. apply notInConfiguration_wellFormed.
  - destruct (checkEach_appends (rangeOrder P tools) [] st)
      as (new & -> & Hnew).
    rewrite app_nil_l. clear -Hnew.
    induction Hnew as [|e r rest new Hr _ IH]; constructor; [|exact IH].
    destruct Hr as (st' & ->). apply Check_wellFormed.
Qed.

End Orchestrator.

(** ** The version prober *)

Section Prober.

Context (P : Platform).

Implicit Types (tool : Tool) (st : State P).

Lemma smartGuess_cons ctx cli args rest st :
  smartGuess P ctx cli (args :: rest) st
  = let run := Run P ctx cli args (world st) in
    let st1 := {| world := run.2;
                  spawned := spawned st ++ [CommandContext P ctx cli args] |} in
    if qualifies P run.1.1 then (Some run.1.1, st1)
    else smartGuess P ctx cli rest st1.
Proof.
  simpl. unfold bind. rewrite runCommand_cmdRun.
  unfold cmdRun, CommandContext. cbn [cmdCtx cmdName cmdArgs].
  destruct (Run P ctx cli args (world st)) as [[output err] w'].
  unfold qualifies. cbn [fst snd].
  now destruct (negb (output =? "")%string && looksLikeVersionOutput P output).
Qed.

Lemma smartGuess_first_qualifying ctx cli argSets : forall st,
  let tries := attempts P ctx cli argSets (world st) in
  let found := (smartGuess P ctx cli argSets st).1 in
  let ran := spawned (smartGuess P ctx cli argSets st).2 in
  (exists before cmd output after,
      tries = before ++ (cmd, output) :: after /\
      Forall (fun try => qualifies P try.2 = false) before /\
      qualifies P output = true /\
      found = Some output /\
      ran = spawned st ++ map fst before ++ [cmd]) \/
  (Forall (fun try => qualifies P try.2 = false) tries /\
   found = None /\
   ran = spawned st ++ map fst tries).
Proof.
  induction argSets as [|args rest IH]; intros st.
  { right. simpl. split; [constructor|]. split; [reflexivity|].
    now rewrite app_nil_r. }
  rewrite smartGuess_cons. cbn [attempts].
  destruct (Run P ctx cli args (world st)) as [[output err] w'] eqn:Hrun.
  cbn [fst snd].
  destruct (qualifies P output) eqn:Hq.
  - left. exists [], (CommandContext P ctx cli args), output,
      (attempts P ctx cli rest w').
    split; [reflexivity|]. split; [constructor|]. split; [exact Hq|].
    split; reflexivity.
  - specialize (IH {| world := w';
                      spawned := spawned st ++ [CommandContext P ctx cli args]
                   |}).
    simpl in IH.
    destruct IH as [(before & cmd & out & after & Ht & Hb & Hqo & Hf & Hr)
                   | (Hall & Hf & Hr)].
    + left. exists ((CommandContext P ctx cli args, output) :: before),
        cmd, out, after.
      split; [now rewrite Ht|]. split; [now constructor|].
      split; [exact Hqo|]. split; [exact Hf|].
      rewrite Hr. simpl. now rewrite <- app_assoc.
    + right. split; [now constructor|]. split; [exact Hf|].
      rewrite Hr. simpl. now rewrite <- app_assoc.
Qed.

Lemma attempts_commands ctx cli argSets : forall w,
  map fst (attempts P ctx cli argSets w)
  = map (CommandContext P ctx cli) argSets.
Proof.
  induction argSets as [|args rest IH]; intros w; simpl; [reflexivity|].
  destruct (Run P ctx cli args w) as [[output err] w']. simpl.
  now rewrite IH.
Qed.

Lemma executeVersionCommand_guess tool st :
  VersionArg tool = "" ->
  executeVersionCommand P tool st
  = let ctx := WithTimeout P 5000 (world st) in
    let guess := smartGuess P ctx (CLI tool) commonVersionArgs st in
    (match guess.1 with
     | Some output => (output, None)
     | None => ("", Some (CLI tool +:+ ": failed to get version"))
     end, guess.2).
Proof.
  intros Hv. unfold executeVersionCommand, bind, withTimeout.
  rewrite Hv. change (negb ("" =? "")%string) with false.
  cbv beta iota zeta.
  destruct (smartGuess P (WithTimeout P 5000 (world st)) (CLI tool)
              commonVersionArgs st) as [[output|] st']; reflexivity.
Qed.

(** C4. Without explicit probe arguments the prober runs the command with
    [--version], [version], [-v], [-V], [--version-short], [-version], in
    that order and under one context; it stops at the first run whose
    captured output is not empty and looks like version text, whatever the
    error of the run, and returns that output; when none of the six
    qualifies it fails with [<command>: failed to get version]. *)
Theorem smart_guess_order tool st :
  VersionArg tool = "" ->
  let ctx := WithTimeout P 5000 (world st) in
  let tries := attempts P ctx (CLI tool) commonVersionArgs (world st) in
  let answer := (executeVersionCommand P tool st).1 in
  let ran := spawned (executeVersionCommand P tool st).2 in
  map fst tries
  = map (fun args => CommandContext P ctx (CLI tool) args)
      [ ["--version"]; ["version"]; ["-v"]; ["-V"]; ["--version-short"];
        ["-version"] ] /\
  ((exists before cmd output after,
       tries = before ++ (cmd, output) :: after /\
       Forall (fun try => qualifies P try.2 = false) before /\
       output <> "" /\ looksLikeVersionOutput P output = true /\
       answer = (output, None) /\
       ran = spawned st ++ map fst before ++ [cmd]) \/
   (Forall (fun try => qualifies P try.2 = false) tries /\
    answer = ("", Some (CLI tool +:+ ": failed to get version")) /\
    ran = spawned st ++ map fst tries)).
Proof.
  intros Hv ctx tries answer ran. subst answer ran.
  split; [apply attempts_commands|].
  rewrite (executeVersionCommand_guess tool st Hv). cbv zeta. cbn [fst snd].
  fold ctx.
  destruct (smartGuess_first_qualifying ctx (CLI tool) commonVersionArgs st)
    as [(before & cmd & out & after & Ht & Hb & Hq & Hf & Hr)
       | (Hall & Hf & Hr)].
  - left. exists before, cmd, out, after.
    unfold qualifies in Hq. apply andb_true_iff in Hq as [Hne Hlook].
    split; [exact Ht|]. split; [exact Hb|].
    split. { intros ->. discriminate. }
    split; [exact Hlook|]. split; [now rewrite Hf | exact Hr].
  - right. split; [exact Hall|]. split; [now rewrite Hf | exact Hr].
Qed.

(** With explicit probe arguments the command is run once, with the
    arguments split at white space; the probe succeeds with the captured
    text exactly when the run reports no error, and any error of the run,
    captured text or not, is a probe failure named after the command. *)
Lemma executeVersionCommand_explicit tool st :
  VersionArg tool <> "" ->
  executeVersionCommand P tool st
  = let ctx := WithTimeout P 5000 (world st) in
    let args := Fields (VersionArg tool) in
    let run := Run P ctx (CLI tool) args (world st) in
    (match run.1.2 with
     | None => (run.1.1, None)
     | Some e => ("", Some (CLI tool +:+ ": " +:+ e))
     end,
     {| world := run.2;
        spawned := spawned st ++ [CommandContext P ctx (CLI tool) args] |}).
Proof.
  intros Hv. cbv zeta. unfold executeVersionCommand, bind, withTimeout.
  destruct (VersionArg tool =? "")%string eqn:E.
  { now apply String.eqb_eq in E. }
  cbv beta iota zeta. cbn [negb]. rewrite runCommand_cmdRun.
  unfold cmdRun, CommandContext. cbn [cmdCtx cmdName cmdArgs].
  destruct (Run P (WithTimeout P 5000 (world st)) (CLI tool)
              (Fields (VersionArg tool)) (world st)) as [[output [e|]] w'];
    reflexivity.
Qed.


End Prober.

(** ** The probe on the simulated platform: time *)

Section Timed.

Import Sim.

Lemma Run_expired (deadline : Context_ platform) name args
    (w : World platform) :
  deadline <= clock w ->
  exists e, Run platform deadline name args w = (("", Some e), w).
Proof.
  intros H. cbn [Run platform]. unfold simRun.
  destruct (program w name args) as [b|]; [|eauto].
  apply Nat.leb_le in H. rewrite H. eauto.
Qed.

(** Once the deadline is reached every further run fails at once without
    output, and the guess finds nothing. *)
Lemma smartGuess_expired deadline cli argSets : forall st : State platform,
  deadline <= clock (world st) ->
  (smartGuess platform deadline cli argSets st).1 = None /\
  world (smartGuess platform deadline cli argSets st).2 = world st.
Proof.
  induction argSets as [|args rest IH]; intros st Hle; [now split|].
  rewrite smartGuess_cons. cbv zeta.
  destruct (Run_expired deadline cli args (world st) Hle) as (e & ->).
  cbn [fst snd]. change (qualifies platform "") with false. cbv iota.
  apply (IH (@Build_State platform (world st) _)). exact Hle.
Qed.

Lemma Run_killed (deadline : Context_ platform) name args
    (w : World platform) b :
  program w name args = Some b ->
  clock w < deadline < clock w + duration b ->
  Run platform deadline name args w
  = ((printedWhenKilled b, Some "signal: killed"),
     tick (deadline + lingers b) w).
Proof.
  intros Hb [H1 H2]. cbn [Run platform]. unfold simRun. rewrite Hb.
  apply Nat.leb_gt in H1, H2. now rewrite H1, H2.
Qed.

(** An attempt still running at the deadline is killed there, and unless
    what it had printed qualifies the guess finds nothing, whatever
    argument sets remain. *)
Lemma smartGuess_killed deadline cli args rest (st : State platform) b :
  program (world st) cli args = Some b ->
  clock (world st) < deadline < clock (world st) + duration b ->
  qualifies platform (printedWhenKilled b) = false ->
  (smartGuess platform deadline cli (args :: rest) st).1 = None.
Proof.
  intros Hb Hlate Hq. rewrite smartGuess_cons. cbv zeta.
  rewrite (Run_killed deadline cli args (world st) b Hb Hlate).
  cbn [fst snd]. rewrite Hq.
  apply (smartGuess_expired deadline cli rest
           (@Build_State platform
              (tick (deadline + lingers b) (world st)) _)).
  cbn [world clock tick]. lia.
Qed.


End Timed.

(** ** Scenarios on the simulated machine *)

Section Scenarios.

Import Sim.

(** [go] answers [go version] with 1.20.0, which satisfies [>=1.18]. *)
Lemma pass_iff_version_satisfies_witness :
  Version goTool <> "" /\
  ResultStatus (Check platform goTool start).1 = StatusPass.
Proof.
  split; [discriminate|].
  destruct (pass_iff_version_satisfies platform goTool start)
    as [[_ Hpass] _]; [discriminate|].
  apply Hpass.
  exists "go version go1.20.0 darwin/amd64", "1.20.0",
    (GreaterEq, (1, 18, 0)), (1, 20, 0).
  repeat split.
Defined.

(** An optional tool whose probe fails, and an optional command that is
    not on the search path, are OptionalMissing. *)
Lemma optional_downgrades_absence_only_witness :
  ResultStatus (Check platform slowTool start).1 = StatusOptionalMissing /\
  ResultStatus (Check platform absentTool start).1 = StatusOptionalMissing.
Proof.
  split.
  - destruct (optional_downgrades_absence_only platform slowTool start)
      as [_ H].
    destruct H as (Hprobe & _); [discriminate|].
    apply (Hprobe "" "slowtool: failed to get version"). reflexivity.
  - destruct (optional_downgrades_absence_only platform absentTool start)
      as [H _].
    apply H; reflexivity.
Defined.

(** C3.  The code on [kubeconform] with the explicit argument [-v]:
    [kubeconform -v] prints [v0.6.1] and exits with status 1, and
    [runCommand] hands the text back with the error.  The probe with the
    explicit argument drops the text and fails with
    [kubeconform: exit status 1], so that the check fails; the smart guess
    accepts the text of the very same run. *)
Theorem explicit_probe_drops_captured_text :
  let ctx := WithTimeout platform 5000 machine in
  let guessed := tool "kubeconform" ">=0.1" "" false in
  (runCommand platform (CommandContext platform ctx "kubeconform" ["-v"])
     start).1 = ("v0.6.1", Some "exit status 1") /\
  VersionArg kubeconformTool = "-v" /\
  (executeVersionCommand platform kubeconformTool start).1
  = ("", Some "kubeconform: exit status 1") /\
  ResultStatus (Check platform kubeconformTool start).1 = StatusFail /\
  Error (Check platform kubeconformTool start).1
  = Some "kubeconform: exit status 1" /\
  (executeVersionCommand platform guessed start).1 = ("v0.6.1", None) /\
  ResultStatus (Check platform guessed start).1 = StatusPass.
Proof. cbv zeta. repeat split; vm_compute; reflexivity. Qed.

(** Captured text does not make the probe with explicit arguments
    succeed. *)
Lemma captured_text_is_not_enough :
  ~ (forall (P : Platform) (tool : Tool) (st : State P),
        VersionArg tool <> "" ->
        let run := Run P (WithTimeout P 5000 (world st)) (CLI tool)
                     (Fields (VersionArg tool)) (world st) in
        run.1.1 <> "" ->
        (executeVersionCommand P tool st).1 = (run.1.1, None)).
Proof.
  intros H.
  specialize (H platform kubeconformTool start).
  vm_compute in H.
  specialize (H ltac:(discriminate) ltac:(discriminate)). discriminate H.
Qed.

(** The six commands of the smart guess for [go]. *)
Lemma smart_guess_order_witness :
  VersionArg goTool = "" /\
  map (fun try => cmdArgs try.1)
    (attempts platform (WithTimeout platform 5000 machine) "go"
       commonVersionArgs machine)
  = [ ["--version"]; ["version"]; ["-v"]; ["-V"]; ["--version-short"];
      ["-version"] ].
Proof.
  split; [reflexivity|].
  destruct (smart_guess_order platform goTool start eq_refl) as [Hcmds _].
  change (map (fun try => cmdArgs try.1) ?l) with (map cmdArgs (map fst l)).
  cbn [world start CLI goTool Sim.tool] in Hcmds. rewrite Hcmds. reflexivity.
Defined.

(** The fan-out scenario of the specification: a mapping with [go] only,
    and [unknown] requested. *)
Lemma CheckAll_fan_out_witness :
  ["unknown"] <> [] /\
  (CheckAll platform {[ "go" := goTool ]} ["unknown"] start).1
  = [notInConfiguration "unknown"].
Proof.
  split; [discriminate|].
  destruct (CheckAll_fan_out platform {[ "go" := goTool ]} ["unknown"] start)
    as [H _].
  specialize (H ltac:(discriminate)).
  inversion H as [|name r names rs Hr Hrest Hn Hrs]. subst.
  inversion Hrest. subst.
  rewrite lookup_singleton_ne in Hr by discriminate.
  destruct Hr as [-> _]. reflexivity.
Defined.

(** An optional command that is not on the search path. *)
Lemma existence_only_check_witness :
  Version absentTool = "" /\
  ResultStatus (Check platform absentTool start).1 = StatusOptionalMissing /\
  Error (Check platform absentTool start).1
  = Some "nope: command not found".
Proof.
  split; [reflexivity|].
  destruct (existence_only_check platform absentTool start eq_refl)
    as (_ & _ & _ & _ & H).
  simpl in H. destruct H as (H1 & H2 & _). now split.
Defined.


(** [slowtool --version] is killed at the deadline; the five argument
    sets that remain are run all the same, and each fails at once, the
    context being done: [slowtool version], which answers in 100 ms, gets
    no time. *)
Example timed_out_attempt :
  let ctx := WithTimeout platform 5000 machine in
  let probe := executeVersionCommand platform slowTool start in
  map (fun try => (cmdArgs try.1, try.2))
    (attempts platform ctx "slowtool" commonVersionArgs machine)
  = [ (["--version"], ""); (["version"], ""); (["-v"], ""); (["-V"], "");
      (["--version-short"], ""); (["-version"], "") ] /\
  (Run platform ctx "slowtool" ["--version"] machine).1
  = ("", Some "signal: killed") /\
  (Run platform ctx "slowtool" ["version"] (tick 5000 machine)).1
  = ("", Some "context deadline exceeded") /\
  probe.1 = ("", Some "slowtool: failed to get version") /\
  length (spawned probe.2) = 6 /\
  clock (world probe.2) = 5000.
Proof. cbv zeta. repeat split; vm_compute; reflexivity. Qed.

(** The probe may outlast its 5 seconds: [wrapper --version], killed at
    the deadline, leaves a child that keeps the pipe open for 3 seconds
    more, and the run returns only then. *)
Example probe_outlasts_the_deadline :
  let probe := executeVersionCommand platform wrapperTool start in
  probe.1 = ("", Some "wrapper: failed to get version") /\
  clock (world probe.2) = 5000 + 3000.
Proof. cbv zeta. split; vm_compute; reflexivity. Qed.

(** The heuristic boundary of the specification. *)
Example heuristic_boundary :
  looksLikeVersionOutput platform "go version go1.20.0 darwin/amd64" = true /\
  extractVersion platform "go version go1.20.0 darwin/amd64" ""
  = ("1.20.0", None) /\
  looksLikeVersionOutput platform "Usage: tool [options]" = false /\
  looksLikeVersionOutput platform
    (string_of_list_ascii (replicate 300 "a"%char)) = false.
Proof. repeat split; vm_compute; reflexivity. Qed.

(** A constraint that is not satisfied: Fail, the installed version kept. *)
Example constraint_not_satisfied :
  let r := (Check platform (Sim.tool "go" ">=999.0.0" "" false) start).1 in
  ResultStatus r = StatusFail /\ InstalledVersion r = "1.20.0".
Proof. split; vm_compute; reflexivity. Qed.

(** Left to the smart guess, [kubeconform] passes: its [-v] qualifies. *)
Example kubeconform_guessed :
  let r := (Check platform (Sim.tool "kubeconform" ">=0.1" "" false) start).1 in
  ResultStatus r = StatusPass /\ InstalledVersion r = "0.6.1" /\
  map cmdArgs (spawned (Check platform
                          (Sim.tool "kubeconform" ">=0.1" "" false) start).2)
  = [ ["--version"]; ["version"]; ["-v"] ].
Proof. repeat split; vm_compute; reflexivity. Qed.

End Scenarios.

(** * More properties of the checker *)

(** The stages of [checkVersion], one goal for each way it ends. *)
Ltac version_cases tool st :=
  unfold checkVersion, bind;
  destruct (executeVersionCommand _ tool st)
    as [[?output [?e|]] ?st1] eqn:?Hprobe; cbn [fst snd];
  [| destruct (extractVersion _ _ (VersionPattern tool))
       as [?version [?e|]] eqn:?Hx;
     [| destruct (NewConstraint _ (Version tool)) as [?c|?e] eqn:?Hc;
        [ destruct (NewVersion _ _) as [?iv|?e] eqn:?Hv;
          [ destruct (ConstraintsCheck _ _ _) eqn:?Hk |] |]]].

Section CheckerExtras.

Import Text.
Context (P : Platform).
Implicit Types (tool : Tool) (st : State P) (r : Result).

Lemma Check_passHasNoError tool st : passHasNoError (Check P tool st).1.
Proof.
  unfold passHasNoError.
  destruct (String.eqb_spec (Version tool) "") as [Hv|Hv].
  - rewrite (Check_existence P tool st Hv). unfold checkExistence.
    destruct (LookPath P (CLI tool) (world st)); cbn; [tauto|].
    destruct (Optional tool); cbn; discriminate.
  - rewrite (Check_version P tool st Hv).
    version_cases tool st; cbn; try destruct (Optional tool); cbn;
      try discriminate; reflexivity.
Qed.

(** X1.  An outcome that is a Pass carries no failure reason: the single
    check and every outcome of the fan-out. *)
Theorem pass_has_no_error (tools : gmap string Tool) (filter : list string)
    tool st :
  passHasNoError (Check P tool st).1 /\
  Forall passHasNoError (CheckAll P tools filter st).1.
Proof.
  split; [apply Check_passHasNoError|].
  unfold CheckAll. destruct (0 <? length filter)%nat.
  - destruct (checkFiltered_appends P tools filter [] st) as (new & -> & Hnew).
    rewrite app_nil_l. clear -Hnew.
    induction Hnew as [|name r rest new Hr _ IH]; constructor; [|exact IH].
    unfold requested in Hr. destruct (tools !! name).
    + destruct Hr as (st' & ->). apply Check_passHasNoError.
    + subst r. discriminate.
  - destruct (checkEach_appends P (rangeOrder P tools) [] st)
      as (new & -> & Hnew).
    rewrite app_nil_l. clear -Hnew.
    induction Hnew as [|e r rest new Hr _ IH]; constructor; [|exact IH].
    destruct Hr as (st' & ->). apply Check_passHasNoError.
Qed.

(** X2.  A failure without a reason is an unsatisfied constraint. *)
Theorem unsatisfied_constraint_has_no_reason tool st :
  let r := (Check P tool st).1 in
  (ResultStatus r <> StatusPass /\ Error r = None) <->
  (Version tool <> "" /\
   exists output version constraint installedVer,
     (executeVersionCommand P tool st).1 = (output, None) /\
     extractVersion P output (VersionPattern tool) = (version, None) /\
     NewConstraint P (Version tool) = inl constraint /\
     NewVersion P version = inl installedVer /\
     ConstraintsCheck P constraint installedVer = false).
Proof.
  cbv zeta. destruct (String.eqb_spec (Version tool) "") as [Hv|Hv].
  - rewrite (Check_existence P tool st Hv). unfold checkExistence. split.
    + destruct (LookPath P (CLI tool) (world st)); cbn.
      * intros [H _]. now destruct H.
      * intros [_ H]. discriminate H.
    + intros [H _]. contradiction.
  - rewrite (Check_version P tool st Hv).
    version_cases tool st; cbn [fst snd ResultStatus Error setStatus setError
      setOutput setInstalledVersion newResult ret];
      try destruct (Optional tool);
      cbn [fst snd ResultStatus Error setStatus setError
      setOutput setInstalledVersion newResult ret].
    all: split;
      [ intros [Hs He]
      | intros (_ & o' & v' & c' & iv' & Ho & Hx' & Hc' & Hv' & Hk') ].
    all: try discriminate He.
    all: try (exfalso; now apply Hs).
    all: try (split; [exact Hv|]; eauto 10).
    all: simplify_eq.
    all: try congruence.
    all: try (split; [discriminate | reflexivity]).
Qed.

(** X3.  The outcome of a version check has no resolved path; it has the
    captured text exactly when the probe succeeded and the installed
    version exactly when the extraction succeeded too; and the check
    leaves the state the probe left. *)
Theorem version_check_fields tool st :
  Version tool <> "" ->
  let r := (Check P tool st).1 in
  let probe := (executeVersionCommand P tool st).1 in
  let extraction := extractVersion P probe.1 (VersionPattern tool) in
  (Check P tool st).2 = (executeVersionCommand P tool st).2 /\
  Path r = "" /\
  Output r = match probe.2 with Some _ => "" | None => probe.1 end /\
  InstalledVersion r
  = match probe.2, extraction.2 with
    | None, None => extraction.1
    | _, _ => ""
    end.
Proof.
  intros Hv. cbv zeta. rewrite (Check_version P tool st Hv).
  version_cases tool st; cbn; try destruct (Optional tool); cbn;
    rewrite ?Hx; cbn; repeat split.
Qed.

(** What a probe returns: on failure no text and a reason that starts with
    the command; the commands it ran are all for the command of the
    descriptor, one with explicit arguments, one to six without. *)
Lemma probe_shape tool st :
  let probe := executeVersionCommand P tool st in
  match probe.1.2 with
  | Some e => probe.1.1 = "" /\ exists detail, e = CLI tool +:+ ": " +:+ detail
  | None => VersionArg tool = "" -> qualifies P probe.1.1 = true
  end /\
  exists ran,
    spawned probe.2 = spawned st ++ ran /\
    Forall (fun cmd => cmdName cmd = CLI tool) ran /\
    1 <= length ran <= 6 /\
    (VersionArg tool <> "" -> length ran = 1).
Proof.
  cbv zeta. destruct (String.eqb_spec (VersionArg tool) "") as [Hv|Hv].
  - rewrite (executeVersionCommand_guess P tool st Hv). cbv zeta.
    cbn [fst snd].
    destruct (smartGuess_first_qualifying P (WithTimeout P 5000 (world st))
                (CLI tool) commonVersionArgs st)
      as [(before & cmd & out & after & Ht & Hb & Hq & -> & ->)
         | (Hall & -> & ->)]; cbn [fst snd].
    + split; [now intros _|].
      pose proof (attempts_commands P (WithTimeout P 5000 (world st))
                    (CLI tool) commonVersionArgs (world st)) as Hcmds.
      rewrite Ht in Hcmds. rewrite map_app in Hcmds. cbn [map fst] in Hcmds.
      exists (map fst before ++ [cmd]). split; [reflexivity|].
      assert (Hlen : length (map fst before ++ [cmd]) <= 6).
      { apply (f_equal (@length _)) in Hcmds.
        rewrite length_app, !length_map in Hcmds. cbn in Hcmds.
        rewrite length_app, length_map. cbn. lia. }
      split; [|split; [split; [rewrite length_app; cbn; lia | exact Hlen]
                      | contradiction]].
      assert (Hall : Forall (fun c : Cmd P => cmdName c = CLI tool)
                       (map fst before ++ cmd :: map fst after)).
      { rewrite Hcmds. apply Forall_forall. intros c Hin.
        apply list_elem_of_In, in_map_iff in Hin as (args & <- & _).
        reflexivity. }
      apply Forall_app in Hall as [H1 H2]. apply Forall_cons in H2 as [H2 _].
      apply Forall_app. split; [exact H1|]. now constructor.
    + split. { split; [reflexivity | eauto]. }
      rewrite (attempts_commands P). exists
        (map (CommandContext P (WithTimeout P 5000 (world st)) (CLI tool))
           commonVersionArgs).
      split; [reflexivity|]. split; [|split; [cbn; lia | contradiction]].
      apply Forall_forall. intros c Hin.
      apply list_elem_of_In, in_map_iff in Hin as (args & <- & _). reflexivity.
  - rewrite (executeVersionCommand_explicit P tool st Hv). cbv zeta.
    cbn [fst snd spawned]. split.
    + destruct (Run P _ _ _ _) as [[out [e|]] w]; cbn [fst snd];
        [split; [reflexivity | eauto] | contradiction].
    + eexists. split; [reflexivity|].
      split; [now constructor | split; [cbn; lia | reflexivity]].
Qed.

Lemma checkVersion_state tool r st :
  (checkVersion P tool r st).2 = (executeVersionCommand P tool st).2.
Proof.
  version_cases tool st; reflexivity.
Qed.

Lemma Check_runs tool st :
  exists ran,
    spawned (Check P tool st).2 = spawned st ++ ran /\
    Forall (fun cmd => cmdName cmd = CLI tool) ran /\
    length ran <= 6 /\
    (ran <> [] -> Version tool <> "").
Proof.
  destruct (String.eqb_spec (Version tool) "") as [Hv|Hv].
  - rewrite (Check_existence P tool st Hv), checkExistence_state.
    exists []. rewrite app_nil_r.
    split; [reflexivity|]. split; [constructor|]. split; [cbn; lia | easy].
  - rewrite (Check_version P tool st Hv), checkVersion_state.
    destruct (probe_shape tool st) as (_ & ran & Hs & Hall & Hlen & _).
    exists ran. split; [exact Hs|]. split; [exact Hall|].
    split; [lia | now intros _].
Qed.

Lemma checkFiltered_runs tools filter : forall results st,
  exists ran,
    spawned (checkFiltered P tools filter results st).2 = spawned st ++ ran /\
    Forall (fun cmd => exists key tool,
                tools !! key = Some tool /\ In key filter /\
                Version tool <> "" /\ cmdName cmd = CLI tool) ran /\
    length ran <= 6 * length filter.
Proof.
  induction filter as [|name rest IH]; intros results st.
  { exists []. rewrite app_nil_r. split; [reflexivity|].
    split; [constructor | cbn; lia]. }
  cbn [checkFiltered]. destruct (tools !! name) as [tool|] eqn:Hl.
  - unfold bind. destruct (Check P tool st) as [r st1] eqn:Hc.
    destruct (Check_runs tool st) as (ran1 & Hs1 & Hall1 & Hlen1 & Hne).
    rewrite Hc in Hs1. cbn [snd] in Hs1.
    destruct (IH (results ++ [r]) st1) as (ran2 & Hs2 & Hall2 & Hlen2).
    exists (ran1 ++ ran2). rewrite Hs2, Hs1, <- app_assoc.
    split; [reflexivity|]. split.
    + apply Forall_app. split.
      * destruct ran1 as [|c0 ran1]; [constructor|].
        eapply Forall_impl; [exact Hall1|]. intros c Hcn. cbn beta in Hcn.
        exists name, tool. split; [exact Hl|]. split; [now left|].
        split; [now apply Hne | exact Hcn].
      * eapply Forall_impl; [exact Hall2|].
        intros c (key & t & Hk & Hin & Hver & Hcn).
        exists key, t. split; [exact Hk|]. split; [now right|]. now split.
    + rewrite length_app. cbn [length]. lia.
  - destruct (IH (results ++ [notInConfiguration name]) st)
      as (ran & Hs & Hall & Hlen).
    exists ran. split; [exact Hs|]. split.
    + eapply Forall_impl; [exact Hall|].
      intros c (key & t & Hk & Hin & Hver & Hcn).
      exists key, t. split; [exact Hk|]. split; [now right|]. now split.
    + cbn [length]. lia.
Qed.

Lemma checkEach_runs entries : forall results st,
  exists ran,
    spawned (checkEach P entries results st).2 = spawned st ++ ran /\
    Forall (fun cmd => exists entry,
                In entry entries /\
                Version entry.2 <> "" /\ cmdName cmd = CLI entry.2) ran /\
    length ran <= 6 * length entries.
Proof.
  induction entries as [|[key tool] rest IH]; intros results st.
  { exists []. rewrite app_nil_r. split; [reflexivity|].
    split; [constructor | cbn; lia]. }
  cbn [checkEach]. unfold bind. destruct (Check P tool st) as [r st1] eqn:Hc.
  destruct (Check_runs tool st) as (ran1 & Hs1 & Hall1 & Hlen1 & Hne).
  rewrite Hc in Hs1. cbn [snd] in Hs1.
  destruct (IH (results ++ [r]) st1) as (ran2 & Hs2 & Hall2 & Hlen2).
  exists (ran1 ++ ran2). rewrite Hs2, Hs1, <- app_assoc.
  split; [reflexivity|]. split.
  - apply Forall_app. split.
    + destruct ran1 as [|c0 ran1]; [constructor|].
      eapply Forall_impl; [exact Hall1|]. intros c Hcn. cbn beta in Hcn.
      exists (key, tool). split; [now left|]. split; [now apply Hne|exact Hcn].
    + eapply Forall_impl; [exact Hall2|].
      intros c (e & Hin & Hver & Hcn). exists e. split; [now right|].
      now split.
  - rewrite length_app. cbn [length]. lia.
Qed.

(** X5.  The fan-out only adds to the commands run, and every command it
    runs is the program of a configured descriptor that has a version
    constraint and that the filter lets through; there are at most six
    for an outcome. *)
Theorem CheckAll_runs_configured_commands (tools : gmap string Tool)
    (filter : list string) st :
  exists ran,
    spawned (CheckAll P tools filter st).2 = spawned st ++ ran /\
    Forall (configuredCommand P tools filter) ran /\
    length ran <= 6 * length (CheckAll P tools filter st).1.
Proof.
  unfold CheckAll. destruct filter as [|name rest].
  - cbn [length Nat.ltb Nat.leb].
    destruct (checkEach_runs (rangeOrder P tools) [] st)
      as (ran & Hs & Hall & Hlen).
    exists ran. split; [exact Hs|]. split.
    + eapply Forall_impl; [exact Hall|].
      intros c ([key tool] & Hin & Hver & Hcn).
      exists key, tool. split.
      * apply elem_of_map_to_list. rewrite <- (rangeOrder_perm P tools).
        now apply list_elem_of_In.
      * split; [now left | now split].
    + destruct (checkEach_appends P (rangeOrder P tools) [] st)
        as (new & -> & Hnew).
      apply Forall2_length in Hnew. rewrite app_nil_l, <- Hnew. exact Hlen.
  - change (0 <? length (name :: rest))%nat with true. cbv iota.
    destruct (checkFiltered_runs tools (name :: rest) [] st)
      as (ran & Hs & Hall & Hlen).
    exists ran. split; [exact Hs|]. split.
    + eapply Forall_impl; [exact Hall|].
      intros c (key & t & Hk & Hin & Hver & Hcn).
      exists key, t. split; [exact Hk|]. split; [now right | now split].
    + destruct (checkFiltered_appends P tools (name :: rest) [] st)
        as (new & -> & Hnew).
      apply Forall2_length in Hnew. rewrite app_nil_l, <- Hnew. exact Hlen.
Qed.

(** X4.  The failure reasons of a single check, stage by stage. *)
Theorem failure_reasons tool st (reason : string) :
  let r := (Check P tool st).1 in
  Error r = Some reason ->
  ResultStatus r <> StatusPass /\
  ((Version tool = "" /\ LookPath P (CLI tool) (world st) = None /\
    reason = CLI tool +:+ ": command not found") \/
   (Version tool <> "" /\
    ((exists detail,
         (executeVersionCommand P tool st).1
         = ("", Some (CLI tool +:+ ": " +:+ detail)) /\
         reason = CLI tool +:+ ": " +:+ detail) \/
     (exists output,
         (executeVersionCommand P tool st).1 = (output, None) /\
         Output r = output /\
         ((exists v detail,
              extractVersion P output (VersionPattern tool)
              = (v, Some detail) /\
              reason = "failed to extract version: " +:+ detail) \/
          (exists version,
              extractVersion P output (VersionPattern tool)
              = (version, None) /\
              InstalledVersion r = version /\
              ((exists detail,
                   NewConstraint P (Version tool) = inr detail /\
                   reason = "invalid version constraint '" +:+ Version tool
                            +:+ "': " +:+ detail) \/
               (exists detail,
                   NewVersion P version = inr detail /\
                   reason = "failed to parse installed version '"
                            +:+ version +:+ "': " +:+ detail)))))))).
Proof.
  cbv zeta. destruct (String.eqb_spec (Version tool) "") as [Hv|Hv].
  - rewrite (Check_existence P tool st Hv). unfold checkExistence.
    destruct (LookPath P (CLI tool) (world st)) eqn:Hl; cbn; [discriminate|].
    intros H. injection H as <-.
    split; [destruct (Optional tool); discriminate|]. now left.
  - rewrite (Check_version P tool st Hv).
    pose proof (probe_shape tool st) as [Hshape _]. cbv zeta in Hshape.
    version_cases tool st;
      cbn [fst snd ResultStatus Error Output InstalledVersion setStatus
           setError setOutput setInstalledVersion newResult ret];
      try destruct (Optional tool);
      cbn [fst snd ResultStatus Error Output InstalledVersion setStatus
           setError setOutput setInstalledVersion newResult ret];
      intros H; try discriminate H; injection H as <-;
      (split; [discriminate|]); right; (split; [exact Hv|]).
    all: lazymatch goal with
         | Hp : executeVersionCommand _ _ _ = (_, Some _, _) |- _ =>
             cbn [fst snd] in Hshape; destruct Hshape as (-> & detail & ->);
             left; now exists detail
         | _ =>
             right; exists output; split; [reflexivity|];
             split; [reflexivity|];
             lazymatch goal with
             | Hx : extractVersion _ _ _ = (_, Some ?e) |- _ =>
                 left; exists version, e; now split
             | _ =>
                 right; exists version; split; [eassumption|];
                 split; [reflexivity|];
                 lazymatch goal with
                 | Hc : NewConstraint _ _ = inr ?e |- _ =>
                     left; now exists e
                 | Hn : NewVersion _ _ = inr ?e |- _ =>
                     right; now exists e
                 end
             end
         end.
Qed.

Lemma checkFiltered_acc tools filter : forall results st,
  checkFiltered P tools filter results st
  = (results ++ (checkFiltered P tools filter [] st).1,
     (checkFiltered P tools filter [] st).2).
Proof.
  induction filter as [|name rest IH]; intros results st; cbn [checkFiltered].
  { cbn. now rewrite app_nil_r. }
  destruct (tools !! name) as [tool|].
  - unfold bind. destruct (Check P tool st) as [r st1].
    rewrite (IH (results ++ [r])), (IH ([] ++ [r])). cbn [fst snd].
    now rewrite <- app_assoc.
  - rewrite (IH (results ++ _)), (IH ([] ++ _)). cbn [fst snd].
    now rewrite <- app_assoc.
Qed.

Lemma checkFiltered_app tools filter1 filter2 : forall results st,
  checkFiltered P tools (filter1 ++ filter2) results st
  = let first := checkFiltered P tools filter1 results st in
    checkFiltered P tools filter2 first.1 first.2.
Proof.
  induction filter1 as [|name rest IH]; intros results st; [reflexivity|].
  cbn [app checkFiltered]. destruct (tools !! name) as [tool|].
  - unfold bind. destruct (Check P tool st) as [r st1]. apply IH.
  - apply IH.
Qed.

(** X6.  Checking the keys of two lists put together is checking the first
    list, then the second in the state the first left. *)
Theorem CheckAll_app (tools : gmap string Tool) (filter1 filter2 : list string)
    st :
  filter1 <> [] -> filter2 <> [] ->
  let first := CheckAll P tools filter1 st in
  let second := CheckAll P tools filter2 first.2 in
  CheckAll P tools (filter1 ++ filter2) st
  = (first.1 ++ second.1, second.2).
Proof.
  intros H1 H2. cbv zeta. unfold CheckAll.
  destruct filter1 as [|n1 f1]; [contradiction|].
  destruct filter2 as [|n2 f2]; [contradiction|].
  change (0 <? length (n1 :: f1))%nat with true.
  change (0 <? length (n2 :: f2))%nat with true.
  change (0 <? length ((n1 :: f1) ++ n2 :: f2))%nat with true. cbv iota.
  rewrite checkFiltered_app. cbv zeta.
  now rewrite checkFiltered_acc.
Qed.

(** X7.  A filtered run looks at the requested entries of the mapping only. *)
Theorem CheckAll_requested_entries_only (tools1 tools2 : gmap string Tool)
    (filter : list string) st :
  filter <> [] ->
  (forall name, In name filter -> tools1 !! name = tools2 !! name) ->
  CheckAll P tools1 filter st = CheckAll P tools2 filter st.
Proof.
  intros Hne Hagree. unfold CheckAll.
  destruct (0 <? length filter)%nat eqn:E;
    [|destruct filter; [contradiction | discriminate E]].
  clear Hne E. generalize (@nil Result) as results. revert st.
  induction filter as [|name rest IH]; intros st results; [reflexivity|].
  cbn [checkFiltered]. rewrite <- (Hagree name) by now left.
  destruct (tools1 !! name) as [tool|].
  - unfold bind. destruct (Check P tool st) as [r st1].
    apply IH. intros n Hn. apply Hagree. now right.
  - apply IH. intros n Hn. apply Hagree. now right.
Qed.

End CheckerExtras.

Section TextExtras.

Import Text.

Lemma rev_app_acc s : forall acc,
  String.rev_app s acc = String.rev_app s "" +:+ acc.
Proof.
  induction s as [|a s IH]; intros acc; [reflexivity|].
  cbn [String.rev_app]. rewrite (IH (String a acc)), (IH (String a "")).
  now rewrite app_assoc_s.
Qed.

Lemma rev_cons a s : String.rev (String a s) = String.rev s +:+ String a "".
Proof. unfold String.rev. cbn [String.rev_app]. apply rev_app_acc. Qed.

Lemma rev_app_distr (a b : string) :
  String.rev (a +:+ b) = String.rev b +:+ String.rev a.
Proof.
  induction a as [|x a IH]; simpl.
  - now rewrite app_nil_r_s.
  - now rewrite !rev_cons, IH, app_assoc_s.
Qed.

Lemma rev_involutive s : String.rev (String.rev s) = s.
Proof.
  induction s as [|a s IH]; [reflexivity|].
  now rewrite rev_cons, rev_app_distr, IH.
Qed.

Lemma drop_suffix n : forall s, exists pre, s = pre +:+ drop n s.
Proof.
  induction n as [|n IH]; intros s; [now exists ""|].
  destruct s as [|a s]; [now exists ""|]. cbn [drop].
  destruct (IH s) as (pre & Hpre). exists (String a pre). simpl.
  now rewrite <- Hpre.
Qed.

Lemma trimLeftSpaces_suffix runes fuel : forall s,
  exists pre, s = pre +:+ trimLeftSpaces runes fuel s.
Proof.
  induction fuel as [|fuel IH]; intros s; [now exists ""|].
  cbn [trimLeftSpaces].
  destruct (leadingSpace runes s) as [|n]; [now exists ""|].
  destruct (drop_suffix (S n) s) as (pre1 & H1).
  destruct (IH (drop (S n) s)) as (pre2 & H2).
  exists (pre1 +:+ pre2). rewrite app_assoc_s, <- H2. exact H1.
Qed.

(** [strings.TrimSpace] gives a part of its argument. *)
Lemma TrimSpace_substring s : isSubstring (TrimSpace s) s.
Proof.
  unfold TrimSpace, TrimRightSpace, TrimLeftSpace.
  destruct (trimLeftSpaces_suffix spaceRunes (String.length s) s)
    as (pre & Hpre).
  set (t := trimLeftSpaces spaceRunes (String.length s) s) in *.
  destruct (trimLeftSpaces_suffix (map String.rev spaceRunes)
              (String.length t) (String.rev t)) as (post & Hpost).
  set (u := trimLeftSpaces _ _ (String.rev t)) in *.
  exists pre, (String.rev post).
  rewrite <- rev_app_distr, <- Hpost, rev_involutive. exact Hpre.
Qed.

Lemma isSubstring_trans (a b c : string) :
  isSubstring a b -> isSubstring b c -> isSubstring a c.
Proof.
  intros (p1 & q1 & ->) (p2 & q2 & ->).
  exists (p2 +:+ p1), (q1 +:+ q2). now rewrite !app_assoc_s.
Qed.

Lemma joinLines_substring lines line :
  In line lines -> isSubstring line (joinLines lines).
Proof.
  induction lines as [|l rest IH]; [intros []|].
  destruct rest as [|r rest'].
  - intros [<- | []]. exists "", "". simpl. now rewrite app_nil_r_s.
  - intros [<- | Hin].
    + now exists "", (String newline (joinLines (r :: rest'))).
    + destruct (IH Hin) as (a & b & E).
      exists (l +:+ String newline a), b.
      change (joinLines (l :: r :: rest'))
        with (l +:+ String newline (joinLines (r :: rest'))).
      rewrite E, app_assoc_s. reflexivity.
Qed.

Lemma Split_lines_substring s line :
  In line (Split_lines s) -> isSubstring line s.
Proof.
  intros Hin. apply joinLines_substring in Hin.
  now rewrite Split_lines_join in Hin.
Qed.

Lemma Split_lines_of_first line : forall output,
  isFirstLineOf line output ->
  exists rest, Split_lines output = line :: rest.
Proof.
  induction line as [|c line IH]; intros output [Hno Hout].
  - destruct Hout as [-> | (rest & ->)]; [now exists []|].
    simpl. rewrite ?Ascii.eqb_refl. eauto.
  - assert (Hc : c <> newline).
    { intros ->. apply Hno. now exists "", line. }
    assert (Hno' : ~ hasByte newline line).
    { intros (a & b & ->). apply Hno. now exists (String c a), b. }
    assert (Hfirst : exists tail, output = String c tail /\
                                   isFirstLineOf line tail).
    { destruct Hout as [-> | (rest & ->)].
      - exists line. split; [reflexivity|]. split; [exact Hno' | now left].
      - exists (line +:+ String newline rest). split; [reflexivity|].
        split; [exact Hno' | right; now exists rest]. }
    destruct Hfirst as (tail & -> & Htail).
    destruct (IH tail Htail) as (rest & E). simpl.
    destruct (Ascii.eqb_spec c newline); [contradiction|].
    rewrite E. eauto.
Qed.

Lemma occursAt_substring i m line : occursAt i m line -> isSubstring m line.
Proof. intros (pre & post & -> & _). now exists pre, post. Qed.

Lemma shaped_has_digit_and_dot m :
  versionShaped m ->
  (exists c, Regex.digit c = true /\ hasByte c m) /\ hasByte Regex.dot m.
Proof.
  intros (x & y & [Hx0 Hx] & _ & Hm).
  destruct x as [|c x]; [contradiction|]. simpl in Hx.
  apply andb_true_iff in Hx as [Hc _].
  destruct Hm as [-> | (z & _ & ->)]; (split; [exists c; split; [exact Hc|]|]).
  - now exists "", (x +:+ String Regex.dot y).
  - now exists (String c x), y.
  - now exists "", (x +:+ String Regex.dot (y +:+ String Regex.dot z)).
  - now exists (String c x), (y +:+ String Regex.dot z).
Qed.

Lemma hasByte_substring c (m s : string) :
  hasByte c m -> isSubstring m s -> hasByte c s.
Proof.
  intros (a & b & ->) (p & q & ->).
  exists (p +:+ a), (b +:+ q). now rewrite !app_assoc_s.
Qed.

Lemma scanLines_error_empty lines :
  (scanLines lines).2 <> None -> (scanLines lines).1 = "".
Proof.
  induction lines as [|line rest IH]; cbn [scanLines]; [reflexivity|].
  destruct (TrimSpace line =? "")%string; [exact IH|].
  destruct (Regex.FindString Regex.versionRe (TrimSpace line) =? "")%string;
    cbn [negb]; [exact IH | intros H; now destruct H].
Qed.

End TextExtras.

Section ExtractionExtras.

Import Text.
Context (P : Platform).

(** X8.  An extraction that fails returns no text; the default extraction,
    when it succeeds, returns a version-shaped part of the raw text. *)
Theorem extraction_results (output pattern : string) :
  ((extractVersion P output pattern).2 <> None ->
   (extractVersion P output pattern).1 = "") /\
  (forall m,
      extractVersion P output "" = (m, None) ->
      versionShaped m /\ isSubstring m output).
Proof.
  split.
  - unfold extractVersion. destruct (pattern =? "")%string; cbn [negb].
    + apply scanLines_error_empty.
    + destruct (regexp_Compile P pattern) as [re|e]; [|reflexivity].
      destruct (1 <? length _)%nat; [intros H; now destruct H|].
      destruct (0 <? length _)%nat; [intros H; now destruct H | reflexivity].
  - intros m Hm. change (extractVersion P output "")
      with (scanLines (Split_lines output)) in Hm.
    destruct (scanLines_spec (Split_lines output))
      as [(before & line & after & m' & Hl & _ & Hfirst & Hs) | (_ & Hs)];
      [|congruence].
    rewrite Hs in Hm. injection Hm as <-.
    destruct Hfirst as (Hshape & i & Hocc & _). split; [exact Hshape|].
    assert (Hin : In line (map TrimSpace (Split_lines output))).
    { rewrite Hl. apply in_or_app. right. now left. }
    apply in_map_iff in Hin as (raw & <- & Hraw).
    eapply isSubstring_trans; [eapply occursAt_substring, Hocc|].
    eapply isSubstring_trans; [apply TrimSpace_substring|].
    now apply Split_lines_substring.
Qed.

(** X9.  A first line that is short, has no reject word and has a version in
    it is accepted by the smart guess and gives the default extraction
    its version. *)
Theorem clean_version_line_qualifies (output line : string) :
  isFirstLineOf line output ->
  hasVersion (TrimSpace line) ->
  String.length (TrimSpace line) <= 200 ->
  (forall pattern, In pattern rejectPatterns ->
     ~ isSubstring pattern (ToLower (unicodeLower P) (TrimSpace line))) ->
  qualifies P output = true /\
  exists m,
    extractVersion P output "" = (m, None) /\
    firstVersionIn (TrimSpace line) m.
Proof.
  intros Hfirst Hver Hlen Hclean.
  destruct (Split_lines_of_first line output Hfirst) as (rest & Hsplit).
  assert (Hne : TrimSpace line <> "").
  { intros E. rewrite E in Hver. now apply no_version_in_empty. }
  split.
  - unfold qualifies. apply andb_true_iff. split.
    + destruct output; [|reflexivity]. exfalso.
      cbn in Hsplit. injection Hsplit as <- _. now apply Hne.
    + unfold looksLikeVersionOutput. rewrite Hsplit.
      apply Nat.ltb_ge in Hlen. rewrite Hlen.
      destruct (existsb _ rejectPatterns) eqn:Hrej.
      { apply existsb_exists in Hrej as (p & Hin & Hc).
        apply Contains_iff in Hc. now destruct (Hclean p Hin). }
      destruct Hver as (i & m & Hm & Hocc).
      apply occursAt_substring in Hocc.
      destruct (shaped_has_digit_and_dot m Hm) as ((c & Hc & Hb) & Hdot).
      apply andb_true_iff. split.
      * apply Contains_byte. eapply hasByte_substring; eassumption.
      * apply anyByte_iff. exists c. split; [exact Hc|].
        eapply hasByte_substring; eassumption.
  - change (extractVersion P output "") with (scanLines (Split_lines output)).
    rewrite Hsplit. cbn [scanLines].
    destruct (String.eqb_spec (TrimSpace line) ""); [contradiction|].
    destruct (FindString_spec (TrimSpace line)) as [(Hm & Hf) | (_ & Hno)];
      [|contradiction].
    destruct (String.eqb_spec (Regex.FindString Regex.versionRe
                                 (TrimSpace line)) ""); [contradiction|].
    cbn [negb]. eauto.
Qed.

End ExtractionExtras.

(** ** The report *)

Section ReportProperties.

Import Text.

Context (P : Platform).

(** A property of the single check and of the made-up outcome holds for
    every outcome of the fan-out. *)
Lemma CheckAll_Forall (Q : Result -> Prop) (tools : gmap string Tool)
    (filter : list string) (st : State P) :
  (forall tool st', Q (Check P tool st').1) ->
  (forall name, tools !! name = None -> Q (notInConfiguration name)) ->
  Forall Q (CheckAll P tools filter st).1.
Proof.
  intros Hcheck Hmade. unfold CheckAll. destruct (0 <? length filter)%nat.
  - destruct (checkFiltered_appends P tools filter [] st) as (new & -> & Hnew).
    rewrite app_nil_l. clear -Hnew Hcheck Hmade.
    induction Hnew as [|name r rest new Hr _ IH]; constructor; [|exact IH].
    unfold requested in Hr. destruct (tools !! name) eqn:E.
    + destruct Hr as (st' & ->). apply Hcheck.
    + subst r. now apply Hmade.
  - destruct (checkEach_appends P (rangeOrder P tools) [] st)
      as (new & -> & Hnew).
    rewrite app_nil_l. clear -Hnew Hcheck.
    induction Hnew as [|e r rest new Hr _ IH]; constructor; [|exact IH].
    destruct Hr as (st' & ->). apply Hcheck.
Qed.

Lemma CheckAll_wellFormed (tools : gmap string Tool) (filter : list string)
    (st : State P) :
  Forall wellFormed (CheckAll P tools filter st).1.
Proof.
  apply CheckAll_Forall.
  - apply Check_wellFormed.
  - intros name _. apply notInConfiguration_wellFormed.
Qed.

Lemma ShouldExitWithError_iff results :
  ShouldExitWithError results = true <->
  Exists (fun r => ResultStatus r = StatusFail) results.
Proof.
  induction results as [|r rest IH]; cbn [ShouldExitWithError].
  - split; [discriminate | intros H; inversion H].
  - destruct (String.eqb_spec (ResultStatus r) StatusFail) as [E|E].
    + split; [intros _; now left | reflexivity].
    + rewrite IH. split; [now right|].
      intros H. inversion H; [contradiction | assumption].
Qed.

Lemma harmless_iff r :
  wellFormed r -> (harmless r <-> ResultStatus r <> StatusFail).
Proof.
  intros [Hs Ho]. unfold harmless. split.
  - intros [E | [E _]]; rewrite E; discriminate.
  - intros Hn. destruct Hs as [E | [E | E]]; [now left | contradiction|].
    right. split; [exact E | now apply Ho].
Qed.

Lemma ShouldExitWithError_harmless results :
  Forall wellFormed results ->
  (ShouldExitWithError results = false <-> Forall harmless results).
Proof.
  induction 1 as [|r rest Hr _ IH]; cbn [ShouldExitWithError].
  - split; [constructor | reflexivity].
  - pose proof (harmless_iff r Hr) as Hh.
    destruct (String.eqb_spec (ResultStatus r) StatusFail) as [E|E].
    + split; [discriminate|]. intros H. apply Forall_cons in H as [H _].
      apply Hh in H. contradiction.
    + rewrite IH. split.
      * intros H. constructor; [now apply Hh | exact H].
      * intros H. now apply Forall_cons in H as [_ H].
Qed.


Lemma jsonLoop_spec results : forall c tools,
  jsonLoop results c tools
  = (countAll results c, tools ++ map jsonTool results).
Proof.
  induction results as [|r rest IH]; intros c tools; cbn.
  - now rewrite app_nil_r.
  - rewrite IH. unfold countAll. now rewrite <- app_assoc.
Qed.

Lemma prettyLoop_spec pal results : forall c lines,
  prettyLoop pal results c lines
  = (countAll results c, lines ++ flat_map (prettyResult pal) results).
Proof.
  induction results as [|r rest IH]; intros c lines;
    cbn [prettyLoop flat_map].
  - now rewrite app_nil_r.
  - rewrite IH. unfold countAll. now rewrite <- app_assoc.
Qed.

Lemma countAll_total results : forall c,
  Forall wellFormed results ->
  passed (countAll results c) + failed (countAll results c) +
  optionalMissing (countAll results c)
  = passed c + failed c + optionalMissing c + length results.
Proof.
  induction results as [|r rest IH]; intros c Hwf; cbn [countAll fold_left].
  - cbn. lia.
  - apply Forall_cons in Hwf as [[Hs _] Hwf].
    change (fold_left _ rest ?c0) with (countAll rest c0).
    rewrite (IH _ Hwf). cbn [length].
    destruct Hs as [-> | [-> | ->]]; cbn; lia.
Qed.

Lemma countAll_failed results : forall c,
  failed c <= failed (countAll results c) /\
  (failed (countAll results c) = failed c <->
   ShouldExitWithError results = false).
Proof.
  induction results as [|r rest IH]; intros c;
    cbn [countAll fold_left ShouldExitWithError].
  - split; [lia | easy].
  - change (fold_left _ rest ?c0) with (countAll rest c0).
    destruct (IH (countStatus (ResultStatus r) c)) as [Hle Hiff].
    unfold countStatus in *.
    destruct (String.eqb_spec (ResultStatus r) StatusFail) as [E|E].
    + rewrite E in *. cbn in *. split; [lia|]. split; [lia | discriminate].
    + destruct (ResultStatus r =? StatusPass)%string;
        [|destruct (ResultStatus r =? StatusOptionalMissing)%string];
        cbn in *; (split; [lia | exact Hiff]).
Qed.

(** X10.  The exit status looks at the Fail outcomes only: a run of checks ends
    without error exactly when every outcome is a Pass or the downgraded
    outcome of an optional descriptor, and a requested key that the
    configuration does not have always makes it end with an error. *)
Theorem exit_status_of_checks (tools : gmap string Tool)
    (filter : list string) (st : State P) :
  let results := (CheckAll P tools filter st).1 in
  (ShouldExitWithError results = false <-> Forall harmless results) /\
  (forall name,
      In name filter -> tools !! name = None ->
      ShouldExitWithError results = true).
Proof.
  cbv zeta. split.
  - apply ShouldExitWithError_harmless, CheckAll_wellFormed.
  - intros name Hin Hnone. apply ShouldExitWithError_iff.
    unfold CheckAll. destruct filter as [|n0 rest]; [destruct Hin|].
    change (0 <? length (n0 :: rest))%nat with true. cbv iota.
    destruct (checkFiltered_appends P tools (n0 :: rest) [] st)
      as (new & -> & Hnew).
    rewrite app_nil_l. revert Hin Hnew. generalize (n0 :: rest) as names.
    intros names Hin Hnew.
    induction Hnew as [|n r names' new Hr _ IH]; [destruct Hin|].
    destruct Hin as [-> | Hin]; [|right; now apply IH].
    left. unfold requested in Hr. rewrite Hnone in Hr. now subst r.
Qed.

(** X11.  The JSON report of a run of checks has one entry per outcome, in
    order; its three counters add up to the total, and the failed counter
    is zero exactly when the run ends without error.  The pretty report
    ends with the same counters. *)
Theorem summary_counts (pal : Palette) (tools : gmap string Tool)
    (filter : list string) (st : State P) :
  let results := (CheckAll P tools filter st).1 in
  let out := printJSON results in
  let s := Summary out in
  JSONTools out = map jsonTool results /\
  Total s = length results /\
  Passed s + Failed s + OptionalMissing s = Total s /\
  (Failed s = 0 <-> ShouldExitWithError results = false) /\
  printPretty pal results
  = [ "Checking CLI Tools..."; "" ] ++
    flat_map (prettyResult pal) results ++
    [ prettySummary pal
        {| passed := Passed s; failed := Failed s;
           optionalMissing := OptionalMissing s |} ].
Proof.
  cbv zeta. unfold printJSON, printPretty.
  rewrite jsonLoop_spec, prettyLoop_spec. cbn [JSONTools Summary Total
    Passed Failed OptionalMissing app].
  split; [reflexivity|]. split; [reflexivity|]. split.
  - rewrite countAll_total by apply CheckAll_wellFormed. reflexivity.
  - split; [apply (countAll_failed _ {| passed := 0; failed := 0;
                                        optionalMissing := 0 |})|].
    reflexivity.
Qed.

(** X12.  The quiet report leaves passing outcomes out: it is empty exactly when
    every outcome is a Pass, and it is the report of the other outcomes
    alone. *)
Theorem quiet_report (pal : Palette) (results : list Result) :
  (printQuiet pal results = [] <->
   Forall (fun r => ResultStatus r = StatusPass) results) /\
  printQuiet pal results
  = printQuiet pal
      (filter (fun r => ResultStatus r <> StatusPass) results).
Proof.
  split.
  - induction results as [|r rest IH]; cbn [printQuiet].
    + split; [constructor | reflexivity].
    + unfold quietResult.
      destruct (String.eqb_spec (ResultStatus r) StatusPass) as [E|E].
      * rewrite app_nil_l, IH. split.
        -- intros H. now constructor.
        -- intros H. now apply Forall_cons in H as [_ H].
      * split.
        -- intros H. apply app_eq_nil in H as [H _].
           apply app_eq_nil in H as [_ H]. apply app_eq_nil in H as [_ H].
           apply app_eq_nil in H as [_ H]. discriminate H.
        -- intros H. apply Forall_cons in H as [H _]. contradiction.
  - induction results as [|r rest IH]; [reflexivity|].
    cbn [printQuiet]. rewrite filter_cons.
    destruct (decide (ResultStatus r <> StatusPass)) as [E|E].
    + cbn [printQuiet]. now rewrite IH.
    + rewrite <- IH. unfold quietResult.
      destruct (String.eqb_spec (ResultStatus r) StatusPass) as [E'|E'];
        [reflexivity | contradiction].
Qed.


(** X13.  The JSON entry of a check shows a command and a captured text only
    for a probe with explicit arguments that succeeded: for an existence
    check and for a smart guess both fields are empty. *)
Theorem json_command_of_explicit_probe (tool : Tool) (st : State P) :
  let r := (Check P tool st).1 in
  let j := jsonTool r in
  (Version tool = "" \/ VersionArg tool = "" ->
   jsonCommand j = "" /\ jsonOutput j = "") /\
  (jsonOutput j <> "" ->
   Version tool <> "" /\ VersionArg tool <> "" /\
   jsonCommand j = CLI tool +:+ " " +:+ VersionArg tool /\
   (executeVersionCommand P tool st).1 = (jsonOutput j, None)).
Proof.
  cbv zeta. unfold jsonTool. rewrite (Check_tool P tool st).
  cbn [jsonCommand jsonOutput].
  destruct (String.eqb_spec (Version tool) "") as [Hv|Hv].
  { rewrite (Check_existence P tool st Hv). unfold checkExistence.
    destruct (LookPath P (CLI tool) (world st)); cbn;
      try destruct (Optional tool); cbn;
      (split; [now intros _ | intros H; now destruct H]). }
  rewrite (Check_version P tool st Hv).
  destruct (String.eqb_spec (VersionArg tool) "") as [Ha|Ha].
  { rewrite andb_false_r. split; [now intros _ | intros H; now destruct H]. }
  rewrite andb_true_r. split; [intros [H|H]; contradiction|].
  version_cases tool st;
    cbn [fst snd Output setStatus setError setOutput setInstalledVersion
         newResult ret];
    try destruct (Optional tool);
    cbn [fst snd Output setStatus setError setOutput setInstalledVersion
         newResult ret].
  all: destruct (String.eqb_spec output "") as [Ho|Ho]; cbn [negb];
    try (intros H; now destruct H).
  all: try (change ("" =? "")%string with true; cbn [negb];
            intros H; now destruct H).
  all: intros _; repeat split; assumption.
Qed.

(** X14.  A check that does not pass is explained in the quiet and in the
    pretty report: both show the line of its failure reason, or, for the
    one failure that has no reason, the line of the required version. *)
Theorem failures_are_explained (pal : Palette) (tool : Tool) (st : State P) :
  let r := (Check P tool st).1 in
  ResultStatus r <> StatusPass ->
  match Error r with
  | Some reason =>
      let line := "   " +:+ red pal "Error:" +:+ " " +:+ reason in
      In line (quietResult pal r) /\ In line (prettyResult pal r)
  | None =>
      let line := "   Required: " +:+ Version tool in
      Version tool <> "" /\
      In line (quietResult pal r) /\ In line (prettyResult pal r)
  end.
Proof.
  cbv zeta. unfold quietResult, prettyResult.
  rewrite (Check_tool P tool st).
  destruct (String.eqb_spec (Version tool) "") as [Hv|Hv].
  { rewrite (Check_existence P tool st Hv). unfold checkExistence.
    destruct (LookPath P (CLI tool) (world st)); cbn;
      [intros H; now destruct H|].
    destruct (Optional tool); cbn; intros _;
      rewrite !in_app_iff; cbn [In]; tauto. }
  rewrite (Check_version P tool st Hv). cbn [negb].
  version_cases tool st;
    cbn [fst snd ResultStatus Error Output InstalledVersion Path setStatus
         setError setOutput setInstalledVersion newResult ret];
    try destruct (Optional tool);
    cbn [fst snd ResultStatus Error Output InstalledVersion Path setStatus
         setError setOutput setInstalledVersion newResult ret].
  all: intros Hs; try (now destruct Hs).
  all: repeat match goal with
         | |- context [(?a =? ?b)%string] =>
             lazymatch a with
             | StatusPass => fail
             | StatusFail => fail
             | StatusOptionalMissing => fail
             | _ => destruct (a =? b)%string
             end
         end.
  all: cbn; rewrite ?in_app_iff; cbn [In]; tauto.
Qed.

End ReportProperties.

(** ** The command *)

Section CommandProperties.

Import Text.

Context (P : Platform) (F : FileSystem) (pal : Palette).

Lemma findUnknown_made_up name results :
  In (notInConfiguration name) results ->
  exists unknown, findUnknown results = Some unknown.
Proof.
  induction results as [|r rest IH]; [intros []|].
  intros Hin. cbn [findUnknown].
  destruct (Error r) as [e|] eqn:He.
  - destruct (e =? _)%string eqn:E; [eauto|].
    destruct Hin as [-> | Hin]; [|now apply IH].
    cbn in He. injection He as <-. cbn in E.
    now rewrite String.eqb_refl in E.
  - destruct Hin as [-> | Hin]; [discriminate He | now apply IH].
Qed.

Lemma CheckAll_made_up (tools : gmap string Tool) (filter : list string)
    name (st : State P) :
  In name filter -> tools !! name = None ->
  In (notInConfiguration name) (CheckAll P tools filter st).1.
Proof.
  intros Hin Hnone. unfold CheckAll.
  destruct filter as [|n0 rest]; [destruct Hin|].
  change (0 <? length (n0 :: rest))%nat with true. cbv iota.
  destruct (checkFiltered_appends P tools (n0 :: rest) [] st)
    as (new & -> & Hnew).
  rewrite app_nil_l. revert Hin Hnew. generalize (n0 :: rest) as names.
  intros names Hin Hnew.
  induction Hnew as [|n r names' new Hr _ IH]; [destruct Hin|].
  destruct Hin as [-> | Hin]; [|right; now apply IH].
  left. unfold requested in Hr. now rewrite Hnone in Hr.
Qed.

Lemma CheckAll_configured (tools : gmap string Tool) (filter : list string)
    (st : State P) :
  findUnknown (CheckAll P tools filter st).1 = None ->
  Forall (fun name => is_Some (tools !! name)) filter.
Proof.
  intros Hnone. apply Forall_forall. intros name Hin.
  apply list_elem_of_In in Hin.
  destruct (tools !! name) eqn:E; [eauto|].
  destruct (findUnknown_made_up name _ (CheckAll_made_up tools filter name
                                          st Hin E)) as (u & Hu).
  congruence.
Qed.

Lemma size_non_empty (tools : gmap string Tool) :
  tools <> ∅ <-> (size tools =? 0)%nat = false.
Proof.
  rewrite Nat.eqb_neq. now rewrite map_size_empty_iff.
Qed.

(** X15.  A requested name that the loaded configuration does not have makes
    the command end with the error [invalid tool name] and exit status 1,
    without any report; the names that are configured have been checked
    by then. *)
Theorem unknown_name_is_rejected (configFile rootDir : string) (quiet : bool)
    (outputFormat : string) (args : list string) (loaded : LoadResult)
    (name : string) (st : State P) :
  LoadAndMerge F configFile rootDir = inl loaded ->
  LoadedTools loaded <> ∅ ->
  In name args ->
  LoadedTools loaded !! name = None ->
  let ran := runCheck P F pal configFile rootDir quiet outputFormat args st in
  finish ran.1 = Returned (Some "invalid tool name") /\
  report ran.1 = None /\
  exitCode ran.1 = 1 /\
  ran.2 = (CheckAll P (LoadedTools loaded) args st).2 /\
  exists unknown,
    In ("Error: tool '" +:+ unknown +:+ "' not found in configuration")
       (errLines ran.1).
Proof.
  intros Hload Hne Hin Hnone. cbv zeta. unfold runCheck. rewrite Hload.
  apply size_non_empty in Hne. rewrite Hne. unfold bind.
  destruct (CheckAll P (LoadedTools loaded) args st) as [results st1] eqn:Hc.
  assert (Hargs : (0 <? length args)%nat = true).
  { destruct args; [destruct Hin | reflexivity]. }
  rewrite Hargs.
  destruct (findUnknown_made_up name results) as (unknown & ->).
  { pose proof (CheckAll_made_up (LoadedTools loaded) args name st Hin Hnone)
      as H. now rewrite Hc in H. }
  unfold exitCode. cbn.
  repeat (split; [reflexivity|]). exists unknown.
  apply in_or_app. right. now left.
Qed.

(** X16.  [runCheck] returns nil only after a report on a run of checks
    in which every requested name is configured and every outcome is a
    Pass or the downgraded outcome of an optional descriptor; when no name
    is requested, that condition on the outcomes is enough. *)
Theorem runCheck_returns_nil (configFile rootDir : string) (quiet : bool)
    (outputFormat : string) (args : list string) (st : State P) :
  let ran := runCheck P F pal configFile rootDir quiet outputFormat args st in
  (finish ran.1 = Returned None ->
   exists loaded,
     LoadAndMerge F configFile rootDir = inl loaded /\
     LoadedTools loaded <> ∅ /\
     Forall (fun name => is_Some (LoadedTools loaded !! name)) args /\
     Forall harmless (CheckAll P (LoadedTools loaded) args st).1 /\
     report ran.1
     = Some (Print pal (CheckAll P (LoadedTools loaded) args st).1
               (chooseFormat quiet outputFormat))) /\
  (forall loaded,
      args = [] ->
      LoadAndMerge F configFile rootDir = inl loaded ->
      LoadedTools loaded <> ∅ ->
      Forall harmless (CheckAll P (LoadedTools loaded) [] st).1 ->
      finish ran.1 = Returned None).
Proof.
  cbv zeta. unfold runCheck. split.
  - destruct (LoadAndMerge F configFile rootDir) as [loaded|e];
      [|discriminate].
    destruct (size (LoadedTools loaded) =? 0)%nat eqn:Hsize; [discriminate|].
    unfold bind.
    pose proof (CheckAll_configured (LoadedTools loaded) args st) as Hconf.
    pose proof (CheckAll_wellFormed P (LoadedTools loaded) args st) as Hwf.
    destruct (CheckAll P (LoadedTools loaded) args st) as [results st1]
      eqn:Hc.
    cbn [fst snd] in *.
    destruct (0 <? length args)%nat eqn:Hargs.
    + destruct (findUnknown results) as [unknown|]; [discriminate|].
      cbn [fst ret finish report].
      destruct (ShouldExitWithError results) eqn:Hexit; [discriminate|].
      intros _. exists loaded. rewrite Hc. split; [reflexivity|].
      split; [now apply size_non_empty|]. split; [now apply Hconf|].
      split; [|reflexivity].
      exact (proj1 (ShouldExitWithError_harmless results Hwf) Hexit).
    + cbn [fst ret finish report].
      destruct (ShouldExitWithError results) eqn:Hexit; [discriminate|].
      intros _. exists loaded. rewrite Hc. split; [reflexivity|].
      split; [now apply size_non_empty|]. split.
      { destruct args; [constructor | discriminate Hargs]. }
      split; [|reflexivity].
      exact (proj1 (ShouldExitWithError_harmless results Hwf) Hexit).
  - intros loaded -> Hload Hne Hall. rewrite Hload.
    apply size_non_empty in Hne. rewrite Hne. unfold bind.
    pose proof (CheckAll_wellFormed P (LoadedTools loaded) [] st) as Hwf.
    destruct (CheckAll P (LoadedTools loaded) [] st) as [results st1].
    cbn [fst snd] in *. cbn [length Nat.ltb Nat.leb].
    apply (ShouldExitWithError_harmless results Hwf) in Hall.
    cbn [fst ret finish]. now rewrite Hall.
Qed.

End CommandProperties.

(** ** The known tools *)

Section MappingProperties.

Import Text.

Context (P : Platform).

Lemma resolve_known name :
  (resolveToolMapping name).2 = true ->
  In (name, mapping (resolveToolMapping name).1.1
              (resolveToolMapping name).1.2) knownToolList.
Proof.
  unfold resolveToolMapping.
  destruct (knownToolMappings !! name) as [[cli arg]|] eqn:E;
    [|discriminate].
  intros _. apply elem_of_list_to_map_2 in E.
  now apply list_elem_of_In in E.
Qed.

Lemma resolve_unknown name :
  (resolveToolMapping name).2 = false ->
  resolveToolMapping name = (name, "", false).
Proof.
  unfold resolveToolMapping.
  now destruct (knownToolMappings !! name) as [[cli arg]|].
Qed.

(** X17.  A tool of [mise.toml] or [.tool-versions] whose name is known is
    probed by one command, the mapped program with the mapped argument,
    which is [--version] or [version]; no guessing takes place. *)
Theorem known_tools_are_probed_explicitly (name version source : string)
    (st : State P) :
  (resolveToolMapping name).2 = true ->
  let cli := (resolveToolMapping name).1.1 in
  let versionArg := (resolveToolMapping name).1.2 in
  let tool := externalTool name cli version versionArg source in
  cli <> "" /\
  (versionArg = "--version" \/ versionArg = "version") /\
  spawned (executeVersionCommand P tool st).2
  = spawned st ++
    [ CommandContext P (WithTimeout P 5000 (world st)) cli [versionArg] ].
Proof.
  intros Hk. cbv zeta. apply resolve_known in Hk.
  destruct (resolveToolMapping name) as [[cli arg] known]. cbn [fst snd] in *.
  assert (Hcases : cli <> "" /\
                   ((arg = "--version" /\ Fields arg = ["--version"]) \/
                    (arg = "version" /\ Fields arg = ["version"]))).
  { unfold knownToolList, mapping in Hk. cbn [In] in Hk.
    repeat (destruct Hk as [Hk | Hk];
            [injection Hk as _ <- <-;
             split; [discriminate|];
             first [ left; split; [reflexivity | vm_compute; reflexivity]
                   | right; split; [reflexivity | vm_compute; reflexivity] ]
            |]).
    destruct Hk. }
  destruct Hcases as [Hcli Harg]. split; [exact Hcli|].
  split; [destruct Harg as [[-> _] | [-> _]]; [now left | now right]|].
  rewrite executeVersionCommand_explicit.
  - cbv zeta. cbn [snd spawned CLI VersionArg externalTool].
    now destruct Harg as [[-> ->] | [-> ->]].
  - cbn [VersionArg externalTool].
    destruct Harg as [[-> _] | [-> _]]; discriminate.
Qed.

End MappingProperties.

(** ** The loaders of external sources *)

Section LoaderProperties.

Import Text.

Context (F : FileSystem).

Lemma mergeExternal_tools label source f s w name version tools ws :
  (mergeExternal label source f s w name version (tools, ws)).1
  = match tools !! name with
    | Some _ => tools
    | None =>
        if admits f s name
        then <[name := externalTool name (resolveToolMapping name).1.1
                         version (resolveToolMapping name).1.2 source]> tools
        else tools
    end.
Proof.
  unfold mergeExternal, admits.
  destruct (tools !! name); [reflexivity|].
  destruct (resolveToolMapping name) as [[cli arg] known]. cbn [fst snd].
  destruct known; cbn [negb orb]; [reflexivity|].
  destruct s; cbn [negb andb]; [reflexivity|].
  destruct f; cbn [negb]; [reflexivity|]. now destruct w.
Qed.

Lemma externalTools_lookup source f s read name :
  externalTools source f s read !! name
  = match read !! name with
    | Some version =>
        if admits f s name
        then Some (externalTool name (resolveToolMapping name).1.1 version
                     (resolveToolMapping name).1.2 source)
        else None
    | None => None
    end.
Proof.
  unfold externalTools. rewrite map_lookup_imap.
  now destruct (read !! name).
Qed.

Lemma mergeExternal_union label source f s w name version tools ws read :
  (mergeExternal label source f s w name version (tools, ws)).1 ∪
  externalTools source f s read
  = tools ∪ externalTools source f s (<[name := version]> read).
Proof.
  rewrite mergeExternal_tools. apply map_eq. intros k.
  rewrite !lookup_union, !externalTools_lookup.
  destruct (decide (k = name)) as [->|Hk].
  - rewrite lookup_insert_eq.
    destruct (tools !! name) as [t|] eqn:Ht.
    + rewrite Ht. now destruct (read !! name), (admits f s name).
    + destruct (admits f s name) eqn:Ha.
      * rewrite lookup_insert_eq. now destruct (read !! name).
      * rewrite Ht. now destruct (read !! name).
  - rewrite (lookup_insert_ne read) by congruence.
    destruct (tools !! name) as [t|]; [reflexivity|].
    destruct (admits f s name); [|reflexivity].
    now rewrite lookup_insert_ne by congruence.
Qed.


Lemma mergeAll_tools label source f s w entries : forall tools ws,
  (mergeAll label source f s w entries (tools, ws)).1
  = tools ∪ externalTools source f s (list_to_map entries).
Proof.
  induction entries as [|[name version] rest IH]; intros tools ws.
  - cbn. unfold externalTools. rewrite map_imap_empty.
    now rewrite (right_id_L ∅ (∪)).
  - cbn [mergeAll fold_left fst snd list_to_map foldr]. 
    change (fold_left _ rest ?a) with (mergeAll label source f s w rest a).
    destruct (mergeExternal label source f s w name version (tools, ws))
      as [tools' ws'] eqn:E.
    rewrite IH. replace tools' with
      (mergeExternal label source f s w name version (tools, ws)).1
      by now rewrite E.
    apply mergeExternal_union.
Qed.

Lemma miseEntries_mergeAll path f s w entries : forall acc,
  miseEntries path f s w entries acc
  = mergeAll "mise.toml" ("mise:" +:+ path) f s w
      (prod_map id extractMiseVersion <$> entries) acc.
Proof.
  induction entries as [|[name value] rest IH]; intros acc; [reflexivity|].
  cbn [miseEntries]. rewrite IH. reflexivity.
Qed.

Lemma toolVersionsLines_mergeAll path f s w texts : forall acc,
  toolVersionsLines path f s w texts acc
  = mergeAll ".tool-versions" ("tool-versions:" +:+ path) f s w
      (omap toolVersionsEntry texts) acc.
Proof.
  induction texts as [|text rest IH]; intros acc; [reflexivity|].
  cbn [toolVersionsLines omap list_omap]. rewrite IH.
  unfold toolVersionsLine, toolVersionsEntry.
  destruct ((TrimSpace text =? "")%string || HasPrefix (TrimSpace text) "#");
    [reflexivity|].
  destruct (length (Fields (TrimSpace text)) <? 2)%nat; reflexivity.
Qed.

Lemma loadMiseSource_union (path : string) (tools : gmap string Tool)
    (failOnUnknown skipUnknown warnOnUnknown : bool) :
  (loadMiseSource F path tools failOnUnknown skipUnknown warnOnUnknown).1
  = match ReadFile F path with
    | inr _ => tools
    | inl data =>
        match UnmarshalMise F data with
        | inr _ => tools
        | inl miseTools =>
            tools ∪
            externalTools ("mise:" +:+ path) failOnUnknown skipUnknown
              (extractMiseVersion <$> miseTools)
        end
    end.
Proof.
  unfold loadMiseSource. destruct (ReadFile F path) as [data|]; [|reflexivity].
  destruct (UnmarshalMise F data) as [miseTools|]; [|reflexivity].
  rewrite miseEntries_mergeAll, mergeAll_tools, list_to_map_fmap.
  rewrite <- (list_to_map_flip miseTools (rangeRaw F miseTools));
    [reflexivity|].
  symmetry. apply rangeRaw_perm.
Qed.

Lemma loadToolVersionsSource_union (path : string)
    (tools : gmap string Tool)
    (failOnUnknown skipUnknown warnOnUnknown : bool) :
  (loadToolVersionsSource F path tools failOnUnknown skipUnknown
     warnOnUnknown).1
  = match ScanFile F path with
    | None => tools
    | Some (texts, _) =>
        tools ∪
        externalTools ("tool-versions:" +:+ path) failOnUnknown skipUnknown
          (list_to_map (omap toolVersionsEntry texts))
    end.
Proof.
  unfold loadToolVersionsSource.
  destruct (ScanFile F path) as [[texts err]|]; [|reflexivity].
  rewrite toolVersionsLines_mergeAll.
  pose proof (mergeAll_tools ".tool-versions" ("tool-versions:" +:+ path)
                failOnUnknown skipUnknown warnOnUnknown
                (omap toolVersionsEntry texts) tools []) as H.
  destruct (mergeAll _ _ _ _ _ _ _) as [tools' ws']. cbn [fst] in H.
  now destruct err.
Qed.


Lemma mergeExternal_warnings label source f s w name version tools ws :
  (mergeExternal label source f s w name version (tools, ws)).2
  = ws ++
    match tools !! name with
    | Some _ => []
    | None =>
        if (resolveToolMapping name).2 then []
        else if s then []
        else if f
        then [ "Error: Unknown tool '" +:+ name +:+ "' in " +:+ label ]
        else if w then [ formatUnknownToolWarning name label ] else []
    end.
Proof.
  unfold mergeExternal.
  destruct (tools !! name); [now rewrite app_nil_r|].
  destruct (resolveToolMapping name) as [[cli arg] known]. cbn [fst snd].
  destruct known; cbn [negb]; [now rewrite app_nil_r|].
  destruct s; [now rewrite app_nil_r|].
  destruct f; [reflexivity|]. destruct w; [reflexivity|].
  now rewrite app_nil_r.
Qed.

Lemma mergeExternal_subseteq label source f s w name version tools ws :
  tools ⊆ (mergeExternal label source f s w name version (tools, ws)).1.
Proof.
  rewrite mergeExternal_tools. destruct (tools !! name) eqn:E; [reflexivity|].
  destruct (admits f s name); [|reflexivity]. now apply insert_subseteq.
Qed.

Lemma mergeAll_warnings label source f s w entries : forall tools ws,
  exists new,
    (mergeAll label source f s w entries (tools, ws)).2 = ws ++ new /\
    Forall (unknownToolMessage label f s w tools
              (mergeAll label source f s w entries (tools, ws)).1) new.
Proof.
  induction entries as [|[name version] rest IH]; intros tools ws.
  { exists []. split; [now rewrite app_nil_r | constructor]. }
  cbn [mergeAll fold_left fst snd].
  change (fold_left _ rest ?a) with (mergeAll label source f s w rest a).
  pose proof (mergeExternal_warnings label source f s w name version tools ws)
    as Hw.
  pose proof (mergeExternal_tools label source f s w name version tools ws)
    as Ht.
  pose proof (mergeExternal_subseteq label source f s w name version tools ws)
    as Hsub.
  destruct (mergeExternal label source f s w name version (tools, ws))
    as [tools' ws']. cbn [fst snd] in Hw, Ht, Hsub.
  destruct (IH tools' ws') as (new2 & Hnew2 & Hall2).
  pose proof (mergeAll_tools label source f s w rest tools' ws') as Hafter.
  set (after := (mergeAll label source f s w rest (tools', ws')).1) in *.
  assert (Hall2' : Forall (unknownToolMessage label f s w tools after) new2).
  { eapply Forall_impl; [exact Hall2|].
    intros m (n & Hu & Hb & Hs & Hcases). exists n.
    split; [exact Hu|]. split; [|now split].
    destruct (tools !! n) eqn:E; [|reflexivity].
    eapply lookup_weaken in E; [|exact Hsub]. congruence. }
  rewrite Hnew2, Hw, <- app_assoc. eexists. split; [reflexivity|].
  apply Forall_app. split; [|exact Hall2'].
  destruct (tools !! name) eqn:Hn; [constructor|].
  destruct (resolveToolMapping name).2 eqn:Hk; [constructor|].
  destruct s; [constructor|].
  assert (Hadm : admits f false name = negb f).
  { unfold admits. rewrite Hk. reflexivity. }
  rewrite Hadm in Ht.
  destruct f; cbn [negb] in Ht.
  - constructor; [|constructor]. exists name.
    split; [exact Hk|]. split; [exact Hn|]. split; [reflexivity|]. left.
    split; [reflexivity|]. split; [reflexivity|].
    rewrite Hafter, lookup_union, externalTools_lookup, Ht, Hn.
    unfold admits. rewrite Hk. cbn. now destruct (list_to_map rest !! name).
  - destruct w; [|constructor]. constructor; [|constructor]. exists name.
    split; [exact Hk|]. split; [exact Hn|]. split; [reflexivity|]. right.
    split; [reflexivity|]. split; [reflexivity|]. split; [reflexivity|].
    eexists. split.
    + rewrite Hafter. apply lookup_union_Some_l. rewrite Ht.
      apply lookup_insert_eq.
    + rewrite (resolve_unknown name Hk). now split.
Qed.

(** X18.  Every warning of the two loaders is a read or parse error, or is about
    a name that is unknown and was not among the tools; it is an error
    line exactly under fail-on-unknown, and the name is then left out, or
    a warning line exactly under warn-on-unknown without fail-on-unknown,
    and the name is then added with itself as the command and no probe
    argument; under skip-on-unknown there is neither. *)
Theorem unknown_tool_messages (path : string) (tools : gmap string Tool)
    (failOnUnknown skipUnknown warnOnUnknown : bool) :
  let mise :=
    loadMiseSource F path tools failOnUnknown skipUnknown warnOnUnknown in
  let versions :=
    loadToolVersionsSource F path tools failOnUnknown skipUnknown
      warnOnUnknown in
  Forall
    (fun message =>
       unknownToolMessage "mise.toml" failOnUnknown skipUnknown warnOnUnknown
         tools mise.1 message \/
       exists e, message = "Error parsing mise.toml: " +:+ e)
    mise.2 /\
  Forall
    (fun message =>
       unknownToolMessage ".tool-versions" failOnUnknown skipUnknown
         warnOnUnknown tools versions.1 message \/
       exists e, message = "Error reading .tool-versions: " +:+ e)
    versions.2.
Proof.
  cbv zeta. split.
  - unfold loadMiseSource.
    destruct (ReadFile F path) as [data|]; [|constructor].
    destruct (UnmarshalMise F data) as [miseTools|e].
    + rewrite miseEntries_mergeAll.
      destruct (mergeAll_warnings "mise.toml" ("mise:" +:+ path)
                  failOnUnknown skipUnknown warnOnUnknown
                  (prod_map id extractMiseVersion <$> rangeRaw F miseTools)
                  tools []) as (new & -> & Hall).
      rewrite app_nil_l. eapply Forall_impl; [exact Hall|]. now left.
    + constructor; [right; now exists e | constructor].
  - unfold loadToolVersionsSource.
    destruct (ScanFile F path) as [[texts err]|]; [|constructor].
    rewrite toolVersionsLines_mergeAll.
    destruct (mergeAll_warnings ".tool-versions" ("tool-versions:" +:+ path)
                failOnUnknown skipUnknown warnOnUnknown
                (omap toolVersionsEntry texts) tools [])
      as (new & Hnew & Hall).
    destruct (mergeAll _ _ _ _ _ _ _) as [tools' ws']. cbn [fst snd] in *.
    subst ws'. rewrite app_nil_l.
    assert (Hall' : Forall
      (fun message =>
         unknownToolMessage ".tool-versions" failOnUnknown skipUnknown
           warnOnUnknown tools tools' message \/
         exists e, message = "Error reading .tool-versions: " +:+ e) new).
    { eapply Forall_impl; [exact Hall|]. now left. }
    destruct err as [e|]; cbn [fst snd]; [|exact Hall'].
    apply Forall_app. split; [exact Hall'|].
    constructor; [right; now exists e | constructor].
Qed.


Lemma configTools_lookup source sections name :
  configTools source sections !! name
  = (fun cfg => configToTool name cfg source) <$> sections !! name.
Proof.
  unfold configTools. rewrite map_lookup_imap.
  now destruct (sections !! name).
Qed.

Lemma chexEntries_union path entries : forall tools,
  chexEntries path entries tools
  = tools ∪ configTools ("chex:" +:+ path) (list_to_map entries).
Proof.
  induction entries as [|[name cfg] rest IH]; intros tools.
  - cbn. unfold configTools. rewrite map_imap_empty.
    now rewrite (right_id_L ∅ (∪)).
  - cbn [chexEntries]. rewrite list_to_map_cons.
    destruct (tools !! name) as [t|] eqn:Ht; rewrite IH; apply map_eq;
      intros k; rewrite !lookup_union, !configTools_lookup;
      (destruct (decide (k = name)) as [->|Hk];
       [rewrite ?lookup_insert_eq, ?Ht
       |rewrite ?(lookup_insert_ne (list_to_map rest)) by congruence;
        rewrite ?lookup_insert_ne by congruence; reflexivity]).
    + now destruct (list_to_map rest !! name).
    + now destruct (list_to_map rest !! name).
Qed.

Lemma loadChexSource_union path tools :
  (loadChexSource F path tools).1
  = tools ∪
    match Load F path with
    | inl cfg => configTools ("chex:" +:+ path) (ConfigTools cfg)
    | inr _ => ∅
    end.
Proof.
  unfold loadChexSource. destruct (Load F path) as [cfg|e]; cbn [fst].
  - rewrite chexEntries_union.
    rewrite <- (list_to_map_flip (ConfigTools cfg)
                  (rangeConfigs F (ConfigTools cfg))); [reflexivity|].
    symmetry. apply rangeConfigs_perm.
  - now rewrite (right_id_L ∅ (∪)).
Qed.

Lemma loadSource_union path sourceType tools f s w :
  (loadSource F path sourceType tools f s w).1
  = tools ∪ sourceTools F path sourceType f s.
Proof.
  unfold loadSource, sourceTools.
  destruct (sourceType =? "chex")%string.
  { cbn [fst]. apply loadChexSource_union. }
  destruct (sourceType =? "mise")%string.
  { rewrite loadMiseSource_union.
    destruct (ReadFile F path) as [data|];
      [|now rewrite (right_id_L ∅ (∪))].
    destruct (UnmarshalMise F data); [reflexivity|].
    now rewrite (right_id_L ∅ (∪)). }
  destruct (sourceType =? "tool-versions")%string.
  { rewrite loadToolVersionsSource_union.
    destruct (ScanFile F path) as [[texts err]|]; [reflexivity|].
    now rewrite (right_id_L ∅ (∪)). }
  cbn [fst]. now rewrite (right_id_L ∅ (∪)).
Qed.

(** X19.  An external source only adds tools: whatever its type, the tools
    after [loadSource] are the tools before and, for the names they do
    not have, what the source offers; the tools before stay as they are.
    A chex source gives no warning, and a source of another type than
    the three gives one and adds nothing. *)
Theorem external_sources_only_add (path sourceType : string)
    (tools : gmap string Tool)
    (failOnUnknown skipUnknown warnOnUnknown : bool) :
  let loaded :=
    loadSource F path sourceType tools failOnUnknown skipUnknown
      warnOnUnknown in
  loaded.1
  = tools ∪ sourceTools F path sourceType failOnUnknown skipUnknown /\
  tools ⊆ loaded.1 /\
  (sourceType = "chex" -> loaded.2 = []) /\
  (sourceType <> "chex" -> sourceType <> "mise" ->
   sourceType <> "tool-versions" ->
   loaded = (tools, [ "Error: unknown source type: " +:+ sourceType ])).
Proof.
  cbv zeta. split; [apply loadSource_union|].
  split; [rewrite loadSource_union; apply map_union_subseteq_l|].
  unfold loadSource. split.
  - intros ->. reflexivity.
  - intros H1 H2 H3.
    destruct (String.eqb_spec sourceType "chex"); [contradiction|].
    destruct (String.eqb_spec sourceType "mise"); [contradiction|].
    destruct (String.eqb_spec sourceType "tool-versions"); [contradiction|].
    reflexivity.
Qed.

Lemma admits_skip f name : admits f true name = (resolveToolMapping name).2.
Proof. unfold admits. cbn. now rewrite orb_false_r. Qed.

Lemma admits_fail s name : admits true s name = (resolveToolMapping name).2.
Proof. unfold admits. now rewrite andb_false_r, orb_false_r. Qed.

Lemma externalTools_known source f1 s1 f2 s2 read :
  (forall name, admits f1 s1 name = admits f2 s2 name) ->
  externalTools source f1 s1 read = externalTools source f2 s2 read.
Proof.
  intros H. apply map_eq. intros name.
  now rewrite !externalTools_lookup, H.
Qed.

(** X20.  Fail-on-unknown does not fail the load: a source gives the same
    tools under it as under skip-on-unknown, whatever the other flags. *)
Theorem fail_on_unknown_loads_as_skip (path sourceType : string)
    (tools : gmap string Tool) (skipUnknown failOnUnknown : bool)
    (warnOnUnknown warnOnUnknown' : bool) :
  (loadSource F path sourceType tools true skipUnknown warnOnUnknown).1
  = (loadSource F path sourceType tools failOnUnknown true warnOnUnknown').1.
Proof.
  rewrite !loadSource_union. f_equal. unfold sourceTools.
  assert (H : forall name,
             admits true skipUnknown name = admits failOnUnknown true name).
  { intros name. now rewrite admits_skip, admits_fail. }
  destruct (sourceType =? "chex")%string; [reflexivity|].
  destruct (sourceType =? "mise")%string.
  { destruct (ReadFile F path) as [data|]; [|reflexivity].
    destruct (UnmarshalMise F data); [|reflexivity].
    now apply externalTools_known. }
  destruct (sourceType =? "tool-versions")%string; [|reflexivity].
  destruct (ScanFile F path) as [[texts err]|]; [|reflexivity].
  now apply externalTools_known.
Qed.


Lemma union_lookup_cases (tools extra : gmap string Tool) name :
  (tools ∪ extra) !! name
  = match tools !! name with
    | Some tool => Some tool
    | None => extra !! name
    end.
Proof.
  rewrite lookup_union.
  destruct (tools !! name), (extra !! name); reflexivity.
Qed.

(** X21.  A name of [mise.toml] that the tools do not have yet becomes, when
    the flags admit it, the tool of its mapping with the version of its
    value, whatever the order in which the names of the file are visited;
    a name that the tools have keeps its tool. *)
Theorem mise_tool_by_name (path : string) (tools : gmap string Tool)
    (failOnUnknown skipUnknown warnOnUnknown : bool)
    (data : string) (miseTools : gmap string TomlValue) (name : string) :
  ReadFile F path = inl data ->
  UnmarshalMise F data = inl miseTools ->
  (loadMiseSource F path tools failOnUnknown skipUnknown warnOnUnknown).1
    !! name
  = match tools !! name with
    | Some tool => Some tool
    | None =>
        match miseTools !! name with
        | Some value =>
            if admits failOnUnknown skipUnknown name
            then Some (externalTool name (resolveToolMapping name).1.1
                         (extractMiseVersion value)
                         (resolveToolMapping name).1.2 ("mise:" +:+ path))
            else None
        | None => None
        end
    end.
Proof.
  intros Hread Hparse. rewrite loadMiseSource_union, Hread, Hparse.
  rewrite union_lookup_cases, externalTools_lookup, lookup_fmap.
  now destruct (miseTools !! name).
Qed.

(** X22.  Of the lines of [.tool-versions] that give a name, the first one
    counts: when the tools do not have the name yet and the flags admit
    it, the name becomes the tool of its mapping with the version of that
    line; a name that the tools have keeps its tool. *)
Theorem first_line_of_a_name_counts (path : string) (tools : gmap string Tool)
    (failOnUnknown skipUnknown warnOnUnknown : bool)
    (err : error) (before after : list string)
    (text name version : string) :
  ScanFile F path = Some (before ++ text :: after, err) ->
  toolVersionsEntry text = Some (name, version) ->
  Forall (fun earlier =>
            forall v, toolVersionsEntry earlier <> Some (name, v)) before ->
  (loadToolVersionsSource F path tools failOnUnknown skipUnknown
     warnOnUnknown).1 !! name
  = match tools !! name with
    | Some tool => Some tool
    | None =>
        if admits failOnUnknown skipUnknown name
        then Some (externalTool name (resolveToolMapping name).1.1 version
                     (resolveToolMapping name).1.2
                     ("tool-versions:" +:+ path))
        else None
    end.
Proof.
  intros Hscan Hentry Hbefore.
  rewrite loadToolVersionsSource_union, Hscan.
  rewrite union_lookup_cases, externalTools_lookup.
  assert (Hread : (list_to_map (omap toolVersionsEntry
                                  (before ++ text :: after))
                   : gmap string string) !! name = Some version).
  { rewrite omap_app. cbn [omap list_omap]. rewrite Hentry.
    rewrite list_to_map_app, lookup_union.
    rewrite (not_elem_of_list_to_map_1 (omap toolVersionsEntry before) name).
    - rewrite list_to_map_cons, lookup_insert_eq. reflexivity.
    - intros Hin. apply list_elem_of_fmap in Hin as ([n v] & -> & Hin).
      apply list_elem_of_omap in Hin as (earlier & Hin & He).
      rewrite Forall_forall in Hbefore. now apply (Hbefore earlier Hin v). }
  now rewrite Hread.
Qed.

End LoaderProperties.

(** ** The main file *)

Section LoadProperties.

Import Text.

Context (F : FileSystem).

Lemma loadSections_spec entries : NoDup entries.*1 -> forall cfg,
  match loadSections F entries cfg with
  | inl cfg' =>
      ConfigTools cfg'
      = omap (decodedTool F) (delete "chex" (list_to_map entries)) ∪
        ConfigTools cfg /\
      Chex cfg'
      = match (list_to_map entries : gmap string TomlValue) !! "chex" with
        | Some value => decodedChex F value
        | None => Chex cfg
        end /\
      (forall name value,
          (name, value) ∈ entries ->
          if (name =? "chex")%string then is_Some (decodedChex F value)
          else is_Some (decodedTool F value))
  | inr e =>
      exists name value detail,
        (name, value) ∈ entries /\
        ((name = "chex" /\ decodeChex F value = inr detail /\
          e = "failed to parse [chex] section: " +:+ detail) \/
         (name <> "chex" /\ decodeTool F value = inr detail /\
          e = "failed to parse [" +:+ name +:+ "] section: " +:+ detail))
  end.
Proof.
  induction entries as [|[name value] rest IH]; intros Hnd cfg.
  { cbn [loadSections list_to_map foldr]. rewrite delete_empty, omap_empty.
    rewrite (left_id_L ∅ (∪)), lookup_empty. split; [reflexivity|].
    split; [reflexivity|]. intros n v Hin. now apply elem_of_nil in Hin. }
  cbn [fmap list_fmap fst] in Hnd. apply NoDup_cons in Hnd as [Hfresh Hnd].
  pose proof (not_elem_of_list_to_map_1 (M := gmap string) rest name Hfresh)
    as Hnone.
  cbn [loadSections]. rewrite list_to_map_cons.
  destruct (String.eqb_spec name "chex") as [->|Hname].
  - destruct (decodeChex F value) as [chexCfg|detail] eqn:Hdec.
    + specialize (IH Hnd {| Chex := Some chexCfg;
                            ConfigTools := ConfigTools cfg |}).
      destruct (loadSections F rest _) as [cfg'|e].
      * destruct IH as (Htools & Hchex & Hall). cbn [ConfigTools Chex] in *.
        split; [now rewrite delete_insert_eq|].
        split.
        { rewrite lookup_insert_eq, Hchex, Hnone. unfold decodedChex.
          now rewrite Hdec. }
        intros n v Hin. apply elem_of_cons in Hin as [Heq | Hin];
          [|now apply Hall].
        injection Heq as -> ->. cbn. unfold decodedChex. rewrite Hdec. eauto.
      * destruct IH as (n & v & detail & Hin & Hcases).
        exists n, v, detail. split; [now apply elem_of_cons; right|].
        exact Hcases.
    + exists "chex", value, detail. split; [apply elem_of_cons; now left|].
      left. now repeat split.
  - destruct (decodeTool F value) as [toolCfg|detail] eqn:Hdec.
    + specialize (IH Hnd {| Chex := Chex cfg;
                            ConfigTools := <[name := toolCfg]>
                                             (ConfigTools cfg) |}).
      destruct (loadSections F rest _) as [cfg'|e].
      * destruct IH as (Htools & Hchex & Hall). cbn [ConfigTools Chex] in *.
        split.
        { rewrite Htools. apply map_eq. intros k.
          rewrite !lookup_union, !lookup_omap.
          destruct (decide (k = "chex")) as [->|Hk].
          - rewrite !lookup_delete_eq. cbn.
            now rewrite lookup_insert_ne by congruence.
          - rewrite !lookup_delete_ne by congruence.
            destruct (decide (k = name)) as [->|Hkn].
            + rewrite !lookup_insert_eq, Hnone. cbn. unfold decodedTool.
              rewrite Hdec. now destruct (ConfigTools cfg !! name).
            + now rewrite !lookup_insert_ne by congruence. }
        split.
        { rewrite lookup_insert_ne by congruence. exact Hchex. }
        intros n v Hin. apply elem_of_cons in Hin as [Heq | Hin];
          [|now apply Hall].
        injection Heq as -> ->.
        destruct (String.eqb_spec name "chex"); [contradiction|].
        unfold decodedTool. rewrite Hdec. eauto.
      * destruct IH as (n & v & detail & Hin & Hcases).
        exists n, v, detail. split; [now apply elem_of_cons; right|].
        exact Hcases.
    + exists name, value, detail. split; [apply elem_of_cons; now left|].
      right. now repeat split.
Qed.

(** X24.  [Load] reads the file at [path], or [.chex.toml] without one.  When
    it succeeds every section decodes; the tools of the result are the
    decoded sections other than [chex], by name, and the [chex] section,
    decoded, is its settings; the order in which the sections are visited
    plays no part.  When the file is read and parsed and [Load] still
    fails, the error names a section that does not decode. *)
Theorem Load_sections (path : string) :
  let file := if (path =? "")%string then ".chex.toml" else path in
  match ReadFile F file with
  | inr e => Load F path = inr ("failed to read config file: " +:+ e)
  | inl data =>
      match UnmarshalRaw F data with
      | inr e => Load F path = inr ("failed to parse config file: " +:+ e)
      | inl raw =>
          match Load F path with
          | inl cfg =>
              ConfigTools cfg = omap (decodedTool F) (delete "chex" raw) /\
              Chex cfg = raw !! "chex" ≫= decodedChex F /\
              (forall name value,
                  raw !! name = Some value ->
                  if (name =? "chex")%string
                  then is_Some (decodedChex F value)
                  else is_Some (decodedTool F value))
          | inr e =>
              exists name value detail,
                raw !! name = Some value /\
                ((name = "chex" /\ decodeChex F value = inr detail /\
                  e = "failed to parse [chex] section: " +:+ detail) \/
                 (name <> "chex" /\ decodeTool F value = inr detail /\
                  e = "failed to parse [" +:+ name +:+ "] section: "
                      +:+ detail))
          end
      end
  end.
Proof.
  cbv zeta. unfold Load.
  destruct (ReadFile F _) as [data|e]; [|reflexivity].
  destruct (UnmarshalRaw F data) as [raw|e]; [|reflexivity].
  assert (Hperm : rangeRaw F raw ≡ₚ map_to_list raw) by apply rangeRaw_perm.
  assert (Hnd : NoDup (rangeRaw F raw).*1).
  { rewrite Hperm. apply NoDup_fst_map_to_list. }
  assert (Hmap : list_to_map (rangeRaw F raw) = raw).
  { symmetry. apply list_to_map_flip. now symmetry. }
  pose proof (loadSections_spec (rangeRaw F raw) Hnd
                {| Chex := None; ConfigTools := ∅ |}) as H.
  destruct (loadSections F (rangeRaw F raw) _) as [cfg|e].
  - destruct H as (Htools & Hchex & Hall). rewrite Hmap in *.
    cbn [ConfigTools Chex] in *.
    split; [now rewrite Htools, (right_id_L ∅ (∪))|].
    split; [rewrite Hchex; now destruct (raw !! "chex")|].
    intros name value Hl. apply Hall. rewrite Hperm.
    now apply elem_of_map_to_list.
  - destruct H as (name & value & detail & Hin & Hcases).
    exists name, value, detail. split; [|exact Hcases].
    rewrite Hperm in Hin. now apply elem_of_map_to_list in Hin.
Qed.

End LoadProperties.

(** ** The merged configuration *)

Section MergeProperties.

Import Text.

Context (F : FileSystem).

Lemma convertTools_union entries : NoDup entries.*1 -> forall tools,
  convertTools entries tools
  = configTools "config" (list_to_map entries) ∪ tools.
Proof.
  induction entries as [|[name cfg] rest IH]; intros Hnd tools.
  { cbn. unfold configTools. rewrite map_imap_empty.
    now rewrite (left_id_L ∅ (∪)). }
  cbn [fmap list_fmap fst] in Hnd. apply NoDup_cons in Hnd as [Hfresh Hnd].
  pose proof (not_elem_of_list_to_map_1 (M := gmap string) rest name Hfresh)
    as Hnone.
  cbn [convertTools]. rewrite list_to_map_cons, (IH Hnd).
  apply map_eq. intros k. rewrite !lookup_union, !configTools_lookup.
  destruct (decide (k = name)) as [->|Hk].
  - rewrite !lookup_insert_eq, Hnone. cbn. now destruct (tools !! name).
  - now rewrite !lookup_insert_ne by congruence.
Qed.

Lemma sourceTools_source path sourceType f s name tool :
  sourceTools F path sourceType f s !! name = Some tool ->
  Source tool <> "config".
Proof.
  unfold sourceTools.
  destruct (sourceType =? "chex")%string.
  { destruct (Load F path) as [cfg|]; [|now rewrite lookup_empty].
    rewrite configTools_lookup.
    destruct (ConfigTools cfg !! name); [|discriminate].
    intros [= <-]. discriminate. }
  destruct (sourceType =? "mise")%string.
  { destruct (ReadFile F path) as [data|]; [|now rewrite lookup_empty].
    destruct (UnmarshalMise F data) as [m|]; [|now rewrite lookup_empty].
    rewrite externalTools_lookup.
    destruct (_ !! name); [|discriminate].
    destruct (admits f s name); [|discriminate].
    intros [= <-]. discriminate. }
  destruct (sourceType =? "tool-versions")%string.
  { destruct (ScanFile F path) as [[texts err]|]; [|now rewrite lookup_empty].
    rewrite externalTools_lookup.
    destruct (_ !! name); [|discriminate].
    destruct (admits f s name); [|discriminate].
    intros [= <-]. discriminate. }
  now rewrite lookup_empty.
Qed.

Lemma mainFirst_union sections tools path sourceType f s :
  mainFirst sections tools ->
  mainFirst sections (tools ∪ sourceTools F path sourceType f s).
Proof.
  intros Hmain name. specialize (Hmain name).
  rewrite union_lookup_cases.
  destruct (sections !! name) as [cfg|].
  - now rewrite Hmain.
  - intros tool. destruct (tools !! name) as [t|] eqn:Ht.
    + intros [= <-]. now apply Hmain.
    + apply sourceTools_source.
Qed.

Lemma mainFirst_merged sections f s sources : forall tools,
  mainFirst sections tools ->
  mainFirst sections (mergedTools F f s sources tools).
Proof.
  induction sources as [|[path sourceType] rest IH]; intros tools Hmain;
    [exact Hmain|].
  apply IH. now apply mainFirst_union.
Qed.

Lemma explicitSources_merged rootDir f s w sources : forall result,
  LoadedTools (explicitSources F rootDir f s w sources result)
  = mergedTools F f s
      (map (fun source =>
              (if negb (IsAbs F (SourcePath source))
               then Join F rootDir (SourcePath source)
               else SourcePath source,
               SourceType source)) sources)
      (LoadedTools result).
Proof.
  induction sources as [|source rest IH]; intros result; [reflexivity|].
  cbn [explicitSources map]. unfold mergedTools. cbn [fold_left fst snd].
  rewrite <- loadSource_union with (w := w).
  destruct (loadSource F _ (SourceType source) (LoadedTools result) f s w)
    as [tools warnings].
  rewrite IH. reflexivity.
Qed.

Lemma detectedSources_merged rootDir f s w result :
  LoadedTools (detectedSources F rootDir f s w result)
  = mergedTools F f s
      ((if Stat F (Join F rootDir "mise.toml")
        then [ (Join F rootDir "mise.toml", "mise") ] else []) ++
       (if Stat F (Join F rootDir ".tool-versions")
        then [ (Join F rootDir ".tool-versions", "tool-versions") ]
        else []))
      (LoadedTools result).
Proof.
  unfold detectedSources, mergedTools.
  destruct (Stat F (Join F rootDir "mise.toml")).
  - pose proof (loadSource_union F (Join F rootDir "mise.toml") "mise"
                  (LoadedTools result) f s w) as H1.
    destruct (loadSource F (Join F rootDir "mise.toml") "mise"
                (LoadedTools result) f s w) as [tools1 warnings1].
    cbn [fst] in H1. subst tools1.
    destruct (Stat F (Join F rootDir ".tool-versions")); [|reflexivity].
    cbn [LoadedTools].
    pose proof (loadSource_union F (Join F rootDir ".tool-versions")
                  "tool-versions"
                  (LoadedTools result ∪
                   sourceTools F (Join F rootDir "mise.toml") "mise" f s)
                  f s w) as H2.
    destruct (loadSource F (Join F rootDir ".tool-versions") "tool-versions"
                _ f s w) as [tools2 warnings2].
    cbn [fst] in H2. now subst tools2.
  - destruct (Stat F (Join F rootDir ".tool-versions")); [|reflexivity].
    pose proof (loadSource_union F (Join F rootDir ".tool-versions")
                  "tool-versions" (LoadedTools result) f s w) as H2.
    destruct (loadSource F (Join F rootDir ".tool-versions") "tool-versions"
                _ f s w) as [tools2 warnings2].
    cbn [fst] in H2. now subst tools2.
Qed.

(** X25.  [LoadAndMerge] fails exactly when [Load] of the main file fails, with
    its error.  Otherwise the tools are those of the main file, converted,
    and then those of the sources in order, a source adding only the names
    that are not there yet: every section of the main file is among the
    tools as the main file has it, and no other tool has the source
    [config]. *)
Theorem main_configuration_wins (path rootDir : string) :
  let root := if (rootDir =? "")%string then "." else rootDir in
  match LoadAndMerge F path rootDir with
  | inr e => Load F (mainPath F path rootDir) = inr e
  | inl loaded =>
      exists cfg,
        Load F (mainPath F path rootDir) = inl cfg /\
        LoadedTools loaded
        = mergedTools F
            (match Chex cfg with
             | Some c => FailOnUnknownTools c | None => false end)
            (match Chex cfg with
             | Some c => SkipUnknownTools c | None => false end)
            (sourcesOf F root cfg)
            (configTools "config" (ConfigTools cfg)) /\
        mainFirst (ConfigTools cfg) (LoadedTools loaded)
  end.
Proof.
  cbv zeta. unfold LoadAndMerge.
  change (if negb (IsAbs F (if (path =? "")%string then ".chex.toml" else path))
          then Join F (if (rootDir =? "")%string then "." else rootDir)
                 (if (path =? "")%string then ".chex.toml" else path)
          else (if (path =? "")%string then ".chex.toml" else path))
    with (mainPath F path rootDir).
  destruct (Load F (mainPath F path rootDir)) as [cfg|e]; [|reflexivity].
  set (root := if (rootDir =? "")%string then "." else rootDir).
  set (f := match Chex cfg with
            | Some c => FailOnUnknownTools c | None => false end).
  set (s := match Chex cfg with
            | Some c => SkipUnknownTools c | None => false end).
  set (w := match Chex cfg with
            | Some c => WarnOnUnknownTools c | None => true end).
  assert (Hmain : convertTools (rangeConfigs F (ConfigTools cfg)) ∅
                  = configTools "config" (ConfigTools cfg)).
  { rewrite convertTools_union.
    - rewrite (right_id_L ∅ (∪)).
      rewrite <- (list_to_map_flip (ConfigTools cfg)
                    (rangeConfigs F (ConfigTools cfg))); [reflexivity|].
      symmetry. apply rangeConfigs_perm.
    - rewrite (rangeConfigs_perm F). apply NoDup_fst_map_to_list. }
  assert (Hfirst : mainFirst (ConfigTools cfg)
                     (configTools "config" (ConfigTools cfg))).
  { intros name. rewrite configTools_lookup.
    destruct (ConfigTools cfg !! name); [reflexivity | discriminate]. }
  assert (Hclosed :
    LoadedTools
      match Chex cfg with
      | Some c =>
          if (0 <? length (Sources c))%nat
          then explicitSources F root f s w (Sources c)
                 {| LoadedTools :=
                      convertTools (rangeConfigs F (ConfigTools cfg)) ∅;
                    Warnings := [] |}
          else detectedSources F root f s w
                 {| LoadedTools :=
                      convertTools (rangeConfigs F (ConfigTools cfg)) ∅;
                    Warnings := [] |}
      | None =>
          detectedSources F root f s w
            {| LoadedTools :=
                 convertTools (rangeConfigs F (ConfigTools cfg)) ∅;
               Warnings := [] |}
      end
    = mergedTools F f s (sourcesOf F root cfg)
        (configTools "config" (ConfigTools cfg))).
  { unfold sourcesOf. destruct (Chex cfg) as [c|].
    - destruct (0 <? length (Sources c))%nat.
      + now rewrite explicitSources_merged, Hmain.
      + now rewrite detectedSources_merged, Hmain.
    - now rewrite detectedSources_merged, Hmain. }
  destruct (Chex cfg) as [c|] eqn:Hc;
    [destruct (0 <? length (Sources c))%nat eqn:Hlen|].
  all: eexists; split; [reflexivity|]; rewrite ?Hc; split; [exact Hclosed|].
  all: rewrite Hclosed; now apply mainFirst_merged.
Qed.

End MergeProperties.

(** ** The lines of [.tool-versions] *)

Section ToolVersionsLines.

Import Text.

Lemma spaceRunes_nonempty : Forall (fun r => r <> "") spaceRunes.
Proof. vm_compute. repeat constructor; discriminate. Qed.

Lemma leadingSpace_zero s :
  leadingSpace spaceRunes s = 0 <->
  Forall (fun r => HasPrefix s r = false) spaceRunes.
Proof.
  unfold leadingSpace.
  destruct (filter _ spaceRunes) as [|r rest] eqn:E.
  - split; [intros _|reflexivity].
    apply Forall_forall. intros r Hr.
    destruct (HasPrefix s r) eqn:Hp; [|reflexivity]. exfalso.
    assert (Hin : r ∈ filter (fun r => Is_true (HasPrefix s r)) spaceRunes).
    { apply list_elem_of_filter. split; [now rewrite Hp | exact Hr]. }
    rewrite E in Hin. now apply elem_of_nil in Hin.
  - assert (Hin : r ∈ filter (fun r => Is_true (HasPrefix s r)) spaceRunes)
      by (rewrite E; now left).
    apply list_elem_of_filter in Hin as [Hp Hr]. split.
    + intros H0. exfalso.
      pose proof spaceRunes_nonempty as Hne. rewrite Forall_forall in Hne.
      apply (Hne r Hr). now destruct r.
    + intros Hall. rewrite Forall_forall in Hall.
      rewrite (Hall r Hr) in Hp. destruct Hp.
Qed.

Lemma HasPrefix_app (p q r : string) :
  HasPrefix p r = true -> HasPrefix (p +:+ q) r = true.
Proof.
  revert p. induction r as [|a r IH]; intros p.
  { intros _. now destruct (p +:+ q). }
  destruct p as [|b p]; [discriminate|]. cbn.
  intros H. apply andb_true_iff in H as [-> H]. now apply IH.
Qed.

Lemma leadingSpace_prefix (p q : string) :
  leadingSpace spaceRunes (p +:+ q) = 0 -> leadingSpace spaceRunes p = 0.
Proof.
  rewrite !leadingSpace_zero. intros H. eapply Forall_impl; [exact H|].
  intros r Hr. cbn beta in *. destruct (HasPrefix p r) eqn:E; [|reflexivity].
  now rewrite (HasPrefix_app p q r E) in Hr.
Qed.

Lemma drop_length n : forall s,
  String.length (drop n s) = String.length s - n.
Proof.
  induction n as [|n IH]; intros s; [cbn; lia|].
  destruct s as [|a s]; [reflexivity|]. cbn [drop String.length].
  rewrite IH. lia.
Qed.

Lemma trimLeftSpaces_done fuel : forall s,
  String.length s <= fuel ->
  leadingSpace spaceRunes (trimLeftSpaces spaceRunes fuel s) = 0.
Proof.
  induction fuel as [|fuel IH]; intros s Hlen.
  - destruct s; [vm_compute; reflexivity | cbn in Hlen; lia].
  - cbn [trimLeftSpaces].
    destruct (leadingSpace spaceRunes s) as [|n] eqn:E; [exact E|].
    apply IH. rewrite drop_length.
    destruct s as [|a s]; [vm_compute in E; discriminate E|].
    cbn [String.length] in *. lia.
Qed.

Lemma TrimRightSpace_prefix s : exists post, s = TrimRightSpace s +:+ post.
Proof.
  unfold TrimRightSpace.
  destruct (trimLeftSpaces_suffix (map String.rev spaceRunes)
              (String.length s) (String.rev s)) as (post & Hpost).
  exists (String.rev post).
  rewrite <- rev_app_distr, <- Hpost. now rewrite rev_involutive.
Qed.

Lemma TrimSpace_no_leading_space s :
  leadingSpace spaceRunes (TrimSpace s) = 0.
Proof.
  unfold TrimSpace.
  destruct (TrimRightSpace_prefix (TrimLeftSpace s)) as (post & Hpost).
  apply (leadingSpace_prefix _ post). rewrite <- Hpost.
  unfold TrimLeftSpace. now apply trimLeftSpaces_done.
Qed.

Lemma rev_nonempty s : s <> "" -> String.rev s <> "".
Proof.
  destruct s as [|a s]; [contradiction|]. intros _. rewrite rev_cons.
  now destruct (String.rev s).
Qed.

Lemma fields_go_nonempty fuel : forall cur s,
  Forall (fun f => f <> "") (fields_go fuel cur s).
Proof.
  assert (Hflush : forall cur,
    Forall (fun f => f <> "")
      match cur with "" => [] | String _ _ => [String.rev cur] end).
  { intros [|a cur]; constructor; [|constructor]. now apply rev_nonempty. }
  induction fuel as [|fuel IH]; intros cur s; cbn [fields_go];
    [apply Hflush|].
  destruct s as [|c s]; [apply Hflush|].
  destruct (leadingSpace spaceRunes (String c s)); [apply IH|].
  apply Forall_app. split; [apply Hflush | apply IH].
Qed.

Lemma fields_go_head fuel : forall cur s,
  cur <> "" ->
  exists tail more,
    fields_go fuel cur s = (String.rev cur +:+ tail) :: more.
Proof.
  induction fuel as [|fuel IH]; intros cur s Hcur; cbn [fields_go].
  - destruct cur; [contradiction|]. exists "", [].
    now rewrite app_nil_r_s.
  - destruct s as [|c s].
    { destruct cur; [contradiction|]. exists "", [].
      now rewrite app_nil_r_s. }
    destruct (leadingSpace spaceRunes (String c s)).
    + destruct (IH (String c cur) s) as (tail & more & ->); [discriminate|].
      exists (String c tail), more. now rewrite rev_cons, app_assoc_s.
    + destruct cur; [contradiction|]. eexists "", _.
      rewrite app_nil_r_s. reflexivity.
Qed.

Lemma fields_go_first fuel c s :
  leadingSpace spaceRunes (String c s) = 0 ->
  fields_go (S fuel) "" (String c s) = fields_go fuel (String c "") s.
Proof.
  intros H. destruct fuel; cbn [fields_go]; now rewrite H.
Qed.

(** X23.  A line of [.tool-versions] that gives a tool is not blank and is not a
    comment; the name and the version are its first two fields, neither
    is empty, and the name starts with the first byte of the line after
    trimming, so that it does not start with [#]. *)
Theorem tool_versions_entry (text name version : string) :
  toolVersionsEntry text = Some (name, version) ->
  TrimSpace text <> "" /\
  HasPrefix (TrimSpace text) "#" = false /\
  (exists rest, Fields (TrimSpace text) = name :: version :: rest) /\
  name <> "" /\ version <> "" /\
  HasPrefix name "#" = false.
Proof.
  unfold toolVersionsEntry.
  destruct (String.eqb_spec (TrimSpace text) "") as [|Hne]; [discriminate|].
  destruct (HasPrefix (TrimSpace text) "#") eqn:Hhash; [discriminate|].
  cbn [orb].
  pose proof (fields_go_nonempty (S (String.length (TrimSpace text))) ""
                (TrimSpace text)) as Hfields.
  pose proof (TrimSpace_no_leading_space text) as Hlead.
  fold (Fields (TrimSpace text)) in Hfields.
  assert (Hhead : forall first others,
             Fields (TrimSpace text) = first :: others ->
             HasPrefix first "#" = false).
  { unfold Fields. destruct (TrimSpace text) as [|c line];
      [contradiction|].
    rewrite (fields_go_first _ c line Hlead).
    destruct (fields_go_head (String.length (String c line)) (String c "")
                line)
      as (tail & more & ->); [discriminate|].
    intros first others [= <- _].
    change (String.rev (String c "")) with (String c "").
    change (HasPrefix (String c line) "#")
      with (Ascii.eqb "#" c && HasPrefix line "") in Hhash.
    change (Ascii.eqb "#" c && HasPrefix ("" +:+ tail) "" = false).
    destruct (Ascii.eqb "#" c); [|reflexivity].
    now destruct line. }
  destruct (Fields (TrimSpace text)) as [|first [|second rest]];
    [discriminate..|].
  cbn. intros [= <- <-].
  apply Forall_cons in Hfields as [H1 Hfields].
  apply Forall_cons in Hfields as [H2 _].
  split; [exact Hne|]. split; [reflexivity|]. split; [eauto|].
  split; [exact H1|]. split; [exact H2|]. exact (Hhead first _ eq_refl).
Qed.

End ToolVersionsLines.

(** ** More scenarios on the simulated machine and file system *)

Section MoreScenarios.

Import Text.

Import Sim SimFiles.

(** [go] passes, and its outcome has no failure reason. *)
Lemma pass_has_no_error_witness :
  ResultStatus (Check platform goTool start).1 = StatusPass /\
  Error (Check platform goTool start).1 = None.
Proof.
  assert (H : ResultStatus (Check platform goTool start).1 = StatusPass)
    by (vm_compute; reflexivity).
  split; [exact H|].
  exact (proj1 (pass_has_no_error platform ∅ [] goTool start) H).
Defined.

(** [go] against a constraint that its version does not satisfy. *)
Lemma unsatisfied_constraint_has_no_reason_witness :
  ResultStatus (Check platform (Sim.tool "go" ">=999.0.0" "" false) start).1
  <> StatusPass /\
  Error (Check platform (Sim.tool "go" ">=999.0.0" "" false) start).1 = None.
Proof.
  apply (unsatisfied_constraint_has_no_reason platform
           (Sim.tool "go" ">=999.0.0" "" false) start).
  split; [discriminate|].
  exists "go version go1.20.0 darwin/amd64", "1.20.0",
    (GreaterEq, (999, 0, 0)), (1, 20, 0).
  repeat split.
Defined.

Lemma version_check_fields_witness :
  Version goTool <> "" /\
  Output (Check platform goTool start).1
  = "go version go1.20.0 darwin/amd64" /\
  InstalledVersion (Check platform goTool start).1 = "1.20.0".
Proof.
  split; [discriminate|].
  destruct (version_check_fields platform goTool start) as (_ & _ & Ho & Hi);
    [discriminate|].
  split; [rewrite Ho | rewrite Hi]; vm_compute; reflexivity.
Defined.

Lemma failure_reasons_witness :
  Error (Check platform absentTool start).1
  = Some "nope: command not found" /\
  ResultStatus (Check platform absentTool start).1 <> StatusPass.
Proof.
  split; [reflexivity|].
  exact (proj1 (failure_reasons platform absentTool start
                  "nope: command not found" eq_refl)).
Defined.

Lemma CheckAll_app_witness :
  ["go"] <> [] /\ ["unknown"] <> [] /\
  (CheckAll platform {[ "go" := goTool ]} (["go"] ++ ["unknown"]) start).1
  = (CheckAll platform {[ "go" := goTool ]} ["go"] start).1 ++
    [notInConfiguration "unknown"].
Proof.
  split; [discriminate|]. split; [discriminate|].
  rewrite (CheckAll_app platform {[ "go" := goTool ]} ["go"] ["unknown"] start)
    by discriminate.
  cbv zeta. cbn [fst]. f_equal.
Defined.

Lemma CheckAll_requested_entries_only_witness :
  ["go"] <> [] /\
  CheckAll platform {[ "go" := goTool ]} ["go"] start
  = CheckAll platform {[ "go" := goTool; "slowtool" := slowTool ]} ["go"]
      start.
Proof.
  split; [discriminate|].
  apply CheckAll_requested_entries_only; [discriminate|].
  intros name [<- | []]. vm_compute. reflexivity.
Defined.

Lemma extraction_results_witness :
  extractVersion platform sampleOutput "" = ("1.2.3", None) /\
  versionShaped "1.2.3" /\ isSubstring "1.2.3" sampleOutput.
Proof.
  assert (H : extractVersion platform sampleOutput "" = ("1.2.3", None))
    by (vm_compute; reflexivity).
  split; [exact H|].
  exact (proj2 (extraction_results platform sampleOutput "") "1.2.3" H).
Defined.

Lemma clean_version_line_qualifies_witness :
  isFirstLineOf "go version go1.20.0 darwin/amd64"
    "go version go1.20.0 darwin/amd64" /\
  qualifies platform "go version go1.20.0 darwin/amd64" = true.
Proof.
  assert (Hfirst : isFirstLineOf "go version go1.20.0 darwin/amd64"
                     "go version go1.20.0 darwin/amd64").
  { split; [|now left]. intros H. apply Contains_byte in H.
    vm_compute in H. discriminate H. }
  assert (Htrim : TrimSpace "go version go1.20.0 darwin/amd64"
                  = "go version go1.20.0 darwin/amd64")
    by (vm_compute; reflexivity).
  split; [exact Hfirst|].
  apply (clean_version_line_qualifies platform
           "go version go1.20.0 darwin/amd64"
           "go version go1.20.0 darwin/amd64" Hfirst).
  - rewrite Htrim. exists 13, "1.20.0". split.
    + exists "1", "20". split; [split; [discriminate | reflexivity]|].
      split; [split; [discriminate | reflexivity]|].
      right. exists "0". split; [split; [discriminate | reflexivity]|].
      reflexivity.
    + exists "go version go", " darwin/amd64". split; reflexivity.
  - rewrite Htrim. vm_compute. lia.
  - rewrite Htrim. intros pattern Hin Hsub. apply Contains_iff in Hsub.
    cbn [In rejectPatterns] in Hin.
    repeat (destruct Hin as [<- | Hin];
            [vm_compute in Hsub; discriminate Hsub|]).
    destruct Hin.
Defined.

(** [unknown] is requested and not configured. *)
Lemma exit_status_of_checks_witness :
  In "unknown" ["go"; "unknown"] /\
  ShouldExitWithError
    (CheckAll platform {[ "go" := goTool ]} ["go"; "unknown"] start).1 = true.
Proof.
  split; [right; now left|].
  apply (proj2 (exit_status_of_checks platform {[ "go" := goTool ]}
                  ["go"; "unknown"] start) "unknown");
    [right; now left | vm_compute; reflexivity].
Defined.

(** [go] with the explicit argument [version]. *)
Lemma json_command_of_explicit_probe_witness :
  jsonOutput (jsonTool (Check platform (Sim.tool "go" ">=1.18" "version" false)
                          start).1) <> "" /\
  jsonCommand (jsonTool (Check platform
                           (Sim.tool "go" ">=1.18" "version" false) start).1)
  = "go version".
Proof.
  assert (H : jsonOutput (jsonTool (Check platform
                (Sim.tool "go" ">=1.18" "version" false) start).1) <> "")
    by (vm_compute; discriminate).
  split; [exact H|].
  destruct (json_command_of_explicit_probe platform
              (Sim.tool "go" ">=1.18" "version" false) start) as [_ Hj].
  destruct (Hj H) as (_ & _ & Hc & _). rewrite Hc. reflexivity.
Defined.

(** The optional command that is not on the search path. *)
Lemma failures_are_explained_witness :
  ResultStatus (Check platform absentTool start).1 <> StatusPass /\
  In "   Error: nope: command not found"
    (quietResult plain (Check platform absentTool start).1) /\
  In "   Error: nope: command not found"
    (prettyResult plain (Check platform absentTool start).1).
Proof.
  assert (H : ResultStatus (Check platform absentTool start).1 <> StatusPass)
    by (vm_compute; discriminate).
  split; [exact H|].
  exact (failures_are_explained platform plain absentTool start H).
Defined.

Lemma unknown_name_is_rejected_witness :
  LoadAndMerge fileSystem "" "/ok" = inl okLoaded /\
  finish (runCheck platform fileSystem plain "" "/ok" false "pretty"
            ["unknown"] start).1
  = Returned (Some "invalid tool name").
Proof.
  assert (H : LoadAndMerge fileSystem "" "/ok" = inl okLoaded)
    by (vm_compute; reflexivity).
  split; [exact H|].
  apply (unknown_name_is_rejected platform fileSystem plain "" "/ok" false
           "pretty" ["unknown"] okLoaded "unknown" start H).
  - intros E. apply (f_equal (fun m => m !! "go")) in E.
    vm_compute in E. discriminate E.
  - now left.
  - vm_compute. reflexivity.
Defined.

(** With [/ok] as the root the one configured tool passes. *)
Lemma runCheck_returns_nil_witness :
  Forall harmless (CheckAll platform (LoadedTools okLoaded) [] start).1 /\
  finish (runCheck platform fileSystem plain "" "/ok" false "json" []
            start).1 = Returned None.
Proof.
  assert (H : Forall harmless
                (CheckAll platform (LoadedTools okLoaded) [] start).1).
  { apply ShouldExitWithError_harmless; [apply CheckAll_wellFormed|].
    vm_compute. reflexivity. }
  split; [exact H|].
  apply (proj2 (runCheck_returns_nil platform fileSystem plain "" "/ok"
                  false "json" [] start) okLoaded eq_refl).
  - vm_compute. reflexivity.
  - intros E. apply (f_equal (fun m => m !! "go")) in E.
    vm_compute in E. discriminate E.
  - exact H.
Defined.

Lemma known_tools_are_probed_explicitly_witness :
  (resolveToolMapping "golang").2 = true /\
  (resolveToolMapping "golang").1.1 <> "".
Proof.
  assert (H : (resolveToolMapping "golang").2 = true)
    by (vm_compute; reflexivity).
  split; [exact H|].
  exact (proj1 (known_tools_are_probed_explicitly platform "golang" "1.20"
                  "mise:./mise.toml" start H)).
Defined.

(** A source of a type that the package does not know. *)
Lemma external_sources_only_add_witness :
  "asdf" <> "chex" /\
  loadSource fileSystem "./tools" "asdf" (LoadedTools okLoaded) false false
    true
  = (LoadedTools okLoaded, [ "Error: unknown source type: asdf" ]).
Proof.
  split; [discriminate|].
  apply (external_sources_only_add fileSystem "./tools" "asdf"
           (LoadedTools okLoaded) false false true); discriminate.
Defined.

(** [golang] in [./mise.toml], known as the command [go]. *)
Lemma mise_tool_by_name_witness :
  ReadFile fileSystem "./mise.toml"
  = inl ("golang 1.20" +:+ String newline "shfmt 3.7") /\
  (loadMiseSource fileSystem "./mise.toml" ∅ false false true).1 !! "golang"
  = Some (externalTool "golang" "go" "1.20" "version" "mise:./mise.toml").
Proof.
  split; [reflexivity|].
  rewrite (mise_tool_by_name fileSystem "./mise.toml" ∅ false false true
             ("golang 1.20" +:+ String newline "shfmt 3.7")
             (list_to_map
                (map (fun line => (field 0 line, TomlString (field 1 line)))
                   (nonEmpty
                      (Split_lines
                         ("golang 1.20" +:+ String newline "shfmt 3.7")))))
             "golang" eq_refl eq_refl).
  vm_compute. reflexivity.
Defined.

(** [kubeconform] on the second line of [./.tool-versions], after a
    comment. *)
Lemma first_line_of_a_name_counts_witness :
  toolVersionsEntry "kubeconform 0.6.1" = Some ("kubeconform", "0.6.1") /\
  (loadToolVersionsSource fileSystem "./.tool-versions" ∅ false false
     true).1 !! "kubeconform"
  = Some (externalTool "kubeconform" "kubeconform" "0.6.1" "version"
            "tool-versions:./.tool-versions").
Proof.
  assert (H : toolVersionsEntry "kubeconform 0.6.1"
              = Some ("kubeconform", "0.6.1")) by (vm_compute; reflexivity).
  split; [exact H|].
  rewrite (first_line_of_a_name_counts fileSystem "./.tool-versions" ∅
             false false true None ["# tools"]
             ["go 1.19"; "  shellcheck   0.9.0  "]
             "kubeconform 0.6.1" "kubeconform" "0.6.1").
  - vm_compute. reflexivity.
  - vm_compute. reflexivity.
  - exact H.
  - constructor; [|constructor]. intros v Hv. vm_compute in Hv.
    discriminate Hv.
Defined.

(** The last line of [./.tool-versions], with spaces around its fields. *)
Lemma tool_versions_entry_witness :
  toolVersionsEntry "  shellcheck   0.9.0  " = Some ("shellcheck", "0.9.0") /\
  Fields (TrimSpace "  shellcheck   0.9.0  ") = ["shellcheck"; "0.9.0"].
Proof.
  assert (H : toolVersionsEntry "  shellcheck   0.9.0  "
              = Some ("shellcheck", "0.9.0")) by (vm_compute; reflexivity).
  split; [exact H|].
  destruct (tool_versions_entry "  shellcheck   0.9.0  " "shellcheck" "0.9.0"
              H) as (_ & _ & (rest & Hrest) & _).
  rewrite Hrest. f_equal. f_equal.
  assert (Hlen : length (Fields (TrimSpace "  shellcheck   0.9.0  ")) = 2)
    by (vm_compute; reflexivity).
  rewrite Hrest in Hlen. now destruct rest.
Defined.


End MoreScenarios.

(** ** Lower-casing rune by rune *)

Section CaseProperties.

Import Text Characters.

Lemma isASCII_N c : isASCII c = true <-> (N_of_ascii c < 128)%N.
Proof.
  unfold isASCII, byte_of, nat_of_ascii. rewrite Nat.ltb_lt. lia.
Qed.

Lemma high_byte n : (128 <= n < 256)%N -> isASCII (ascii_of_N n) = false.
Proof.
  intros H. apply not_true_iff_false. rewrite isASCII_N.
  rewrite N_ascii_embedding by lia. lia.
Qed.

Lemma low_byte n : (n < 128)%N -> isASCII (ascii_of_N n) = true.
Proof.
  intros H. apply isASCII_N. rewrite N_ascii_embedding by lia. lia.
Qed.

Lemma EncodeRune_cases r :
  ((r < 128)%N /\ Utf8.EncodeRune r = String (ascii_of_N r) "") \/
  exists h t,
    Utf8.EncodeRune r = String h t /\ highBytes (String h t) = true.
Proof.
  unfold Utf8.EncodeRune, Utf8.bytesN, Utf8.MaxRune, highBytes.
  destruct (N.leb_spec r 127); [left; split; [lia | reflexivity]|].
  right.
  destruct (N.leb_spec r 2047).
  { eexists _, _. split; [reflexivity|].
    cbn [map string_of_list_ascii allBytes].
    rewrite !high_byte; [reflexivity|..];
      zify; Z.to_euclidean_division_equations; lia. }
  destruct ((1114111 <? r)%N || ((55296 <=? r)%N && (r <=? 57343)%N)) eqn:E.
  { eexists _, _. split; reflexivity. }
  apply orb_false_iff in E as [E _]. apply N.ltb_ge in E.
  destruct (N.leb_spec r 65535).
  { eexists _, _. split; [reflexivity|].
    cbn [map string_of_list_ascii allBytes].
    rewrite !high_byte; [reflexivity|..];
      zify; Z.to_euclidean_division_equations; lia. }
  eexists _, _. split; [reflexivity|].
  cbn [map string_of_list_ascii allBytes].
  rewrite !high_byte; [reflexivity|..];
    zify; Z.to_euclidean_division_equations; lia.
Qed.

Lemma EncodeRunes_app a b :
  Utf8.EncodeRunes (a ++ b) = Utf8.EncodeRunes a +:+ Utf8.EncodeRunes b.
Proof.
  induction a as [|r a IH]; [reflexivity|].
  cbn [app Utf8.EncodeRunes]. now rewrite IH, app_assoc_s.
Qed.

Lemma asRunes_cons c p : asRunes (String c p) = N_of_ascii c :: asRunes p.
Proof. reflexivity. Qed.

Lemma EncodeRunes_ascii p :
  allBytes isASCII p = true -> Utf8.EncodeRunes (asRunes p) = p.
Proof.
  induction p as [|c p IH]; [reflexivity|]. cbn [allBytes].
  intros H. apply andb_true_iff in H as [Hc Hp]. apply isASCII_N in Hc.
  rewrite asRunes_cons. cbn [Utf8.EncodeRunes]. rewrite (IH Hp).
  destruct (EncodeRune_cases (N_of_ascii c)) as [[_ ->] | (h & t & He & Hh)].
  - now rewrite ascii_N_embedding.
  - exfalso. revert He Hh. unfold Utf8.EncodeRune.
    destruct (N.leb_spec (N_of_ascii c) 127); [|lia].
    unfold Utf8.bytesN. cbn [map string_of_list_ascii].
    intros [= <- <-]. unfold highBytes. cbn [allBytes].
    rewrite ascii_N_embedding.
    now rewrite (proj2 (isASCII_N c) Hc).
Qed.

(** A text of ASCII bytes at the head of an encoding is the encoding of
    its own runes. *)
Lemma ascii_prefix_aligned p : forall runes b,
  allBytes isASCII p = true ->
  p +:+ b = Utf8.EncodeRunes runes ->
  exists post, runes = asRunes p ++ post /\ Utf8.EncodeRunes post = b.
Proof.
  induction p as [|c p IH]; intros runes b Hp H.
  { exists runes. now split. }
  cbn [allBytes] in Hp. apply andb_true_iff in Hp as [Hc Hp].
  destruct runes as [|r runes]; [discriminate H|].
  cbn [Utf8.EncodeRunes] in H.
  destruct (EncodeRune_cases r) as [[Hr He] | (h & t & He & Hh)];
    rewrite He in H; cbn in H; injection H as Hhead H.
  - destruct (IH runes b Hp H) as (post & -> & Hpost).
    exists post. split; [|exact Hpost].
    rewrite asRunes_cons, Hhead, N_ascii_embedding by lia. reflexivity.
  - exfalso. unfold highBytes in Hh. cbn [allBytes] in Hh.
    apply andb_true_iff in Hh as [Hh _]. subst h.
    now rewrite Hc in Hh.
Qed.

(** A text that starts with an ASCII byte does not start inside the bytes
    of a rune above ASCII. *)
Lemma high_bytes_skipped t : forall a c p b rest,
  highBytes t = true -> isASCII c = true ->
  t +:+ rest = a +:+ String c p +:+ b ->
  exists a', rest = a' +:+ String c p +:+ b.
Proof.
  induction t as [|h t IH]; intros a c p b rest Ht Hc H.
  { now exists a. }
  unfold highBytes in Ht. cbn [allBytes] in Ht.
  apply andb_true_iff in Ht as [Hh Ht].
  destruct a as [|x a]; cbn in H; injection H as Hx H.
  - subst h. now rewrite Hc in Hh.
  - now apply (IH a c p b rest Ht Hc).
Qed.

Lemma ascii_part_aligned c p runes :
  allBytes isASCII (String c p) = true ->
  isSubstring (String c p) (Utf8.EncodeRunes runes) <->
  exists pre post, runes = pre ++ asRunes (String c p) ++ post.
Proof.
  intros Hp. split.
  - intros (a & b & H). revert a H.
    induction runes as [|r runes IH]; intros a H.
    { destruct a; discriminate H. }
    cbn [Utf8.EncodeRunes] in H.
    assert (Hc : isASCII c = true).
    { cbn [allBytes] in Hp. now apply andb_true_iff in Hp as [Hc _]. }
    destruct (EncodeRune_cases r) as [[Hr He] | (h & t & He & Hh)].
    + destruct a as [|x a].
      * destruct (ascii_prefix_aligned (String c p) (r :: runes) b Hp)
          as (post & Hpost & _).
        { cbn [Utf8.EncodeRunes]. exact (eq_sym H). }
        exists [], post. exact Hpost.
      * rewrite He in H. cbn in H. injection H as _ H.
        destruct (IH a H) as (pre & post & ->).
        now exists (r :: pre), post.
    + rewrite He in H. symmetry in H.
      destruct (high_bytes_skipped (String h t) a c p b
                  (Utf8.EncodeRunes runes) Hh Hc (eq_sym H)) as (a' & H').
      destruct (IH a' H') as (pre & post & ->).
      now exists (r :: pre), post.
  - intros (pre & post & ->).
    rewrite !EncodeRunes_app, (EncodeRunes_ascii _ Hp).
    now exists (Utf8.EncodeRunes pre), (Utf8.EncodeRunes post).
Qed.

Lemma Runes_ascii s :
  allBytes isASCII s = true -> Utf8.Runes s = asRunes s.
Proof.
  unfold Utf8.Runes. induction s as [|c s IH]; [reflexivity|].
  cbn [allBytes]. intros H. apply andb_true_iff in H as [Hc Hs].
  apply isASCII_N in Hc. cbn [Utf8.runesFrom]. unfold Utf8.DecodeRune.
  destruct (N.ltb_spec (N_of_ascii c) 128); [|lia].
  cbn [Nat.sub]. now rewrite (IH Hs), asRunes_cons.
Qed.

Lemma lowerASCII_rune table c :
  isASCII c = true ->
  Utf8.EncodeRune (Utf8.ToLower table (N_of_ascii c))
  = String (lowerASCII c) "".
Proof.
  intros Hc. apply isASCII_N in Hc.
  unfold Utf8.ToLower, lowerASCII, isUpperASCII, byte_of, nat_of_ascii.
  destruct (N.leb_spec (N_of_ascii c) 127); [|lia].
  assert (E : ((65 <=? N.to_nat (N_of_ascii c))%nat &&
               (N.to_nat (N_of_ascii c) <=? 90)%nat)
              = ((65 <=? N_of_ascii c)%N && (N_of_ascii c <=? 90)%N)).
  { destruct (Nat.leb_spec 65 (N.to_nat (N_of_ascii c)));
      destruct (N.leb_spec 65 (N_of_ascii c)); try lia;
      destruct (Nat.leb_spec (N.to_nat (N_of_ascii c)) 90);
      destruct (N.leb_spec (N_of_ascii c) 90); try lia; reflexivity. }
  rewrite E.
  destruct ((65 <=? N_of_ascii c)%N && (N_of_ascii c <=? 90)%N) eqn:Hup.
  - apply andb_true_iff in Hup as [_ H90]. apply N.leb_le in H90.
    unfold Utf8.EncodeRune.
    destruct (N.leb_spec (N_of_ascii c + 32) 127); [|lia].
    unfold Utf8.bytesN, ascii_of_nat. cbn [map string_of_list_ascii].
    do 2 f_equal. lia.
  - unfold Utf8.EncodeRune.
    destruct (N.leb_spec (N_of_ascii c) 127); [|lia].
    unfold Utf8.bytesN. cbn [map string_of_list_ascii].
    now rewrite ascii_N_embedding.
Qed.

Lemma Map_ascii table s :
  allBytes isASCII s = true ->
  Utf8.Map (Utf8.ToLower table) s = mapBytes lowerASCII s.
Proof.
  intros H. unfold Utf8.Map. rewrite (Runes_ascii s H).
  induction s as [|c s IH]; [reflexivity|].
  cbn [allBytes] in H. apply andb_true_iff in H as [Hc Hs].
  rewrite asRunes_cons. cbn [map Utf8.EncodeRunes mapBytes].
  rewrite (lowerASCII_rune table c Hc), (IH Hs). reflexivity.
Qed.

Lemma ToLower_runewise (P : Platform) table s :
  goLowerCasing P table ->
  GoStrings.ToLower (unicodeLower P) s = Utf8.Map (Utf8.ToLower table) s.
Proof.
  intros Hgo. unfold GoStrings.ToLower.
  destruct (allBytes isASCII s) eqn:E.
  - symmetry. now apply Map_ascii.
  - now apply Hgo.
Qed.

Lemma rejectPatterns_ascii pattern :
  In pattern rejectPatterns ->
  exists c p, pattern = String c p /\ allBytes isASCII pattern = true.
Proof.
  intros H. cbn [In rejectPatterns] in H.
  repeat (destruct H as [<- | H];
          [eexists _, _; split; [reflexivity | vm_compute; reflexivity]|]).
  destruct H.
Qed.

(** Under Go's lower-casing, a reject pattern is in the lower-cased line
    exactly when a run of characters of the line is the pattern once
    lower-cased. *)
Lemma reject_ignores_case (P : Platform) table pattern line :
  goLowerCasing P table ->
  In pattern rejectPatterns ->
  isSubstring pattern (GoStrings.ToLower (unicodeLower P) line) <->
  containsIgnoringCase (Utf8.ToLower table) pattern line.
Proof.
  intros Hgo Hin. rewrite (ToLower_runewise P table line Hgo).
  destruct (rejectPatterns_ascii pattern Hin) as (c & p & -> & Hp).
  unfold Utf8.Map. rewrite (ascii_part_aligned c p _ Hp).
  unfold containsIgnoringCase. split.
  - intros (pre & post & H).
    apply fmap_app_inv in H as (before & rest & Hb & Hr & ->).
    symmetry in Hr.
    apply fmap_app_inv in Hr as (part & after & Hpart & Ha & ->).
    now exists before, part, after.
  - intros (before & part & after & -> & Hpart).
    exists (map (Utf8.ToLower table) before),
      (map (Utf8.ToLower table) after).
    now rewrite !map_app, Hpart.
Qed.

End CaseProperties.

Section HeuristicOnCharacters.

Import Text Characters.

(** C5, with the length in bytes.  The heuristic looks at the text before
    the first line break only.  It accepts exactly when that line, trimmed
    of white space, has at most 200 bytes, its lower-case form contains
    none of [usage:], [error:], [flag provided], [unknown flag],
    [unknown command], [help], [failed validation], and the line contains
    a decimal digit and a [.]; the empty text is rejected.  The lower-case
    form contains a pattern exactly when the line contains it whatever
    the case: on a line of ASCII bytes a part of the line equals it up to
    the case of the letters, and on any line, the platform lower-casing
    as Go does, a run of characters of the line is the pattern once
    lower-cased. *)
Theorem looks_like_version_text (P : Platform) (output : string) :
  looksLikeVersionOutput P "" = false /\
  exists line,
    isFirstLineOf line output /\
    let trimmed := TrimSpace line in
    let lower := GoStrings.ToLower (unicodeLower P) trimmed in
    let patterns :=
      [ "usage:"; "error:"; "flag provided"; "unknown flag";
        "unknown command"; "help"; "failed validation" ] in
    (looksLikeVersionOutput P output = true <->
     String.length trimmed <= 200 /\
     (forall pattern, In pattern patterns -> ~ isSubstring pattern lower) /\
     (exists c, In c decimalDigits /\ hasByte c trimmed) /\
     hasByte "." trimmed) /\
    (allBytes isASCII trimmed = true ->
     forall pattern, In pattern patterns ->
       (isSubstring pattern lower <->
        exists part,
          isSubstring part trimmed /\ equalIgnoringCase part pattern)) /\
    (forall table,
        goLowerCasing P table ->
        forall pattern, In pattern patterns ->
          (isSubstring pattern lower <->
           containsIgnoringCase (Utf8.ToLower table) pattern trimmed)).
Proof.
  destruct (looksLikeVersionOutput_spec P output)
    as (Hempty & line & Hfirst & Hiff & Hascii).
  split; [exact Hempty|]. exists line. split; [exact Hfirst|].
  cbv zeta in *. split; [exact Hiff|]. split; [exact Hascii|].
  intros table Hgo pattern Hin. now apply reject_ignores_case.
Qed.

Lemma euroLine_worded :
  acceptedAsWorded Utf8.RuneCountInString euroLine.
Proof.
  assert (Htrim : TrimSpace euroLine = euroLine) by (vm_compute; reflexivity).
  exists euroLine. split.
  { split; [|now left]. intros H. apply Contains_byte in H.
    vm_compute in H. discriminate H. }
  cbv zeta. rewrite Htrim. split.
  { apply Nat.leb_le. vm_compute. reflexivity. }
  split.
  { intros pattern Hin (part & Hpart & Heq).
    unfold equalIgnoringCase in Heq.
    rewrite (rejectPatterns_lower pattern Hin) in Heq.
    assert (Hsub : isSubstring pattern (mapBytes lowerASCII euroLine))
      by (apply lower_substring; eauto).
    apply Contains_iff in Hsub. cbn [In] in Hin.
    repeat (destruct Hin as [<- | Hin];
            [vm_compute in Hsub; discriminate Hsub|]).
    destruct Hin. }
  split.
  - exists "1"%char. split; [vm_compute; tauto|].
    apply Contains_byte. vm_compute. reflexivity.
  - apply Contains_byte. vm_compute. reflexivity.
Qed.

(** C5 as stated fails: a line of 70 euro signs followed by [ 1.0] has 74
    characters, no reject pattern, a digit and a [.], and is rejected,
    for it has 214 bytes. *)
Lemma characters_counterexample :
  ~ (forall output,
        looksLikeVersionOutput unicodePlatform output = true <->
        acceptedAsWorded Utf8.RuneCountInString output).
Proof.
  intros H. pose proof (proj2 (H euroLine) euroLine_worded) as Hacc.
  vm_compute in Hacc. discriminate Hacc.
Qed.

(** [HELP] in capitals on a line that is not all ASCII. *)
Lemma looks_like_version_text_witness :
  goLowerCasing unicodePlatform (fun r => r) /\
  containsIgnoringCase (Utf8.ToLower (fun r => r)) "help" shoutedHelp /\
  looksLikeVersionOutput unicodePlatform shoutedHelp = false.
Proof.
  assert (Hgo : goLowerCasing unicodePlatform (fun r => r))
    by (intros s _; reflexivity).
  split; [exact Hgo|].
  destruct (looks_like_version_text unicodePlatform shoutedHelp)
    as (_ & line & Hfirst & _ & _ & Hcase).
  destruct (Split_lines_of_first line shoutedHelp Hfirst) as (rest & Hs).
  vm_compute in Hs. injection Hs as <- _.
  cbv zeta in Hcase.
  assert (Htrim : TrimSpace shoutedHelp = shoutedHelp)
    by (vm_compute; reflexivity).
  split; [|vm_compute; reflexivity].
  change (TrimSpace _) with (TrimSpace shoutedHelp) in Hcase.
  rewrite Htrim in Hcase.
  apply (Hcase (fun r => r) Hgo "help"); [cbn; tauto|].
  apply Contains_iff. vm_compute. reflexivity.
Defined.

End HeuristicOnCharacters.
